(** * The xai import function of tabarnam-functions, embedded in Rocq

    The repository is one HTTP handler ([run]) that asks a completion
    provider for company records, recovers a JSON array from the answer
    ([trimToArrayJson]), normalises every fragment, geocodes its locations
    ([geocodeLocation]), drops records already accepted on earlier pages and
    streams the rest to a document store ([callXAI]).

    The embedding follows the current handler source function by function,
    under the names of the source.

    - JavaScript values are the inductive type [value]; a number carries
      the rational value of a finite double, or is NaN or an infinity (the
      handler compares numbers and never computes with them); a string is a
      sequence of code units below 256.
    - The handler is an ES module, so it runs in strict mode: a property
      written on a primitive raises a TypeError.
    - A computation that calls the outside world is a function from the
      state of the world and the trace of calls made so far to a result, a
      value or a raised exception, and the new state.  Log lines are not
      recorded.
    - The platform ([JSON.parse], the [URL] class, number printing and
      parsing) is a parameter, [Platform]; the services (completion provider,
      geocoding provider, document store, clock and random source) are a
      parameter, [World].
    - The schemas follow zod 3: [z.number()] rejects NaN, [.int()] is
      [Number.isInteger], an object schema strips unknown keys unless told
      otherwise, and of [.strict().passthrough()] the last call decides. *)

From Stdlib Require Import String Ascii DecimalString List Bool Arith ZArith QArith Lia.
Import ListNotations.
Local Close Scope Q_scope.
Local Open Scope string_scope.
Local Open Scope list_scope.
Local Open Scope nat_scope.

Set Implicit Arguments.
Set Warnings "-register-all".
Set Default Proof Using "Type".

(* ------------------------------------------------------------------ *)
(** ** JavaScript numbers *)

Inductive num : Type :=
| NaN
| PInf
| NInf
| Fin (q : Q).

Definition Qltb (p q : Q) : bool := negb (Qle_bool q p).

Definition num_ltb (a b : num) : bool :=
  match a, b with
  | NaN, _ | _, NaN => false
  | NInf, NInf => false
  | NInf, _ => true
  | _, NInf => false
  | PInf, _ => false
  | Fin _, PInf => true
  | Fin p, Fin q => Qltb p q
  end.

Definition num_leb (a b : num) : bool :=
  match a, b with
  | NaN, _ | _, NaN => false
  | NInf, _ => true
  | _, NInf => false
  | _, PInf => true
  | PInf, _ => false
  | Fin p, Fin q => Qle_bool p q
  end.

(** [===] on two numbers. *)
Definition num_eqb (a b : num) : bool :=
  match a, b with
  | PInf, PInf | NInf, NInf => true
  | Fin p, Fin q => Qeq_bool p q
  | _, _ => false
  end.

Definition Number_isFinite (n : num) : bool :=
  match n with Fin _ => true | _ => false end.

Definition Number_isInteger (n : num) : bool :=
  match n with
  | Fin q => Pos.eqb (Qden (Qred q)) 1
  | _ => false
  end.

Definition Math_max (a b : num) : num :=
  match a, b with
  | NaN, _ | _, NaN => NaN
  | _, _ => if num_ltb a b then b else a
  end.

Definition Math_min (a b : num) : num :=
  match a, b with
  | NaN, _ | _, NaN => NaN
  | _, _ => if num_ltb b a then b else a
  end.

Definition num_of_nat (n : nat) : num := Fin (inject_Z (Z.of_nat n)).
Definition num_of_Z (z : Z) : num := Fin (inject_Z z).

(** The integer a number stands for, when [Number_isInteger] holds. *)
Definition num_to_Z (n : num) : Z :=
  match n with
  | Fin q => Qnum (Qred q)
  | _ => 0%Z
  end.

(* ------------------------------------------------------------------ *)
(** ** Constants of clampTimeout *)

Definition TIMEOUT_DEFAULT : num := num_of_Z 300000.
Definition TIMEOUT_MAX : num := num_of_Z 3600000.
Definition TIMEOUT_MIN : num := num_of_Z 10000.


(* ------------------------------------------------------------------ *)
(** ** Strings *)

Definition code (c : ascii) : nat := nat_of_ascii c.

(** WhiteSpace and LineTerminator code units below 256: what [trim] strips
    and what [\s] matches. *)
Definition is_ws (c : ascii) : bool :=
  let n := code c in
  ((9 <=? n) && (n <=? 13)) || (n =? 32) || (n =? 160).

Fixpoint trimStart (s : string) : string :=
  match s with
  | String c s' => if is_ws c then trimStart s' else s
  | EmptyString => EmptyString
  end.

Fixpoint trimEnd (s : string) : string :=
  match s with
  | EmptyString => EmptyString
  | String c s' =>
      match trimEnd s' with
      | EmptyString => if is_ws c then EmptyString else String c EmptyString
      | t => String c t
      end
  end.

Definition trim (s : string) : string := trimEnd (trimStart s).

(** [p] is a prefix of [s]. *)
Fixpoint is_prefix (p s : string) : bool :=
  match p with
  | EmptyString => true
  | String a p' =>
      match s with
      | EmptyString => false
      | String b s' => Ascii.eqb a b && is_prefix p' s'
      end
  end.

Definition startsWith (s p : string) : bool := is_prefix p s.

(** [s.indexOf(p)]: position of the first occurrence. *)
Fixpoint indexOf (s p : string) : option nat :=
  if is_prefix p s then Some 0
  else match s with
       | EmptyString => None
       | String _ s' => option_map S (indexOf s' p)
       end.

(** [s.lastIndexOf(p)]: position of the last occurrence. *)
Fixpoint lastIndexOf (s p : string) : option nat :=
  match s with
  | EmptyString => if is_prefix p s then Some 0 else None
  | String _ s' =>
      match lastIndexOf s' p with
      | Some i => Some (S i)
      | None => if is_prefix p s then Some 0 else None
      end
  end.

Fixpoint take (n : nat) (s : string) : string :=
  match n, s with
  | S n', String c s' => String c (take n' s')
  | _, _ => EmptyString
  end.

Fixpoint drop (n : nat) (s : string) : string :=
  match n, s with
  | S n', String _ s' => drop n' s'
  | _, _ => s
  end.

(** [s.slice(a, b)] for [0 <= a <= b]. *)
Definition slice (s : string) (a b : nat) : string := take (b - a) (drop a s).

Definition lower_char (c : ascii) : ascii :=
  let n := code c in
  if ((65 <=? n) && (n <=? 90))
     || ((192 <=? n) && (n <=? 222) && negb (n =? 215))
  then ascii_of_nat (n + 32) else c.

Fixpoint toLowerCase (s : string) : string :=
  match s with
  | EmptyString => EmptyString
  | String c s' => String (lower_char c) (toLowerCase s')
  end.

(** Case folding of a non-unicode [/i] regular expression: only the ASCII
    letters fold onto ASCII letters. *)
Definition fold_char (c : ascii) : ascii :=
  let n := code c in
  if (65 <=? n) && (n <=? 90) then ascii_of_nat (n + 32) else c.

Fixpoint fold_case (s : string) : string :=
  match s with
  | EmptyString => EmptyString
  | String c s' => String (fold_char c) (fold_case s')
  end.

Definition contains (s p : string) : bool :=
  match indexOf s p with Some _ => true | None => false end.

(** [s.split(/[...]/)] on a character class. *)
Fixpoint split_on (sep : ascii -> bool) (s : string) : list string :=
  match s with
  | EmptyString => [EmptyString]
  | String c s' =>
      if sep c then EmptyString :: split_on sep s'
      else match split_on sep s' with
           | piece :: rest => String c piece :: rest
           | [] => [String c EmptyString]
           end
  end.

(** [s.split(p)[0]]: the text before the first occurrence of [p]. *)
Definition before_first (s p : string) : string :=
  match indexOf s p with
  | Some i => take i s
  | None => s
  end.

Fixpoint join (sep : string) (l : list string) : string :=
  match l with
  | [] => EmptyString
  | [x] => x
  | x :: rest => (x ++ sep ++ join sep rest)%string
  end.

Definition dq : string := String "034"%char EmptyString.
Definition nl : string := String "010"%char EmptyString.
Definition quoted (s : string) : string := (dq ++ s ++ dq)%string.

Definition nat_to_string (n : nat) : string := NilZero.string_of_uint (Nat.to_uint n).

Definition str_nonempty (s : string) : bool :=
  match s with EmptyString => false | _ => true end.

(* ------------------------------------------------------------------ *)
(** ** JavaScript values *)

Inductive value : Type :=
| VUndef
| VNull
| VBool (b : bool)
| VNum (n : num)
| VStr (s : string)
| VArr (items : list value)
| VObj (props : list (string * value)).

Fixpoint lookup (k : string) (props : list (string * value)) : option value :=
  match props with
  | [] => None
  | (k', v) :: rest => if String.eqb k k' then Some v else lookup k rest
  end.

Definition hasOwn (k : string) (props : list (string * value)) : bool :=
  match lookup k props with Some _ => true | None => false end.

(** [o.k = v] on an object. *)
Fixpoint set_own (k : string) (v : value) (props : list (string * value))
  : list (string * value) :=
  match props with
  | [] => [(k, v)]
  | (k', v') :: rest =>
      if String.eqb k k' then (k, v) :: rest else (k', v') :: set_own k v rest
  end.

Definition truthy (v : value) : bool :=
  match v with
  | VUndef | VNull => false
  | VBool b => b
  | VNum (Fin q) => negb (Qeq_bool q 0)
  | VNum NaN => false
  | VNum _ => true
  | VStr s => str_nonempty s
  | VArr _ | VObj _ => true
  end.

(** [a || b] and [a ?? b]. *)
Definition or_else (a b : value) : value := if truthy a then a else b.
Definition nullish (v : value) : bool :=
  match v with VUndef | VNull => true | _ => false end.
Definition coalesce (a b : value) : value := if nullish a then b else a.

Infix "||?" := or_else (at level 50, left associativity).
Infix "??" := coalesce (at level 50, left associativity).

Definition is_object (v : value) : bool :=
  match v with VArr _ | VObj _ => true | _ => false end.
Definition is_string (v : value) : bool :=
  match v with VStr _ => true | _ => false end.
Definition is_number (v : value) : bool :=
  match v with VNum _ => true | _ => false end.
Definition Array_isArray (v : value) : bool :=
  match v with VArr _ => true | _ => false end.

Definition char_at (s : string) (i : nat) : value :=
  match String.get i s with
  | Some c => VStr (String c EmptyString)
  | None => VUndef
  end.

(** [o.k] and [o?.k] for the property names the handler reads.  Own
    properties of objects, [length] of arrays and strings; every other read
    gives [undefined] (none of the names read by the handler is a prototype
    method of the value it is read from).  On [null] and [undefined] this is
    the [?.] read; the handler reads with a plain [.] only from values it
    has tested before. *)
Definition get (o : value) (k : string) : value :=
  match o with
  | VObj props => match lookup k props with Some v => v | None => VUndef end
  | VArr items => if String.eqb k "length" then VNum (num_of_nat (length items)) else VUndef
  | VStr s => if String.eqb k "length" then VNum (num_of_nat (String.length s)) else VUndef
  | _ => VUndef
  end.

(** [o?.[0]]. *)
Definition get0 (o : value) : value :=
  match o with
  | VObj props => match lookup "0" props with Some v => v | None => VUndef end
  | VArr items => nth 0 items VUndef
  | VStr s => char_at s 0
  | _ => VUndef
  end.

(** [a === b].  Two objects or arrays compared by the handler always come
    from different [JSON.parse] results, so they are different references. *)
Definition strict_eq (a b : value) : bool :=
  match a, b with
  | VUndef, VUndef | VNull, VNull => true
  | VBool x, VBool y => Bool.eqb x y
  | VNum x, VNum y => num_eqb x y
  | VStr x, VStr y => String.eqb x y
  | _, _ => false
  end.

(** [clampTimeout(ms)]; [Number.isFinite] is false on everything that is
    not a number. *)
Definition clampTimeout (ms : value) : num :=
  match ms with
  | VNum n =>
      if negb (Number_isFinite n) then TIMEOUT_DEFAULT
      else Math_min TIMEOUT_MAX (Math_max TIMEOUT_MIN n)
  | _ => TIMEOUT_DEFAULT
  end.

(* ------------------------------------------------------------------ *)
(** ** Records of the handler *)

Record latlng : Type := { lat : value; lng : value }.

Definition zero : value := VNum (num_of_Z 0).
Definition origin00 : latlng := {| lat := zero; lng := zero |}.

Record review : Type := { text : string; link : option string }.

Record contact_info : Type :=
  { contact_page_url : option string; contact_email : option string }.

(** The [doc] object literal of [callXAI]; [doc_lat] and [doc_long] are its
    keys [lat] and [long]. *)
Record doc : Type := {
  company_name : value;
  company_tagline : value;
  industries : list string;
  product_keywords : string;
  url : string;
  email_address : string;
  headquarters_location : value;
  manufacturing_locations : list value;
  amazon_url : value;
  red_flag : bool;
  hq_lat : value;
  hq_lng : value;
  doc_lat : value;
  doc_long : value;
  manu_lats : list value;
  manu_lngs : list value;
  reviews : list review;
  notes : string;
  company_contact_info : contact_info;
  id : string;
  session_id : value;
  created_at : string;
  normalized_domain : string
}.

(** [process.env]. *)
Record environment : Type := {
  XAI_API_KEY : option string;
  XAI_MODEL : option string;
  XAI_TIMEOUT_MS : option string;
  XAI_STUB : option string;
  GOOGLE_GEOCODING_API_KEY : option string
}.

Definition env_truthy (v : option string) : bool :=
  match v with Some s => str_nonempty s | None => false end.

(** The completion request: axios instance configuration and body. *)
Record xai_request : Type := {
  rq_bearer : string;
  rq_timeout : num;
  rq_model : string;
  rq_content : string
}.

(* ------------------------------------------------------------------ *)
(** ** The platform and the outside world *)

(** Built-ins of the JavaScript platform the handler calls. *)
Record Platform : Type := {
  num_to_string : num -> string;          (* String(n) *)
  string_to_num : string -> num;          (* Number(s) *)
  JSON_parse : string -> option value;    (* None: SyntaxError *)
  URL : Type;
  URL_new : string -> option URL;         (* None: TypeError *)
  URL_protocol : URL -> string;
  URL_hostname : URL -> string;
  URL_searchParams : URL -> list (string * string);
  URL_update : URL -> list (string * string) -> URL;
  URL_toString : URL -> string
}.

Inductive http_result : Type :=
| HttpFails
| HttpData (data : value).

(** The services behind the handler.  Each call reads and advances the
    state of the world; nothing is assumed about the answers.
    [cosmos_connect] is the import and construction of the store client
    (true: a container was obtained), [cosmos_upsert] one upsert (false: it
    was rejected), [fresh_id] the identifier of a new record and [now_iso]
    the clock. *)
Record World : Type := {
  W : Type;
  geocode_get : value -> string -> W -> http_result * W;
  xai_post : xai_request -> W -> http_result * W;
  cosmos_connect : W -> bool * W;
  cosmos_upsert : doc -> W -> bool * W;
  fresh_id : W -> string * W;
  now_iso : W -> string * W
}.

Inductive event : Type :=
| EvModel (rq : xai_request)
| EvGeocode (location : value)
| EvConnect
| EvUpsert (d : doc).

Inductive exn : Type :=
| TypeError
| HttpError
| MissingKey
| ZodError.

Inductive result (A : Type) : Type :=
| Ok (a : A)
| Throw (e : exn).
Arguments Ok {A} a.
Arguments Throw {A} e.

(** [URLSearchParams.prototype.set]: the first pair named [k] takes the
    value, later pairs named [k] are removed; a missing name is appended. *)
Definition remove_name (k : string) (l : list (string * string))
  : list (string * string) :=
  filter (fun p => negb (String.eqb (fst p) k)) l.

Fixpoint params_set (k v : string) (l : list (string * string))
  : list (string * string) :=
  match l with
  | [] => [(k, v)]
  | (k', v') :: rest =>
      if String.eqb k' k then (k, v) :: remove_name k rest
      else (k', v') :: params_set k v rest
  end.

Fixpoint params_get (k : string) (l : list (string * string)) : option string :=
  match l with
  | [] => None
  | (k', v) :: rest => if String.eqb k' k then Some v else params_get k rest
  end.

(** [[...new Set(l)]]: first occurrences, in order. *)
Fixpoint dedupe (l : list string) : list string :=
  match l with
  | [] => []
  | x :: rest => x :: filter (fun y => negb (String.eqb y x)) (dedupe rest)
  end.

Definition AFFILIATE_TAG : string := "tabarnam00-20".
Definition FENCE : string := "```".

(** The match of [/```(?:json)?\s*([\s\S]*?)```/i]: capture group 1.  The
    leftmost match opens at the first fence; the lazy group ends at the
    first fence after the optional tag and the white space. *)
Definition skip_json_tag (s : string) : string :=
  if is_prefix "json" (fold_case (take 4 s)) then drop 4 s else s.

Definition fence_capture (s : string) : option string :=
  match indexOf s FENCE with
  | None => None
  | Some i =>
      let inner := trimStart (skip_json_tag (drop (i + 3) s)) in
      match indexOf inner FENCE with
      | None => None
      | Some j => Some (take j inner)
      end
  end.

(** [/^[^\s@]+@[^\s@]+\.[^\s@]+$/.test(s)]. *)
Definition email_char (c : ascii) : bool :=
  negb (is_ws c) && negb (Ascii.eqb c "@"%char).

Fixpoint all_chars (p : ascii -> bool) (s : string) : bool :=
  match s with
  | EmptyString => true
  | String c s' => p c && all_chars p s'
  end.

Definition inner_dot (s : string) : bool :=
  match s with
  | EmptyString => false
  | String _ s' => contains (take (String.length s' - 1) s') "."
  end.

Definition email_regex (s : string) : bool :=
  match indexOf s "@" with
  | None => false
  | Some i =>
      let local := take i s in
      let domain := drop (S i) s in
      str_nonempty local && all_chars email_char local
      && all_chars email_char domain && inner_dot domain
  end.

Section Handler.

Variable P : Platform.
Variable Wd : World.
Variable env : environment.

(* ------------------------------------------------------------------ *)
(** ** Conversions *)

Definition bool_to_string (b : bool) : string := if b then "true" else "false".

(** [String(v)].  [None] is the TypeError of an object whose own
    [toString] property hides the inherited method (a parsed JSON value is
    never callable). *)
Fixpoint to_string (v : value) : option string :=
  match v with
  | VUndef => Some "undefined"
  | VNull => Some "null"
  | VBool b => Some (bool_to_string b)
  | VNum n => Some (num_to_string P n)
  | VStr s => Some s
  | VArr items =>
      let fix elems (l : list value) : option (list string) :=
        match l with
        | [] => Some []
        | x :: rest =>
            match (match x with
                   | VUndef | VNull => Some EmptyString
                   | _ => to_string x
                   end), elems rest with
            | Some a, Some b => Some (a :: b)
            | _, _ => None
            end
        end in
      option_map (join ",") (elems items)
  | VObj props => if hasOwn "toString" props then None else Some "[object Object]"
  end.

Fixpoint map_opt {A B : Type} (f : A -> option B) (l : list A) : option (list B) :=
  match l with
  | [] => Some []
  | x :: rest =>
      match f x, map_opt f rest with
      | Some a, Some b => Some (a :: b)
      | _, _ => None
      end
  end.

(** [Number(v)] for the two kinds of value the handler converts. *)
Definition to_number (v : value) : num :=
  match v with
  | VNum n => n
  | VStr s => string_to_num P s
  | _ => NaN
  end.

(* ------------------------------------------------------------------ *)
(** ** helpers *)

Definition new_URL (s : string) : option (URL P) :=
  URL_new P (if startsWith s "http" then s else "https://" ++ s)%string.

Definition isValidUrl (s : string) : bool :=
  match URL_new P s with
  | Some u => String.eqb (URL_protocol P u) "http:" || String.eqb (URL_protocol P u) "https:"
  | None => false
  end.

Definition isValidEmail (s : string) : bool := email_regex (trim s).

Definition toNormalizedDomain (urlOrHost : string) : string :=
  let s := trim urlOrHost in
  if negb (str_nonempty s) then "unknown"
  else match new_URL s with
       | Some u =>
           let h := toLowerCase (URL_hostname P u) in
           let h := if startsWith h "www." then drop 4 h else h in
           if str_nonempty h then h else "unknown"
       | None => "unknown"
       end.

Record extracted : Type := { companies : option value; note : string }.

Definition parse_object_stage (s : string) : option extracted :=
  if startsWith s "{" then
    match JSON_parse P s with
    | Some obj =>
        if Array_isArray obj then Some {| companies := Some obj; note := "object-is-array" |}
        else if truthy obj && Array_isArray (get obj "companies")
             then Some {| companies := Some (get obj "companies"); note := "object.companies" |}
             else None
    | None => None
    end
  else None.

Definition parse_array_stage (s : string) : option extracted :=
  if startsWith s "[" then
    match JSON_parse P s with
    | Some v => Some {| companies := Some v; note := "array" |}
    | None => None
    end
  else None.

Definition parse_slice_stage (s : string) : option extracted :=
  match indexOf s "[", lastIndexOf s "]" with
  | Some a, Some b =>
      if a <? b then
        match JSON_parse P (slice s a (b + 1)) with
        | Some v => Some {| companies := Some v; note := "sliced-array" |}
        | None => None
        end
      else None
  | _, _ => None
  end.

(** [trimToArrayJson(text)]; [None] is the TypeError of [String(text)]. *)
Definition trimToArrayJson (text : value) : option extracted :=
  if negb (truthy text) then Some {| companies := None; note := "empty" |}
  else
    match to_string text with
    | None => None
    | Some t =>
        let s := trim t in
        let s := match fence_capture s with Some inner => trim inner | None => s end in
        match parse_object_stage s with
        | Some r => Some r
        | None =>
            match parse_array_stage s with
            | Some r => Some r
            | None =>
                match parse_slice_stage s with
                | Some r => Some r
                | None => Some {| companies := None; note := "unparseable" |}
                end
            end
        end
    end.

(* ------------------------------------------------------------------ *)
(** ** Calls to the outside world *)

Record state : Type := { world : W Wd; trace : list event }.

Definition M (A : Type) : Type := state -> result A * state.

Definition ret {A : Type} (a : A) : M A := fun st => (Ok a, st).

Definition bind {A B : Type} (m : M A) (k : A -> M B) : M B :=
  fun st =>
    match m st with
    | (Ok a, st') => k a st'
    | (Throw e, st') => (Throw e, st')
    end.

Definition throw {A : Type} (e : exn) : M A := fun st => (Throw e, st).

(** [try { m } catch { h }]: what [m] did to the world stays done. *)
Definition try_catch {A : Type} (m : M A) (h : exn -> M A) : M A :=
  fun st =>
    match m st with
    | (Ok a, st') => (Ok a, st')
    | (Throw e, st') => h e st'
    end.

Definition lift {A : Type} (o : option A) : M A :=
  match o with Some a => ret a | None => throw TypeError end.

(** One call to a service, recorded in the trace. *)
Definition call {A : Type} (ev : event) (f : W Wd -> A * W Wd) : M A :=
  fun st =>
    let (a, w') := f (world st) in
    (Ok a, {| world := w'; trace := trace st ++ [ev] |}).

(** Clock and random source: read without a trace entry. *)
Definition ask {A : Type} (f : W Wd -> A * W Wd) : M A :=
  fun st =>
    let (a, w') := f (world st) in
    (Ok a, {| world := w'; trace := trace st |}).

Notation "x <- m ;; k" := (bind m (fun x => k))
  (at level 61, m at next level, right associativity).

Definition http (ev : event) (f : W Wd -> http_result * W Wd) : M value :=
  r <- call ev f ;;
  match r with
  | HttpData data => ret data
  | HttpFails => throw HttpError
  end.

(* ------------------------------------------------------------------ *)
(** ** geocoding *)

(** [geocodeLocation(location)].  The address is built with
    [encodeURIComponent(location)] before the request is sent: a location
    that [String] cannot convert raises inside the [try], and no request
    leaves. *)
Definition geocodeLocation (location : value) : M latlng :=
  match GOOGLE_GEOCODING_API_KEY env with
  | Some key =>
      if negb (str_nonempty key) || negb (truthy location) then ret origin00
      else
        try_catch
          (_ <- lift (to_string location) ;;
           data <- http (EvGeocode location) (geocode_get Wd location key) ;;
           let g := get (get (get0 (get data "results")) "geometry") "location" in
           ret (if truthy g then {| lat := get g "lat"; lng := get g "lng" |}
                else origin00))
          (fun _ => ret origin00)
  | None => ret origin00
  end.

(** [geocodeLocation] of the older copy of the handler kept in the
    repository: no test of the location, and a first result read without
    optional chaining (a TypeError on a missing [data] or [results], caught
    like a failed call).  Its two log lines print the location in a
    template literal, so they convert it again: in the [catch] block a
    location that [String] cannot convert raises out of the function. *)
Definition geocodeLocation_legacy (location : value) : M latlng :=
  match GOOGLE_GEOCODING_API_KEY env with
  | Some googleApiKey =>
      if negb (str_nonempty googleApiKey) then ret origin00
      else
        try_catch
          (_ <- lift (to_string location) ;;
           data <- http (EvGeocode location) (geocode_get Wd location googleApiKey) ;;
           if nullish data || nullish (get data "results") then throw TypeError
           else
             let result := get0 (get data "results") in
             if truthy result && truthy (get result "geometry")
                && truthy (get (get result "geometry") "location")
             then ret {| lat := get (get (get result "geometry") "location") "lat";
                         lng := get (get (get result "geometry") "location") "lng" |}
             else (_ <- lift (to_string location) ;; ret origin00))
          (fun _ => _ <- lift (to_string location) ;; ret origin00)
  | None => ret origin00
  end.

(* ------------------------------------------------------------------ *)
(** ** XAI call: field helpers *)

Definition ensureAffiliateTag (input : value) : value :=
  if negb (truthy input) then VStr ""
  else
    match input with
    | VStr s =>
        match new_URL s with
        | Some u =>
            let u' :=
              if contains (fold_case (URL_hostname P u)) "amazon."
              then URL_update P u (params_set "tag" AFFILIATE_TAG (URL_searchParams P u))
              else u in
            VStr (URL_toString P u')
        | None => input
        end
    | _ => input      (* input.startsWith is not a function: caught *)
    end.

Definition industry_sep (c : ascii) : bool :=
  Ascii.eqb c ","%char || Ascii.eqb c ";"%char || Ascii.eqb c "|"%char.

Definition normalizeIndustries (input : value) : option (list string) :=
  match input with
  | VArr items =>
      option_map (fun l => dedupe (filter str_nonempty (map trim l)))
                 (map_opt to_string items)
  | VStr s => Some (dedupe (filter str_nonempty (map trim (split_on industry_sep s))))
  | _ => Some []
  end.

Definition coerceReview (x : value) : option review :=
  match x with
  | VStr s => Some {| text := s; link := None |}
  | VArr _ | VObj _ =>
      match to_string (get x "text" ?? VStr ""), to_string (get x "link" ?? VStr "") with
      | Some t, Some l =>
          Some {| text := trim t;
                  link := if isValidUrl (trim l) then Some (trim l) else None |}
      | _, _ => None
      end
  | _ => Some {| text := ""; link := None |}
  end.

Definition coerceReviews (rv : value) : option (list review) :=
  if negb (truthy rv) then Some []
  else
    match rv with
    | VArr items =>
        option_map (filter (fun o => str_nonempty (text o))) (map_opt coerceReview items)
    | VStr s => Some [ {| text := s; link := None |} ]
    | _ => Some []
    end.

Definition sanitizeContactInfo (ci : value) : option contact_info :=
  match to_string (get ci "contact_page_url" ||? VStr ""),
        to_string (get ci "contact_email" ||? VStr "") with
  | Some u, Some e =>
      Some {| contact_page_url := if isValidUrl (trim u) then Some (trim u) else None;
              contact_email := if isValidEmail (trim e) then Some (trim e) else None |}
  | _, _ => None
  end.

(** The keywords of a fragment, from the first alias that is a string or
    an array. *)
Definition keywords_of (company : value) : option string :=
  let pick (v : value) (next : option string) : option string :=
    match v with
    | VStr s => Some s
    | VArr items => option_map (join ", ") (map_opt to_string items)
    | _ => next
    end in
  pick (get company "product_keywords")
    (pick (get company "related_products")
       (pick (get company "keywords") (Some ""))).

(** [x.split(". ")[0]]: a TypeError on everything that is not a string. *)
Definition first_sentence (x : value) : option string :=
  match x with
  | VStr s => Some (before_first s ". ")
  | _ => None
  end.

Definition tagline_of (company : value) : option value :=
  if truthy (get company "company_tagline") then Some (get company "company_tagline")
  else
    match first_sentence (get company "description" ||? get company "product_focus"
                          ||? get company "products" ||? VStr "") with
    | Some s => Some (VStr s ||? VStr "")
    | None => None
    end.

Definition manuList_of (company : value) : list value :=
  match get company "manufacturing_locations" with
  | VArr (x :: rest) => x :: rest
  | _ => if truthy (get company "manufacturing") then [get company "manufacturing"] else []
  end.

Definition hqLoc_of (company : value) : value :=
  get company "headquarters_location" ||? get company "headquarters" ||? VStr "".

(* ------------------------------------------------------------------ *)
(** ** prompt helper *)

Definition prompt_part (search : value) (field label : string)
  : option (list string) :=
  if truthy (get search field) then
    option_map (fun v => [label ++ " " ++ quoted v])%string (to_string (get search field))
  else Some [].

Definition prompt_parts (search : value) : option (list string) :=
  option_map (@concat string)
    (map_opt (fun fl => prompt_part search (fst fl) (snd fl))
       [ ("company_name", "company_name containing");
         ("product_keywords", "product_keywords containing");
         ("industries", "industries including");
         ("headquarters_location", "headquarters_location in");
         ("manufacturing_locations", "manufacturing_locations including");
         ("email_address", "email_address matching");
         ("url", "url matching");
         ("amazon_url", "amazon_url matching") ]).

(** [buildPrompt(search, previous)]; the list of previous names is not
    used by the source. *)
Definition buildPrompt (search : value) (previous : list value) : option string :=
  match prompt_parts search with
  | None => None
  | Some parts =>
      let queryString :=
        match parts with [] => "any company" | _ => join " and " parts end in
      Some ("Return ONLY a JSON array (no prose, no markdown) with EXACTLY 1 object that matches ("
            ++ queryString ++ ")." ++ nl
            ++ "Each object MUST include: company_name, industries[], product_keywords (string), url (https://...), email_address, headquarters_location, manufacturing_locations[], amazon_url, red_flag (boolean), reviews[] (objects with { "
            ++ quoted "text" ++ ": " ++ quoted "..." ++ ", " ++ quoted "link" ++ ": "
            ++ quoted "https://..." ++ " }), notes, company_contact_info { "
            ++ quoted "contact_page_url" ++ ": " ++ quoted "https://..." ++ ", "
            ++ quoted "contact_email" ++ ": " ++ quoted "name@example.com" ++ " }." ++ nl
            ++ "If you don't find credible info for a field, use " ++ dq ++ dq
            ++ " (or [] / false)." ++ nl
            ++ "No backticks. No extra keys. Companies must be unique across pages." ++ nl)%string
  end.

(* ------------------------------------------------------------------ *)
(** ** XAI call: one fragment *)

Fixpoint geocode_all (locs : list value) : M (list value * list value) :=
  match locs with
  | [] => ret ([], [])
  | loc :: rest =>
      m <- geocodeLocation loc ;;
      r <- geocode_all rest ;;
      ret (lat m :: fst r, lng m :: snd r)
  end.

(** The pure part of the [doc] literal: everything but the fresh
    identifier and the timestamp.  [None] is a TypeError raised while a
    field is computed. *)
Definition shape (company : value) (hq : latlng) (manuList manuLats manuLngs : list value)
           (sessionId : value) : option (string -> string -> doc) :=
  let hqLoc := hqLoc_of company in
  match normalizeIndustries
          (if truthy (get (get company "industries") "length")
           then get company "industries"
           else VArr [get company "category" ||? VStr ""]),
        keywords_of company,
        to_string (get company "url" ||? get company "website" ||? VStr "") with
  | Some industries_, Some keywords, Some url0 =>
      let url_ := trim url0 in
      match tagline_of company,
            to_string (get company "email_address" ||? get company "email" ||? VStr ""),
            coerceReviews (get company "reviews"),
            to_string (get company "notes" ||? VStr ""),
            sanitizeContactInfo (get company "company_contact_info") with
      | Some tagline, Some email, Some reviews_, Some notes_, Some contact =>
          Some (fun new_id now =>
            {| company_name := get company "company_name" ||? get company "name"
                               ||? get company "company" ||? VStr "Unknown";
               company_tagline := tagline;
               industries := industries_;
               product_keywords := keywords;
               url := url_;
               email_address := trim email;
               headquarters_location := hqLoc ||? VStr "Unknown";
               manufacturing_locations := manuList;
               amazon_url := ensureAffiliateTag (get company "amazon_url"
                                                 ||? get company "amazon" ||? VStr "");
               red_flag := truthy (get company "red_flag");
               hq_lat := lat hq; hq_lng := lng hq;
               doc_lat := lat hq; doc_long := lng hq;
               manu_lats := manuLats; manu_lngs := manuLngs;
               reviews := reviews_;
               notes := trim notes_;
               company_contact_info := contact;
               id := new_id;
               session_id := sessionId ||? VNull;
               created_at := now;
               normalized_domain := toNormalizedDomain url_ |})
      | _, _, _, _, _ => None
      end
  | _, _, _ => None
  end.

Definition normalize (sessionId company : value) : M doc :=
  hq <- geocodeLocation (hqLoc_of company) ;;
  let manuList := manuList_of company in
  coords <- geocode_all manuList ;;
  build <- lift (shape company hq manuList (fst coords) (snd coords) sessionId) ;;
  new_id <- ask (fresh_id Wd) ;;
  now <- ask (now_iso Wd) ;;
  ret (build new_id now).

(** [getCosmosContainer()]: the container is remembered once obtained. *)
Definition getCosmosContainer (connected : bool) : M bool :=
  if connected then ret true else call EvConnect (cosmos_connect Wd).

(** The streaming upsert; a rejected upsert is logged and forgotten. *)
Definition stream (d : doc) (connected : bool) : M bool :=
  container <- getCosmosContainer connected ;;
  if container then
    _ <- call (EvUpsert d) (cosmos_upsert Wd d) ;;
    ret container
  else ret container.

Fixpoint clean_page (sessionId : value) (fragments : list value)
         (connected : bool) (clean : list doc) : M (bool * list doc) :=
  match fragments with
  | [] => ret (connected, clean)
  | company :: rest =>
      r <- (if negb (is_object company) then ret (connected, clean)
            else try_catch
                   (d <- normalize sessionId company ;;
                    c <- stream d connected ;;
                    ret (c, clean ++ [d]))
                   (fun _ => ret (connected, clean))) ;;
      clean_page sessionId rest (fst r) (snd r)
  end.

(* ------------------------------------------------------------------ *)
(** ** XAI call: the page loop *)

Record debug_entry : Type := {
  dbg_page : nat;
  dbg_note : string;
  dbg_parseNote : string;
  dbg_preview : string
}.

Definition same_key (e c : doc) : bool :=
  strict_eq (company_name e) (company_name c)
  && String.eqb (normalized_domain e) (normalized_domain c).

(** [clean.filter(c => !all.some(e => ...))]. *)
Definition novel (all clean : list doc) : list doc :=
  filter (fun c => negb (existsb (fun e => same_key e c) all)) clean.

Inductive step : Type :=
| Break (all : list doc) (debug : list debug_entry)
| Next (all : list doc) (debug : list debug_entry) (connected : bool).

Definition env_timeout : num :=
  match XAI_TIMEOUT_MS env with
  | Some s => string_to_num P s
  | None => num_of_Z 600000
  end.

Section Pages.

Variable search : value.
Variable maxImports : nat.
Variable sessionId : value.
Variable bearer : string.
Variable model : string.
Variable timeout : num.

(** The body of the [try] block of one iteration. *)
Definition page_body (page : nat) (all : list doc) (debug : list debug_entry)
           (connected : bool) : M step :=
  prompt <- lift (buildPrompt search (map company_name all)) ;;
  let rq := {| rq_bearer := bearer; rq_timeout := timeout; rq_model := model;
               rq_content := (prompt ++ " Return result " ++ nat_to_string page ++ ".")%string |} in
  data <- http (EvModel rq) (xai_post Wd rq) ;;
  let content := get (get (get0 (get data "choices")) "message") "content" ||? VStr "" in
  parsed <- lift (trimToArrayJson content) ;;
  match companies parsed with
  | Some (VArr (f :: fs)) =>
      r <- clean_page sessionId (f :: fs) connected [] ;;
      let unique := novel all (snd r) in
      match unique with
      | [] => ret (Break (all ++ unique) debug)
      | _ => ret (Next (all ++ unique) debug (fst r))
      end
  | _ =>
      preview <- lift (to_string content) ;;
      ret (Break all (debug ++ [ {| dbg_page := page;
                                    dbg_note := "no-companies-from-model";
                                    dbg_parseNote := note parsed;
                                    dbg_preview := take 140 preview |} ]))
  end.

(** [while (page <= maxImports && all.length < maxImports)].  Every
    iteration that does not leave the loop increments [page], so
    [maxImports] iterations are enough; [fuel] counts them. *)
Fixpoint pages (fuel page : nat) (all : list doc) (debug : list debug_entry)
         (connected : bool) : M (list doc * list debug_entry) :=
  if (page <=? maxImports) && (length all <? maxImports) then
    match fuel with
    | 0 => ret (all, debug)
    | S fuel' =>
        r <- try_catch (page_body page all debug connected)
                       (fun _ => ret (Next all debug connected)) ;;
        match r with
        | Break a d => ret (a, d)
        | Next a d c => pages fuel' (S page) a d c
        end
    end
  else ret (all, debug).

End Pages.

(** [callXAI(context, search, maxImports, timeoutMs, sessionId)] as [run]
    calls it: [maxImports] is the validated integer. *)
Definition callXAI (search : value) (maxImports : nat) (timeoutMs sessionId : value)
  : M (list doc * list debug_entry) :=
  match XAI_API_KEY env with
  | Some xaiApiKey =>
      if str_nonempty xaiApiKey then
        let model :=
          match XAI_MODEL env with
          | Some m => if str_nonempty m then m else "grok-4-latest"
          | None => "grok-4-latest"
          end in
        let timeoutMs := match timeoutMs with VUndef => VNum (num_of_Z 600000) | v => v end in
        let timeout := clampTimeout (timeoutMs ?? VNum env_timeout) in
        pages search maxImports sessionId xaiApiKey model timeout maxImports 1 [] [] false
      else throw MissingKey
  | None => throw MissingKey
  end.

(* ------------------------------------------------------------------ *)
(** ** schemas *)

(** A record accepted by [companySchema]: the declared keys, typed. *)
Record company : Type := {
  c_company_name : string;
  c_company_tagline : option string;
  c_industries : list string;
  c_product_keywords : string;
  c_url : string;
  c_email_address : string;
  c_headquarters_location : string;
  c_manufacturing_locations : list string;
  c_amazon_url : string;
  c_red_flag : bool;
  c_reviews : list review;
  c_lat : option num;
  c_long : option num;
  c_manu_lats : list num;
  c_manu_lngs : list num;
  c_notes : string;
  c_company_contact_info : contact_info
}.

Definition z_string (v : value) : option string :=
  match v with VStr s => Some s | _ => None end.

(** [z.number()]: a number that is not NaN. *)
Definition z_number (v : value) : option num :=
  match v with
  | VNum NaN => None
  | VNum n => Some n
  | _ => None
  end.

(** [.optional()]: [undefined] is accepted and kept. *)
Definition z_optional {A : Type} (f : value -> option A) (v : value)
  : option (option A) :=
  match v with
  | VUndef => Some None
  | _ => option_map (@Some A) (f v)
  end.

Definition companySchema (d : doc) : option company :=
  match z_string (company_name d), z_optional z_string (company_tagline d),
        z_string (headquarters_location d),
        map_opt z_string (manufacturing_locations d),
        z_string (amazon_url d) with
  | Some name, Some tagline, Some hq, Some manu, Some amazon =>
      match z_optional z_number (doc_lat d), z_optional z_number (doc_long d),
            map_opt z_number (manu_lats d), map_opt z_number (manu_lngs d) with
      | Some la, Some lo, Some lats, Some lngs =>
          Some {| c_company_name := name;
                  c_company_tagline := tagline;
                  c_industries := industries d;
                  c_product_keywords := product_keywords d;
                  c_url := url d;
                  c_email_address := email_address d;
                  c_headquarters_location := hq;
                  c_manufacturing_locations := manu;
                  c_amazon_url := amazon;
                  c_red_flag := red_flag d;
                  c_reviews := reviews d;
                  c_lat := la;
                  c_long := lo;
                  c_manu_lats := lats;
                  c_manu_lngs := lngs;
                  c_notes := notes d;
                  c_company_contact_info := company_contact_info d |}
      | _, _, _, _ => None
      end
  | _, _, _, _, _ => None
  end.

Definition schema (l : list doc) : option (list company) := map_opt companySchema l.

(** [z.number().int()]. *)
Definition z_int (v : value) : option num :=
  match z_number v with
  | Some n => if Number_isInteger n then Some n else None
  | None => None
  end.

(** [z.number().int().min(1).max(50)]. *)
Definition z_maxImports (v : value) : option num :=
  match z_int v with
  | Some n => if num_leb (num_of_Z 1) n && num_leb n (num_of_Z 50) then Some n else None
  | None => None
  end.

Definition search_keys : list string :=
  [ "company_name"; "product_keywords"; "industries"; "headquarters_location";
    "manufacturing_locations"; "email_address"; "url"; "amazon_url" ].

(** The [search] object schema: unknown keys are stripped, every declared
    key is an optional string. *)
Fixpoint z_search_fields (keys : list string) (props : list (string * value))
  : option (list (string * value)) :=
  match keys with
  | [] => Some []
  | k :: rest =>
      match lookup k props with
      | None | Some VUndef => z_search_fields rest props
      | Some (VStr s) => option_map (cons (k, VStr s)) (z_search_fields rest props)
      | Some _ => None
      end
  end.

Definition z_search (v : value) : option value :=
  match v with
  | VObj props => option_map VObj (z_search_fields search_keys props)
  | _ => None
  end.

(** What [run] reads from the parsed request. *)
Record request_args : Type := {
  r_maxImports : num;
  r_timeout_ms : option num;
  r_timeoutMs : option num;
  r_search : option value
}.

(** [requestSchema.parse(body)]: [.passthrough()] is the last word on
    unknown keys, so they are kept and never rejected. *)
Definition requestSchema (body : value) : option request_args :=
  match body with
  | VObj props =>
      match z_optional z_maxImports (get body "maxImports"),
            z_optional z_int (get body "timeout_ms"),
            z_optional z_int (get body "timeoutMs"),
            z_optional z_search (get body "search") with
      | Some mi, Some t1, Some t2, Some se =>
          Some {| r_maxImports := match mi with Some n => n | None => num_of_Z 1 end;
                  r_timeout_ms := t1; r_timeoutMs := t2; r_search := se |}
      | _, _, _, _ => None
      end
  | _ => None
  end.

(* ------------------------------------------------------------------ *)
(** ** ENTRY *)

(** The request object of the Functions runtime; [headers] is its plain
    header object. *)
Record request : Type := {
  method : value;
  headers : value;
  req_body : value;
  rawBody : value
}.

Inductive payload : Type :=
| NoBody
| ErrorBody (message : string) (cause : option exn)
| StubBody (maxImports : num) (search : value)
| LiveBody (validated : list company) (status : string)
           (maxImports : num) (search session_id : value).

(** [context.res]: status and the object given to [JSON.stringify]. *)
Record response : Type := { status : nat; body : payload }.

(** [on(v)]. *)
Definition on (v : option string) : bool :=
  let s := toLowerCase (trim (match v with Some s => s | None => "" end)) in
  existsb (String.eqb s) ["1"; "true"; "yes"; "on"].

(** Parse body. *)
Definition read_body (req : request) : value :=
  let body :=
    if negb (truthy (req_body req)) then
      match rawBody req with
      | VStr raw => match JSON_parse P raw with Some v => v | None => req_body req end
      | _ => req_body req
      end
    else req_body req in
  body ||? VObj [].

(** Derive session id.  A [get] entry of the plain header object is a
    string: calling it is a TypeError. *)
Definition derive_sessionId (req : request) (body : value) : option value :=
  if truthy (get body "session_id") then Some (get body "session_id")
  else if truthy (get (headers req) "x-session-id") then Some (get (headers req) "x-session-id")
  else if truthy (get (headers req) "X-Session-Id") then Some (get (headers req) "X-Session-Id")
  else if truthy (get (headers req) "get") then None
  else Some VNull.

(** The [map] literal of the back-compat mapping, read with a computed
    key: besides its own entries the lookup reaches the two lower-case
    names of [Object.prototype], whose values turn into these property
    names. *)
Definition queryType_key (name : string) : option string :=
  if existsb (String.eqb name)
       [ "company_name"; "product_keywords"; "industries"; "headquarters_location";
         "manufacturing_locations"; "email_address"; "url"; "amazon_url" ]
  then Some name
  else if String.eqb name "product_keyword" then Some "product_keywords"
  else if String.eqb name "constructor" then Some "function Object() { [native code] }"
  else if String.eqb name "__proto__" then Some "[object Object]"
  else None.

(** Back-compat mapping; [None] is a TypeError ([String] of the query
    type, or a property written on a primitive [search]).  A property
    written on an array [search] is not kept: the array is rejected by the
    schema with or without it. *)
Definition backcompat (body : value) : option value :=
  match body with
  | VObj props =>
      let props :=
        if is_number (get body "limit") && strict_eq (get body "maxImports") VUndef
        then set_own "maxImports" (get body "limit") props else props in
      if truthy (get body "queryType") && truthy (get body "query") then
        let search := get body "search" ||? VObj [] in
        let props := set_own "search" search props in
        match to_string (get body "queryType") with
        | None => None
        | Some qt =>
            match queryType_key (toLowerCase qt) with
            | None => Some (VObj props)
            | Some key =>
                match search with
                | VObj sprops =>
                    Some (VObj (set_own "search" (VObj (set_own key (get body "query") sprops)) props))
                | VArr _ => Some (VObj props)
                | _ => None
                end
            end
        end
      else Some (VObj props)
  | _ => Some body
  end.

(** Validate + normalize request: the [try] block whose failure is the
    400 answer. *)
Definition validate (body : value) : option (num * value * num) :=
  match requestSchema body with
  | Some parsed =>
      let search := match r_search parsed with Some s => s ||? VObj [] | None => VObj [] end in
      let preferred :=
        match r_timeout_ms parsed with
        | Some t => Some t
        | None => r_timeoutMs parsed
        end in
      let timeoutMs :=
        clampTimeout (VNum (match preferred with Some t => t | None => env_timeout end)) in
      Some (r_maxImports parsed, search, timeoutMs)
  | None => None
  end.

Definition STATUS_COMPLETE : string := "complete".
Definition STATUS_EXHAUSTIVE : string := "exhaustive - review or revise search".

(** The answer to a validated request: the STUB path, or the LIVE call
    followed by the final validation. *)
Definition respond (stubMode : bool) (sessionId : value) (maxImports : num)
           (search : value) (timeoutMs : num) : M response :=
  if stubMode then
    ret {| status := 200; body := StubBody maxImports search |}
  else
    r <- callXAI search (Z.to_nat (num_to_Z maxImports)) (VNum timeoutMs) sessionId ;;
    match schema (fst r) with
    | None => throw ZodError
    | Some validated =>
        let wanted := if truthy (VNum maxImports) then maxImports else num_of_Z 1 in
        let status_ :=
          if num_ltb (num_of_nat (length validated)) wanted
          then STATUS_EXHAUSTIVE else STATUS_COMPLETE in
        ret {| status := 200;
               body := LiveBody validated status_ maxImports search sessionId |}
    end.

Definition run_body (req : request) : M response :=
  let stubMode := on (XAI_STUB env) in
  if strict_eq (method req) (VStr "OPTIONS") then
    ret {| status := 204; body := NoBody |}
  else if negb (strict_eq (method req) (VStr "POST")) then
    ret {| status := 405; body := ErrorBody "Method Not Allowed" None |}
  else
    let body := read_body req in
    sessionId <- lift (derive_sessionId req body) ;;
    body <- lift (backcompat body) ;;
    match validate body with
    | None => ret {| status := 400; body := ErrorBody "Invalid request format: " (Some ZodError) |}
    | Some (maxImports, search, timeoutMs) =>
        respond stubMode sessionId maxImports search timeoutMs
    end.

(** [run(context, req)]: whatever escapes the handler body is the 500
    answer. *)
Definition run (req : request) : M response :=
  try_catch (run_body req)
            (fun e => ret {| status := 500; body := ErrorBody "Server error: " (Some e) |}).

End Handler.

Arguments ret {Wd A} a st.
Arguments bind {Wd A B} m k st.
Arguments throw {Wd A} e st.
Arguments try_catch {Wd A} m h st.
Arguments lift {Wd A} o st.
Arguments call {Wd A} ev f st.
Arguments ask {Wd A} f st.
Arguments http {Wd} ev f st.

Notation "x <- m ;; k" := (bind m (fun x => k))
  (at level 61, m at next level, right associativity).

(* ------------------------------------------------------------------ *)
(** ** A table-driven platform and a scripted world

    Concrete runs need concrete built-ins.  [table_platform] answers
    [JSON.parse], [new URL] and [Number] from the rows of its tables (a text
    that is in no table is rejected, so the tables of a run list every text
    the run accepts), prints integers in decimal, and serialises a URL from
    its components. *)

Record simple_url : Type := {
  u_protocol : string;
  u_hostname : string;
  u_pathname : string;
  u_params : list (string * string);
  u_hash : string
}.

Definition simple_url_toString (u : simple_url) : string :=
  (u_protocol u ++ "//" ++ u_hostname u ++ u_pathname u
   ++ match u_params u with
      | [] => ""
      | ps => "?" ++ join "&" (map (fun kv => fst kv ++ "=" ++ snd kv) ps)
      end
   ++ u_hash u)%string.

Fixpoint assoc {A : Type} (k : string) (l : list (string * A)) : option A :=
  match l with
  | [] => None
  | (k', v) :: rest => if String.eqb k k' then Some v else assoc k rest
  end.

Definition print_num (n : num) : string :=
  match n with
  | NaN => "NaN"
  | PInf => "Infinity"
  | NInf => "-Infinity"
  | Fin q =>
      match Qnum (Qred q) with
      | Z0 => "0"
      | Zpos p => nat_to_string (Pos.to_nat p)
      | Zneg p => "-" ++ nat_to_string (Pos.to_nat p)
      end
  end.

Definition table_platform (json : list (string * value))
           (urls : list (string * simple_url)) (numbers : list (string * num))
  : Platform :=
  {| num_to_string := print_num;
     string_to_num := fun s => match assoc s numbers with Some n => n | None => NaN end;
     JSON_parse := fun s => assoc s json;
     URL := simple_url;
     URL_new := fun s => assoc s urls;
     URL_protocol := u_protocol;
     URL_hostname := u_hostname;
     URL_searchParams := u_params;
     URL_update := fun u ps =>
       {| u_protocol := u_protocol u; u_hostname := u_hostname u;
          u_pathname := u_pathname u; u_params := ps; u_hash := u_hash u |};
     URL_toString := simple_url_toString |}.

(** A world that answers the completion calls from a script, geocodes by
    a fixed function, accepts every upsert and numbers its identifiers. *)
Definition scripted_world (geo : value -> http_result) : World :=
  {| W := list http_result * nat;
     geocode_get := fun loc _ w => (geo loc, w);
     xai_post := fun _ w =>
       match fst w with
       | [] => (HttpFails, w)
       | r :: rest => (r, (rest, snd w))
       end;
     cosmos_connect := fun w => (true, w);
     cosmos_upsert := fun _ w => (true, w);
     fresh_id := fun w => (nat_to_string (snd w), (fst w, S (snd w)));
     now_iso := fun w => ("2025-01-01T00:00:00.000Z", w) |}.

(** JSON texts are written with apostrophes for the double quotes. *)
Fixpoint json_text (s : string) : string :=
  match s with
  | EmptyString => EmptyString
  | String c s' =>
      String (if Ascii.eqb c "'"%char then "034"%char else c) (json_text s')
  end.

Definition no_env : environment :=
  {| XAI_API_KEY := None; XAI_MODEL := None; XAI_TIMEOUT_MS := None;
     XAI_STUB := None; GOOGLE_GEOCODING_API_KEY := None |}.

Definition live_env : environment :=
  {| XAI_API_KEY := Some "key"; XAI_MODEL := None; XAI_TIMEOUT_MS := None;
     XAI_STUB := None; GOOGLE_GEOCODING_API_KEY := Some "geo" |}.

Definition chat (content : string) : http_result :=
  HttpData (VObj [("choices", VArr [VObj [("message", VObj [("content", VStr content)])]])]).

(* ================================================================== *)
(** * Vocabulary of the properties *)

(** [emits Q m]: whatever the state, [m] only appends events, and every
    appended event satisfies [Q]. *)
Definition emits {Wd : World} {A : Type} (Q : event -> Prop) (m : M Wd A) : Prop :=
  forall st, exists evs, trace (snd (m st)) = trace st ++ evs /\ Forall Q evs.

Definition in_timeout_range (n : num) : Prop :=
  exists q, n = Fin q /\ (inject_Z 10000 <= q)%Q /\ (q <= inject_Z 3600000)%Q.

Definition no_caller_timeout (P : Platform) (req : request) : Prop :=
  get (read_body P req) "timeout_ms" = VUndef
  /\ get (read_body P req) "timeoutMs" = VUndef.

(** The timeout a request asks for: [timeout_ms], or else [timeoutMs], or
    else the configured default. *)
Definition requested_timeout (P : Platform) (env : environment) (req : request) : num :=
  match get (read_body P req) "timeout_ms" with
  | VNum n => n
  | _ =>
      match get (read_body P req) "timeoutMs" with
      | VNum n => n
      | _ => env_timeout P env
      end
  end.

(** A request that asks for twenty seconds. *)
Definition twenty_seconds : value := VObj [("timeout_ms", VNum (num_of_Z 20000))].

(* ------------------------------------------------------------------ *)
(** ** Data of the concrete runs *)

Definition empty_platform : Platform := table_platform [] [] [].
Definition silent_world : World := scripted_world (fun _ => HttpFails).

Definition post (body : value) : request :=
  {| method := VStr "POST"; headers := VObj []; req_body := body; rawBody := VUndef |}.

(** The initial state of a scripted world: the answers of the completion
    provider, page by page, and an empty trace. *)
Definition script (geo : value -> http_result) (answers : list http_result)
  : state (scripted_world geo) :=
  @Build_state (scripted_world geo) (answers, 0) [].

Definition silence (answers : list http_result) : state silent_world :=
  script (fun _ => HttpFails) answers.

Definition acme_url : simple_url :=
  {| u_protocol := "https:"; u_hostname := "acme.com"; u_pathname := "/";
     u_params := []; u_hash := "" |}.

Definition amazon_store : simple_url :=
  {| u_protocol := "https:"; u_hostname := "www.amazon.com"; u_pathname := "/dp/B0";
     u_params := []; u_hash := "" |}.

Definition amazon_tagged : simple_url :=
  {| u_protocol := "https:"; u_hostname := "www.amazon.com"; u_pathname := "/dp/B0";
     u_params := [("ref", "x"); ("tag", "other-20")]; u_hash := "" |}.

(** The rows of [new URL] the concrete runs rely on. *)
Definition url_table : list (string * simple_url) :=
  [ ("https://acme.com", acme_url);
    ("https://www.amazon.com/dp/B0", amazon_store);
    ("https://www.amazon.com/dp/B0?ref=x&tag=other-20", amazon_tagged) ].

Definition url_platform : Platform := table_platform [] url_table [].

(** The pairs named [k] in a parameter list. *)
Definition named (k : string) (l : list (string * string)) : list (string * string) :=
  filter (fun p => String.eqb (fst p) k) l.

(** The white space of the JSON grammar. *)
Definition json_ws (c : ascii) : bool :=
  let n := code c in (n =? 9) || (n =? 10) || (n =? 13) || (n =? 32).

(** Two facts of [JSON.parse] the extractor relies on: a text that parses
    still parses, to the same value, once trimmed; and a text that parses to
    an array is an array literal between JSON white space. *)
Definition JSON_parse_laws (P : Platform) : Prop :=
  (forall s v, JSON_parse P s = Some v -> JSON_parse P (trim s) = Some v)
  /\ (forall s l, JSON_parse P s = Some (VArr l) ->
        exists w1 body w2,
          s = (w1 ++ "[" ++ body ++ "]" ++ w2)%string
          /\ all_chars json_ws w1 = true /\ all_chars json_ws w2 = true).

Definition acme_text : string :=
  json_text "[{'company_name':'Acme','url':'https://acme.com'}]".

Definition acme_fragment : value :=
  VObj [("company_name", VStr "Acme"); ("url", VStr "https://acme.com")].

Definition acme_platform : Platform :=
  table_platform [(acme_text, VArr [acme_fragment])] url_table [].

(** An array whose only string holds a fence. *)
Definition ticks_text : string := json_text "['a```b']".

Definition ticks_platform : Platform :=
  table_platform [(ticks_text, VArr [VStr "a```b"])] [] [].

(** [yields Post m]: whenever [m] returns, the value satisfies [Post]. *)
Definition yields {Wd : World} {A : Type} (Post : A -> Prop) (m : M Wd A) : Prop :=
  forall st, match fst (m st) with Ok a => Post a | Throw _ => True end.

(** [returns m]: [m] returns a value in every state; it never raises. *)
Definition returns {Wd : World} {A : Type} (m : M Wd A) : Prop :=
  forall st, exists a st', m st = (Ok a, st').

(** The coordinate lists of a record run parallel to its locations. *)
Definition aligned (d : doc) : Prop :=
  length (manu_lats d) = length (manufacturing_locations d)
  /\ length (manu_lngs d) = length (manufacturing_locations d).

Definition all_zero (l : list value) : Prop := Forall (fun v => v = zero) l.

(** No geocoding lookup succeeds. *)
Definition geocoding_down (Wd : World) : Prop :=
  forall loc key w, fst (geocode_get Wd loc key w) = HttpFails.

(** The geocoding provider answers by the location alone. *)
Definition geocoding_fixed (Wd : World) : Prop :=
  forall loc key w w', fst (geocode_get Wd loc key w) = fst (geocode_get Wd loc key w').

(** A record without its generated fields. *)
Definition without_fresh (d : doc) : doc :=
  {| company_name := company_name d;
     company_tagline := company_tagline d;
     industries := industries d;
     product_keywords := product_keywords d;
     url := url d;
     email_address := email_address d;
     headquarters_location := headquarters_location d;
     manufacturing_locations := manufacturing_locations d;
     amazon_url := amazon_url d;
     red_flag := red_flag d;
     hq_lat := hq_lat d; hq_lng := hq_lng d;
     doc_lat := doc_lat d; doc_long := doc_long d;
     manu_lats := manu_lats d; manu_lngs := manu_lngs d;
     reviews := reviews d;
     notes := notes d;
     company_contact_info := company_contact_info d;
     id := "";
     session_id := session_id d;
     created_at := "";
     normalized_domain := normalized_domain d |}.

(** Two runs of the normaliser agree: both raise, or both return records
    equal in every field but [id] and [created_at]. *)
Definition agree (r1 r2 : result doc) : Prop :=
  match r1, r2 with
  | Ok d1, Ok d2 => without_fresh d1 = without_fresh d2
  | Throw _, Throw _ => True
  | _, _ => False
  end.

(** A list built page by page: the records a page adds have a key no
    record of an earlier page has.  [Chunk] is what is known of the
    records of one page. *)
Inductive accumulated (Chunk : list doc -> Prop) : list doc -> Prop :=
| acc_nil : accumulated Chunk []
| acc_page (all page_docs : list doc) :
    accumulated Chunk all ->
    Chunk page_docs ->
    (forall e c, In e all -> In c page_docs -> same_key e c = false) ->
    accumulated Chunk (all ++ page_docs).

(** The records of one page: the fragments of an answer the completion
    provider gave, normalised by [clean_page] from the state the answer
    left. *)
Definition page_records (P : Platform) (Wd : World) (env : environment)
           (sessionId : value) (clean : list doc) : Prop :=
  exists rq w w' data parsed fragments connected tr r st',
    xai_post Wd rq w = (HttpData data, w')
    /\ trimToArrayJson P (get (get (get0 (get data "choices")) "message") "content"
                          ||? VStr "") = Some parsed
    /\ companies parsed = Some (VArr fragments)
    /\ clean_page P env sessionId fragments connected [] (@Build_state Wd w' tr)
       = (Ok r, st')
    /\ snd r = clean.

(** The result list as the loop builds it: it starts empty, and a page
    adds, in their order, exactly those of its records whose key no record
    collected from the pages before has.  The records of the page itself
    are not compared with each other. *)
Inductive collected (P : Platform) (Wd : World) (env : environment)
          (sessionId : value) : list doc -> Prop :=
| collected_nil : collected P Wd env sessionId []
| collected_page (all clean : list doc) :
    collected P Wd env sessionId all ->
    page_records P Wd env sessionId clean ->
    collected P Wd env sessionId
              (all ++ filter (fun c => negb (existsb (fun e => same_key e c) all)) clean).

(** The accumulated list a step of the loop hands on. *)
Definition step_list (s : step) : list doc :=
  match s with
  | Break a _ => a
  | Next a _ _ => a
  end.

(** Every completion answer holds at most one fragment, as the prompt
    asks. *)
Definition one_per_page (P : Platform) (Wd : World) : Prop :=
  forall rq w data parsed l,
    fst (xai_post Wd rq w) = HttpData data ->
    trimToArrayJson P (get (get (get0 (get data "choices")) "message") "content"
                       ||? VStr "") = Some parsed ->
    companies parsed = Some (VArr l) ->
    length l <= 1.

(** No two positions of the list hold records with the same key. *)
Definition distinct_keys (all : list doc) : Prop :=
  forall i j e c, i < j -> nth_error all i = Some e -> nth_error all j = Some c ->
                  same_key e c = false.

(** What C2 says of one record, in a given world. *)
Definition coordinates_ok (Wd : World) (d : doc) : Prop :=
  aligned d
  /\ (geocoding_down Wd -> all_zero (manu_lats d) /\ all_zero (manu_lngs d)).

Definition forge_text : string :=
  json_text "[{'company_name':'Forge','manufacturing_locations':['Austin, TX','Reno, NV']}]".

Definition forge_fragment : value :=
  VObj [("company_name", VStr "Forge");
        ("manufacturing_locations", VArr [VStr "Austin, TX"; VStr "Reno, NV"])].

Definition forge_platform : Platform :=
  table_platform [(forge_text, VArr [forge_fragment])] url_table [].

(** A geocoder that places every location at (30, -97). *)
Definition austin (location : value) : http_result :=
  HttpData (VObj [("results",
    VArr [VObj [("geometry",
      VObj [("location", VObj [("lat", VNum (num_of_Z 30));
                               ("lng", VNum (num_of_Z (-97)))])])]])]).

(** One answer holding the same company twice. *)
Definition twin_text : string :=
  json_text "[{'company_name':'Acme','url':'https://acme.com'},{'company_name':'Acme','url':'https://acme.com'}]".

Definition twin_platform : Platform :=
  table_platform [(twin_text, VArr [acme_fragment; acme_fragment])] url_table [].

Definition at_most_one {A : Type} (l : list A) : Prop := length l <= 1.

(* ------------------------------------------------------------------ *)
(** ** The documented request body

    The request body as the interface description words it:
    [maxImports?: int[1,50]], [timeout_ms?|timeoutMs?: int],
    [search?: { ... : string }].  A field that is present has the
    documented type; nothing is said of any other field. *)

Definition is_int (v : value) : bool :=
  match v with
  | VNum (Fin q) => Pos.eqb (Qden (Qred q)) 1
  | _ => false
  end.

Definition is_int_1_50 (v : value) : bool :=
  match v with
  | VNum (Fin q) =>
      Pos.eqb (Qden (Qred q)) 1 && Qle_bool (inject_Z 1) q && Qle_bool q (inject_Z 50)
  | _ => false
  end.

Definition field_ok (ty : value -> bool) (k : string) (props : list (string * value))
  : bool :=
  match lookup k props with
  | None => true
  | Some v => ty v
  end.

Definition is_search (v : value) : bool :=
  match v with
  | VObj sprops => forallb (fun k => field_ok is_string k sprops) search_keys
  | _ => false
  end.

Definition documented_request (props : list (string * value)) : bool :=
  field_ok is_int_1_50 "maxImports" props
  && field_ok is_int "timeout_ms" props
  && field_ok is_int "timeoutMs" props
  && field_ok is_search "search" props.

(** The legacy aliases [limit] and [queryType]+[query] are not in play. *)
Definition no_legacy (body : value) : bool :=
  negb (is_number (get body "limit") && strict_eq (get body "maxImports") VUndef)
  && negb (truthy (get body "queryType") && truthy (get body "query")).

(** [maxImports] as the answer reports it under [meta.received]. *)
Definition received_maxImports (p : payload) : option num :=
  match p with
  | StubBody m _ => Some m
  | LiveBody _ _ m _ _ => Some m
  | _ => None
  end.

(** The steps of [run] before validation complete without raising. *)
Definition preamble_completes (P : Platform) (req : request) : Prop :=
  derive_sessionId req (read_body P req) <> None
  /\ backcompat P (read_body P req) <> None.

Definition stub_env : environment :=
  {| XAI_API_KEY := None; XAI_MODEL := None; XAI_TIMEOUT_MS := None;
     XAI_STUB := Some "1"; GOOGLE_GEOCODING_API_KEY := None |}.

Definition zero_imports : value := VObj [("maxImports", VNum (num_of_Z 0))].
Definition legacy_limit : value := VObj [("limit", VNum (num_of_Z 7))].

(** A request with a primitive [search] next to the legacy query pair. *)
Definition broken_search : value :=
  VObj [("maxImports", VNum (num_of_Z 0)); ("queryType", VStr "url");
        ("query", VStr "x"); ("search", VStr "abc")].

(** A documented request among unknown fields. *)
Definition crowded : list (string * value) :=
  [ ("utm_source", VStr "mail"); ("maxImports", VNum (num_of_Z 3));
    ("search", VObj [("company_name", VStr "Acme"); ("page", VNum (num_of_Z 2))]);
    ("debug", VBool true); ("nested", VObj [("a", VArr [VNull])]) ].

(* ================================================================== *)
(** * Vocabulary of the further properties *)

(** The language of [/^[^\s@]+@[^\s@]+\.[^\s@]+$/], spelled out: a local
    part, an at sign, and a domain with a dot inside, none of them empty and
    none holding white space or another at sign. *)
Definition email_shape (s : string) : Prop :=
  exists l b c,
    s = (l ++ "@" ++ b ++ "." ++ c)%string
    /\ l <> "" /\ b <> "" /\ c <> ""
    /\ all_chars email_char l = true
    /\ all_chars email_char b = true
    /\ all_chars email_char c = true.

(** An entry as [normalizeIndustries] leaves it. *)
Definition clean_entry (x : string) : Prop := x <> "" /\ trim x = x.

(** A review as [coerceReviews] leaves it. *)
Definition sound_review (P : Platform) (r : review) : Prop :=
  text r <> "" /\ forall l, link r = Some l -> isValidUrl P l = true.

(** A contact object as [sanitizeContactInfo] leaves it. *)
Definition sound_contact (P : Platform) (c : contact_info) : Prop :=
  (forall u, contact_page_url c = Some u -> isValidUrl P u = true /\ trim u = u)
  /\ (forall e, contact_email c = Some e -> isValidEmail e = true /\ trim e = e).

Definition sample_reviews : value :=
  VArr [ VStr "great";
         VObj [("text", VStr " ok "); ("link", VStr "https://acme.com")];
         VObj [("text", VStr "fine"); ("link", VStr "not a url")];
         VObj [("link", VStr "https://acme.com")];
         VNum (num_of_Z 3) ].

Definition sample_contact : value :=
  VObj [("contact_page_url", VStr " https://acme.com ");
        ("contact_email", VStr "sales@acme")].

(** The completion requests among the events of a trace, in order. *)
Fixpoint model_requests (evs : list event) : list xai_request :=
  match evs with
  | [] => []
  | EvModel rq :: rest => rq :: model_requests rest
  | _ :: rest => model_requests rest
  end.

Definition is_model_event (ev : event) : bool :=
  match ev with EvModel _ => true | _ => false end.
Definition is_connect_event (ev : event) : bool :=
  match ev with EvConnect => true | _ => false end.
Definition is_upsert_event (ev : event) : bool :=
  match ev with EvUpsert _ => true | _ => false end.

(** [does R m]: whatever the state, [m] only appends events, and the
    appended events and the outcome are related by [R]. *)
Definition does {Wd : World} {A : Type} (R : list event -> result A -> Prop)
           (m : M Wd A) : Prop :=
  forall st, exists evs, trace (snd (m st)) = trace st ++ evs /\ R evs (fst (m st)).

(** The request of page [page] in a run of [callXAI]. *)
Definition page_request (bearer model : string) (timeout : num) (prompt : string)
           (page : nat) : xai_request :=
  {| rq_bearer := bearer; rq_timeout := timeout; rq_model := model;
     rq_content := (prompt ++ " Return result " ++ nat_to_string page ++ ".")%string |}.

(** The completion provider answers no call. *)
Definition provider_down (Wd : World) : Prop :=
  forall rq w, fst (xai_post Wd rq w) = HttpFails.

(** The document store never hands out a container. *)
Definition store_down (Wd : World) : Prop :=
  forall w, fst (cosmos_connect Wd w) = false.

(** The statuses [run] answers with. *)
Definition known_status (n : nat) : Prop :=
  n = 200 \/ n = 204 \/ n = 400 \/ n = 405 \/ n = 500.

(** The coordinate lists of a validated record run parallel to its
    locations. *)
Definition aligned_company (c : company) : Prop :=
  length (c_manu_lats c) = length (c_manufacturing_locations c)
  /\ length (c_manu_lngs c) = length (c_manufacturing_locations c).

Definition not_char (a c : ascii) : bool := negb (Ascii.eqb a c).

(** An answer in prose around the array. *)
Definition prose_text : string :=
  ("Here is the company you asked for: " ++ acme_text ++ " Let me know.")%string.

(** The model [callXAI] names in its requests. *)
Definition model_of (env : environment) : string :=
  match XAI_MODEL env with
  | Some m => if str_nonempty m then m else "grok-4-latest"
  | None => "grok-4-latest"
  end.

(** A world in which no service answers. *)
Definition offline_world : World :=
  {| W := unit;
     geocode_get := fun _ _ w => (HttpFails, w);
     xai_post := fun _ w => (HttpFails, w);
     cosmos_connect := fun w => (false, w);
     cosmos_upsert := fun _ w => (false, w);
     fresh_id := fun w => ("0", w);
     now_iso := fun w => ("2025-01-01T00:00:00.000Z", w) |}.

Definition offline : state offline_world := @Build_state offline_world tt [].

(** The scripted world without a document store. *)
Definition storeless_world : World :=
  {| W := list http_result * nat;
     geocode_get := fun _ _ w => (HttpFails, w);
     xai_post := fun _ w =>
       match fst w with
       | [] => (HttpFails, w)
       | r :: rest => (r, (rest, snd w))
       end;
     cosmos_connect := fun w => (false, w);
     cosmos_upsert := fun _ w => (false, w);
     fresh_id := fun w => (nat_to_string (snd w), (fst w, S (snd w)));
     now_iso := fun w => ("2025-01-01T00:00:00.000Z", w) |}.

Definition storeless (answers : list http_result) : state storeless_world :=
  @Build_state storeless_world (answers, 0) [].

(** What the field helpers guarantee, read off a whole record. *)
Record tidy (P : Platform) (sessionId : value) (d : doc) : Prop := {
  tidy_name : truthy (company_name d) = true;
  tidy_hq : truthy (headquarters_location d) = true;
  tidy_industries : NoDup (industries d) /\ Forall clean_entry (industries d);
  tidy_url : trim (url d) = url d;
  tidy_email : trim (email_address d) = email_address d;
  tidy_notes : trim (notes d) = notes d;
  tidy_reviews : Forall (sound_review P) (reviews d);
  tidy_contact : sound_contact P (company_contact_info d);
  tidy_domain : normalized_domain d = toNormalizedDomain P (url d);
  tidy_geo : doc_lat d = hq_lat d /\ doc_long d = hq_lng d;
  tidy_session : session_id d = sessionId ||? VNull
}.

Definition tidy_text : string :=
  json_text "[{'name':'Acme','industries':'Tools; Tools ,Hardware','website':' https://acme.com ','reviews':'great'}]".

Definition tidy_fragment : value :=
  VObj [("name", VStr "Acme"); ("industries", VStr "Tools; Tools ,Hardware");
        ("website", VStr " https://acme.com "); ("reviews", VStr "great")].

Definition tidy_platform : Platform :=
  table_platform [(tidy_text, VArr [tidy_fragment])] url_table [].

(** Every completion answer holds at most [k] fragments. *)
Definition fragments_per_page (P : Platform) (Wd : World) (k : nat) : Prop :=
  forall rq w data parsed l,
    fst (xai_post Wd rq w) = HttpData data ->
    trimToArrayJson P (get (get (get0 (get data "choices")) "message") "content"
                       ||? VStr "") = Some parsed ->
    companies parsed = Some (VArr l) ->
    length l <= k.

(** The size of a list collected under the limit [maxImports] from answers
    of at most [k] fragments. *)
Definition within_cap (maxImports k : nat) (all : list doc) : Prop :=
  all = [] \/ (1 <= maxImports /\ length all <= maxImports - 1 + k).

(** The records upserted in a trace, in order, and the number of
    connections to the store it asks for. *)
Fixpoint upserted (evs : list event) : list doc :=
  match evs with
  | [] => []
  | EvUpsert d :: rest => d :: upserted rest
  | _ :: rest => upserted rest
  end.

Fixpoint connects (evs : list event) : nat :=
  match evs with
  | [] => 0
  | EvConnect :: rest => S (connects rest)
  | _ :: rest => connects rest
  end.

(** The document store hands out a container whenever asked. *)
Definition store_up (Wd : World) : Prop :=
  forall w, fst (cosmos_connect Wd w) = true.

(** Connections still to be made: one until a container is held. *)
Definition to_connect (connected : bool) : nat := if connected then 0 else 1.

Definition step_flag (s : step) : bool :=
  match s with
  | Break _ _ => true
  | Next _ _ c => c
  end.

Definition no_store_event (ev : event) : Prop :=
  is_upsert_event ev = false /\ is_connect_event ev = false.

(** A request with a search object that says more than the schema knows. *)
Definition chatty_search : value :=
  VObj [("maxImports", VNum (num_of_Z 2));
        ("search", VObj [("industries", VStr "tools"); ("colour", VNum (num_of_Z 7));
                         ("url", VUndef)])].

(** A request of the older interface next to a search object. *)
Definition legacy_query : list (string * value) :=
  [("queryType", VStr "Product_Keyword"); ("query", VStr "drills");
   ("search", VObj [("product_keywords", VStr "saws"); ("url", VStr "acme.com")])].

(** The debug list of an import: empty, or the one entry of the answer
    that ended the loop. *)
Definition debug_ok (maxImports : nat) (debug : list debug_entry) : Prop :=
  debug = []
  \/ exists e, debug = [e]
               /\ dbg_note e = "no-companies-from-model"
               /\ 1 <= dbg_page e <= maxImports
               /\ String.length (dbg_preview e) <= 140.

(** An answer whose company has a number for a name. *)
Definition numbered_text : string := json_text "[{'company_name':5}]".

Definition numbered_platform : Platform :=
  table_platform [(numbered_text, VArr [VObj [("company_name", VNum (num_of_Z 5))]])]
                 url_table [].

(* ================================================================== *)
(** * Properties *)

(* ------------------------------------------------------------------ *)
(** ** What a computation adds to the trace *)

Section Traces.

Variable Wd : World.


Lemma emits_ret {A : Type} (Q : event -> Prop) (a : A) :
  emits Q (ret (Wd := Wd) a).
Proof. intro st. exists []. simpl. rewrite app_nil_r. auto. Qed.

Lemma emits_throw {A : Type} (Q : event -> Prop) (e : exn) :
  emits Q (throw (Wd := Wd) (A := A) e).
Proof. intro st. exists []. simpl. rewrite app_nil_r. auto. Qed.

Lemma emits_lift {A : Type} (Q : event -> Prop) (o : option A) :
  emits Q (lift (Wd := Wd) o).
Proof. destruct o; [apply emits_ret | apply emits_throw]. Qed.

Lemma emits_bind {A B : Type} (Q : event -> Prop) (m : M Wd A) (k : A -> M Wd B) :
  emits Q m -> (forall a, emits Q (k a)) -> emits Q (bind m k).
Proof.
  intros Hm Hk st. unfold bind.
  destruct (Hm st) as (e1 & E1 & F1).
  destruct (m st) as [[a | e] st'] eqn:Em; simpl in *.
  - destruct (Hk a st') as (e2 & E2 & F2).
    exists (e1 ++ e2). rewrite E2, E1, app_assoc. split; [reflexivity|].
    apply Forall_app; auto.
  - exists e1; auto.
Qed.

Lemma emits_try {A : Type} (Q : event -> Prop) (m : M Wd A) (h : exn -> M Wd A) :
  emits Q m -> (forall e, emits Q (h e)) -> emits Q (try_catch m h).
Proof.
  intros Hm Hh st. unfold try_catch.
  destruct (Hm st) as (e1 & E1 & F1).
  destruct (m st) as [[a | e] st'] eqn:Em; simpl in *.
  - exists e1; auto.
  - destruct (Hh e st') as (e2 & E2 & F2).
    exists (e1 ++ e2). rewrite E2, E1, app_assoc. split; [reflexivity|].
    apply Forall_app; auto.
Qed.

Lemma emits_call {A : Type} (Q : event -> Prop) (ev : event) (f : W Wd -> A * W Wd) :
  Q ev -> emits Q (call ev f).
Proof.
  intros Hq st. unfold call. destruct (f (world st)). exists [ev]. simpl. auto.
Qed.

Lemma emits_ask {A : Type} (Q : event -> Prop) (f : W Wd -> A * W Wd) :
  emits Q (ask f).
Proof.
  intro st. unfold ask. destruct (f (world st)). exists []. simpl.
  rewrite app_nil_r. auto.
Qed.

Lemma emits_http (Q : event -> Prop) (ev : event) (f : W Wd -> http_result * W Wd) :
  Q ev -> emits Q (http ev f).
Proof.
  intro Hq. unfold http. apply emits_bind; [apply emits_call; assumption|].
  intros []; [apply emits_throw | apply emits_ret].
Qed.

(** Under [lift o] the continuation runs on the value of [o] only. *)
Lemma emits_bind_lift {A B : Type} (Q : event -> Prop) (o : option A) (k : A -> M Wd B) :
  (forall a, o = Some a -> emits Q (k a)) -> emits Q (bind (lift o) k).
Proof.
  intro Hk. destruct o as [a|].
  - intro st. unfold bind, lift, ret. apply Hk. reflexivity.
  - intro st. exists []. simpl. rewrite app_nil_r. auto.
Qed.

Lemma emits_weaken {A : Type} (Q Q' : event -> Prop) (m : M Wd A) :
  (forall ev, Q ev -> Q' ev) -> emits Q m -> emits Q' m.
Proof.
  intros Himp Hm st. destruct (Hm st) as (evs & E & F).
  exists evs. split; [assumption|]. eapply Forall_impl; eauto.
Qed.

(** A computation that emits nothing leaves the trace as it found it. *)
Lemma emits_nothing {A : Type} (m : M Wd A) :
  emits (fun _ => False) m -> forall st, trace (snd (m st)) = trace st.
Proof.
  intros Hm st. destruct (Hm st) as (evs & E & F).
  destruct evs as [|ev evs]; [now rewrite E, app_nil_r|].
  inversion F; contradiction.
Qed.

End Traces.

Ltac emits_step :=
  first [ apply emits_ret | apply emits_throw | apply emits_lift | apply emits_ask
        | apply emits_bind; [| intro]
        | apply emits_try; [| intro] ].

(* ------------------------------------------------------------------ *)
(** ** The timeout of the completion call *)


Lemma Qltb_true (p q : Q) : Qltb p q = true -> (p < q)%Q.
Proof.
  unfold Qltb. intro H. apply negb_true_iff in H.
  apply Qnot_le_lt. intro Hle. apply Qle_bool_iff in Hle. congruence.
Qed.

(** The value of [clampTimeout]: one of its three constants, or a number
    strictly between the bounds. *)
Lemma clampTimeout_cases (ms : value) :
  clampTimeout ms = TIMEOUT_DEFAULT \/ clampTimeout ms = TIMEOUT_MIN
  \/ clampTimeout ms = TIMEOUT_MAX
  \/ exists q, ms = VNum (Fin q) /\ clampTimeout ms = Fin q
               /\ (inject_Z 10000 < q)%Q /\ (q < inject_Z 3600000)%Q.
Proof.
  destruct ms as [| | b | n | s | l | o]; try (left; reflexivity).
  destruct n as [| | | q]; try (left; reflexivity).
  unfold clampTimeout. simpl negb. cbv iota.
  unfold Math_max, TIMEOUT_MIN, num_of_Z. simpl num_ltb.
  destruct (Qltb (inject_Z 10000) q) eqn:Hlo.
  - unfold Math_min, TIMEOUT_MAX, num_of_Z. simpl num_ltb.
    destruct (Qltb q (inject_Z 3600000)) eqn:Hhi.
    + right; right; right. exists q. repeat split; auto using Qltb_true.
    + right; right; left. reflexivity.
  - right; left. reflexivity.
Qed.

Lemma clampTimeout_in_range (ms : value) : in_timeout_range (clampTimeout ms).
Proof.
  destruct (clampTimeout_cases ms) as [H | [H | [H | (q & _ & H & Hlo & Hhi)]]];
    rewrite H.
  - exists (inject_Z 300000). split; [reflexivity|]. split; discriminate.
  - exists (inject_Z 10000). split; [reflexivity|]. split; discriminate.
  - exists (inject_Z 3600000). split; [reflexivity|]. split; discriminate.
  - exists q. split; [reflexivity|]. split; apply Qlt_le_weak; assumption.
Qed.

Lemma Qltb_intro (p q : Q) : (p < q)%Q -> Qltb p q = true.
Proof.
  intro H. unfold Qltb. apply negb_true_iff.
  destruct (Qle_bool q p) eqn:E; [|reflexivity].
  apply Qle_bool_iff in E. exfalso. eapply Qlt_not_le; eauto.
Qed.

(** Clamping a clamped timeout changes nothing: [callXAI] clamps again what
    [run] has clamped. *)
Lemma clampTimeout_idempotent (ms : value) :
  clampTimeout (VNum (clampTimeout ms)) = clampTimeout ms.
Proof.
  destruct (clampTimeout_cases ms) as [H | [H | [H | (q & _ & H & Hlo & Hhi)]]];
    rewrite H; try reflexivity.
  unfold clampTimeout. simpl negb. cbv iota.
  unfold Math_max, TIMEOUT_MIN, num_of_Z. simpl num_ltb.
  rewrite (Qltb_intro Hlo).
  unfold Math_min, TIMEOUT_MAX, num_of_Z. simpl num_ltb.
  rewrite (Qltb_intro Hhi). reflexivity.
Qed.

Section Emissions.

Variable P : Platform.
Variable Wd : World.
Variable env : environment.
Variable Q : event -> Prop.
Hypothesis Q_geocode : forall loc, Q (EvGeocode loc).
Hypothesis Q_connect : Q EvConnect.
Hypothesis Q_upsert : forall d, Q (EvUpsert d).

Lemma geocodeLocation_emits (location : value) :
  emits Q (geocodeLocation P (Wd := Wd) env location).
Proof using Q_geocode.
  unfold geocodeLocation.
  destruct (GOOGLE_GEOCODING_API_KEY env) as [key|]; [|apply emits_ret].
  destruct (negb (str_nonempty key) || negb (truthy location)); [apply emits_ret|].
  apply emits_try; [|intro; apply emits_ret].
  apply emits_bind; [apply emits_lift | intro].
  apply emits_bind; [apply emits_http, Q_geocode | intro; apply emits_ret].
Qed.

Lemma geocode_all_emits (locs : list value) :
  emits Q (geocode_all P (Wd := Wd) env locs).
Proof using Q_geocode.
  induction locs as [|loc rest IH]; simpl; [apply emits_ret|].
  apply emits_bind; [apply geocodeLocation_emits | intro].
  apply emits_bind; [exact IH | intro; apply emits_ret].
Qed.

Lemma normalize_emits (sessionId company : value) :
  emits Q (normalize P (Wd := Wd) env sessionId company).
Proof using Q_geocode.
  unfold normalize.
  apply emits_bind; [apply geocodeLocation_emits | intro].
  apply emits_bind; [apply geocode_all_emits | intro].
  repeat emits_step.
Qed.

Lemma stream_emits (d : doc) (connected : bool) :
  emits Q (stream (Wd := Wd) d connected).
Proof using Q_connect Q_upsert.
  unfold stream, getCosmosContainer.
  apply emits_bind.
  - destruct connected; [apply emits_ret | apply emits_call, Q_connect].
  - intros []; [|apply emits_ret].
    apply emits_bind; [apply emits_call, Q_upsert | intro; apply emits_ret].
Qed.

Lemma clean_page_emits (sessionId : value) (fragments : list value) :
  forall connected clean,
    emits Q (clean_page P (Wd := Wd) env sessionId fragments connected clean).
Proof using Q_geocode Q_connect Q_upsert.
  induction fragments as [|company rest IH]; intros; simpl; [apply emits_ret|].
  apply emits_bind; [|intro; apply IH].
  destruct (negb (is_object company)); [apply emits_ret|].
  apply emits_try; [|intro; apply emits_ret].
  apply emits_bind; [apply normalize_emits | intro].
  apply emits_bind; [apply stream_emits | intro; apply emits_ret].
Qed.

Variable timeout : num.
Hypothesis Q_model : forall rq, rq_timeout rq = timeout -> Q (EvModel rq).

Lemma page_body_emits search sessionId bearer model page all debug connected :
  emits Q (page_body P (Wd := Wd) env search sessionId bearer model timeout
                     page all debug connected).
Proof using Q_geocode Q_connect Q_upsert Q_model.
  unfold page_body.
  apply emits_bind; [apply emits_lift | intro prompt].
  apply emits_bind; [apply emits_http, Q_model; reflexivity | intro data].
  apply emits_bind; [apply emits_lift | intro parsed].
  destruct (companies parsed) as [[| | | | | [|f fs] |]|];
    try (apply emits_bind; [apply emits_lift | intro; apply emits_ret]).
  apply emits_bind; [apply clean_page_emits | intro r].
  destruct (novel all (snd r)); apply emits_ret.
Qed.

Lemma pages_emits search maxImports sessionId bearer model fuel :
  forall page all debug connected,
    emits Q (pages P (Wd := Wd) env search maxImports sessionId bearer model timeout
                   fuel page all debug connected).
Proof using Q_geocode Q_connect Q_upsert Q_model.
  induction fuel as [|fuel IH]; intros; simpl;
    destruct ((page <=? maxImports) && (length all <? maxImports));
    try apply emits_ret.
  apply emits_bind.
  - apply emits_try; [apply page_body_emits | intro; apply emits_ret].
  - intros [a d | a d c]; [apply emits_ret | apply IH].
Qed.

End Emissions.

Lemma callXAI_emits (P : Platform) (Wd : World) (env : environment)
      (Q : event -> Prop) (search : value) (maxImports : nat) (t : num) (sessionId : value) :
  (forall loc, Q (EvGeocode loc)) -> Q EvConnect -> (forall d, Q (EvUpsert d)) ->
  (forall rq, rq_timeout rq = clampTimeout (VNum t) -> Q (EvModel rq)) ->
  emits Q (callXAI P (Wd := Wd) env search maxImports (VNum t) sessionId).
Proof.
  intros HG HC HU HM. unfold callXAI.
  destruct (XAI_API_KEY env) as [k|]; [|apply emits_throw].
  destruct (str_nonempty k); [|apply emits_throw].
  apply pages_emits; auto.
Qed.

(** The back-compat mapping writes [maxImports] and [search] only. *)
Lemma lookup_set_own_other (k k0 : string) (v : value) (props : list (string * value)) :
  k <> k0 -> lookup k (set_own k0 v props) = lookup k props.
Proof.
  intro Hne. induction props as [|[k' v'] rest IH]; simpl.
  - destruct (String.eqb_spec k k0); congruence.
  - destruct (String.eqb_spec k0 k') as [->|Hk0]; simpl.
    + destruct (String.eqb_spec k k'); congruence.
    + destruct (String.eqb_spec k k'); [reflexivity | exact IH].
Qed.

Lemma lookup_set_own_same (k : string) (v : value) (props : list (string * value)) :
  lookup k (set_own k v props) = Some v.
Proof.
  induction props as [|[k' v'] rest IH]; simpl.
  - now rewrite String.eqb_refl.
  - destruct (String.eqb_spec k k') as [->|Hk]; simpl.
    + now rewrite String.eqb_refl.
    + destruct (String.eqb_spec k k'); [congruence | exact IH].
Qed.

Lemma get_set_own_same (k : string) (v : value) (props : list (string * value)) :
  get (VObj (set_own k v props)) k = v.
Proof. unfold get. now rewrite lookup_set_own_same. Qed.

Lemma get_set_own_other (k k0 : string) (v : value) (props : list (string * value)) :
  k <> k0 -> get (VObj (set_own k0 v props)) k = get (VObj props) k.
Proof. intro H. simpl. now rewrite lookup_set_own_other. Qed.

Lemma backcompat_keeps (P : Platform) (body body' : value) (k : string) :
  backcompat P body = Some body' -> k <> "maxImports" -> k <> "search" ->
  get body' k = get body k.
Proof.
  intros H Hm Hs. destruct body as [| | b | n | s | l | props];
    try (simpl in H; inversion H; reflexivity).
  unfold backcompat in H.
  destruct (is_number (get (VObj props) "limit")
            && strict_eq (get (VObj props) "maxImports") VUndef);
    (destruct (truthy (get (VObj props) "queryType") && truthy (get (VObj props) "query"));
     [ destruct (to_string P (get (VObj props) "queryType")) as [qt|]; [|discriminate];
       destruct (queryType_key (toLowerCase qt)) as [key|];
       [ destruct (get (VObj props) "search" ||? VObj []) as [| | | | | |sprops] |] |]);
    inversion H; subst body';
    rewrite ?get_set_own_other by assumption; reflexivity.
Qed.


Lemma z_int_value (v : value) (n : num) : z_int v = Some n -> v = VNum n.
Proof.
  unfold z_int, z_number. destruct v as [| | | m | | |]; try discriminate.
  destruct m; try discriminate;
    match goal with |- context [Number_isInteger ?x] => destruct (Number_isInteger x) end;
    try discriminate; intro H; inversion H; reflexivity.
Qed.

Lemma z_optional_int (v : value) (o : option num) :
  z_optional z_int v = Some o ->
  match o with
  | Some n => v = VNum n
  | None => v = VUndef
  end.
Proof.
  unfold z_optional. destruct v; try (intro H; inversion H; reflexivity);
    destruct (z_int _) as [k|] eqn:Z; try discriminate;
    intro H; inversion H; subst o; exact (z_int_value _ Z).
Qed.

(** The timeout the validation block hands on is the preferred field of
    the body, clamped. *)
Lemma validate_requested (P : Platform) (env : environment) (body : value)
      (mi : num) (se : value) (t : num) :
  validate P env body = Some (mi, se, t) ->
  t = clampTimeout
        (VNum match get body "timeout_ms" with
              | VNum n => n
              | _ => match get body "timeoutMs" with
                     | VNum n => n
                     | _ => env_timeout P env
                     end
              end).
Proof.
  unfold validate. destruct (requestSchema body) as [parsed|] eqn:R; [|discriminate].
  intro H. inversion H; subst. clear H.
  unfold requestSchema in R. destruct body; try discriminate.
  destruct (z_optional z_maxImports _); [|discriminate].
  destruct (z_optional z_int (get (VObj props) "timeout_ms")) as [t1|] eqn:T1;
    [|discriminate].
  destruct (z_optional z_int (get (VObj props) "timeoutMs")) as [t2|] eqn:T2;
    [|discriminate].
  destruct (z_optional z_search _); [|discriminate].
  inversion R; subst parsed. clear R. cbn [r_timeout_ms r_timeoutMs].
  apply z_optional_int in T1. apply z_optional_int in T2.
  destruct t1 as [n1|]; rewrite T1; [reflexivity|].
  destruct t2 as [n2|]; rewrite T2; reflexivity.
Qed.

(** C6 (amended): every completion call of a run carries the requested
    timeout clamped: the value of [timeout_ms], or else of [timeoutMs], or
    else the configured XAI_TIMEOUT_MS, put through [clampTimeout], so
    inside [10 s, 60 min].  When the request gives none it is the
    configured value clamped, which is 600000 ms (ten minutes) when that
    variable is unset.  The five-minute constant is what [clampTimeout]
    answers for a value that is not a finite number. *)
Theorem completion_timeout (P : Platform) (Wd : World) (env : environment)
        (req : request) :
  emits (fun ev => forall rq, ev = EvModel rq ->
           rq_timeout rq = clampTimeout (VNum (requested_timeout P env req))
           /\ in_timeout_range (rq_timeout rq)
           /\ (no_caller_timeout P req ->
               rq_timeout rq = clampTimeout (VNum (env_timeout P env))))
        (run P (Wd := Wd) env req)
  /\ (XAI_TIMEOUT_MS env = None ->
      clampTimeout (VNum (env_timeout P env)) = num_of_Z 600000)
  /\ (forall ms, in_timeout_range (clampTimeout ms))
  /\ (forall n, Number_isFinite n = false -> clampTimeout (VNum n) = TIMEOUT_DEFAULT).
Proof.
  split; [|split; [|split]].
  - unfold run. apply emits_try; [|intro; apply emits_ret].
    unfold run_body.
    destruct (strict_eq (method req) (VStr "OPTIONS")); [apply emits_ret|].
    destruct (negb (strict_eq (method req) (VStr "POST"))); [apply emits_ret|].
    apply emits_bind; [apply emits_lift | intro sessionId].
    apply emits_bind_lift. intros body' B.
    destruct (validate P env body') as [[[mi se] t]|] eqn:V; [|apply emits_ret].
    unfold respond. destruct (on (XAI_STUB env)); [apply emits_ret|].
    pose proof (validate_requested _ _ _ V) as Ht.
    rewrite !(backcompat_keeps _ _ B) in Ht by discriminate.
    fold (requested_timeout P env req) in Ht. subst t.
    apply emits_bind.
    + apply callXAI_emits; try (intros; discriminate).
      intros rq Hrq rq' E. inversion E; subst rq'. clear E.
      rewrite clampTimeout_idempotent in Hrq. rewrite Hrq.
      split; [reflexivity|].
      split; [apply clampTimeout_in_range|].
      intros [H1 H2]. unfold requested_timeout. now rewrite H1, H2.
    + intro r. destruct (schema (fst r)); [apply emits_ret | apply emits_throw].
  - intro H. unfold env_timeout. rewrite H. reflexivity.
  - apply clampTimeout_in_range.
  - intros [| | |q] H; try reflexivity. discriminate.
Qed.

(** A request for twenty seconds: the first completion call of the run
    carries 20000 ms. *)
Lemma completion_timeout_witness :
  exists rq rest,
    trace (snd (run empty_platform (Wd := silent_world) live_env (post twenty_seconds)
                    (silence [])))
    = EvModel rq :: rest
    /\ rq_timeout rq = num_of_Z 20000.
Proof.
  destruct (proj1 (completion_timeout empty_platform silent_world live_env
                     (post twenty_seconds)) (silence [])) as (evs & T & F).
  assert (E : exists rq rest,
             trace (snd (run empty_platform (Wd := silent_world) live_env
                             (post twenty_seconds) (silence [])))
             = EvModel rq :: rest)
    by (eexists; eexists; vm_compute; reflexivity).
  destruct E as (rq & rest & E). exists rq, rest. split; [exact E|].
  rewrite E in T. cbn [trace silence script app] in T. subst evs.
  inversion F as [|ev evs' Hrq _]; subst.
  destruct (Hrq rq eq_refl) as [H _]. rewrite H. reflexivity.
Defined.

(** C6 (as stated) fails on the default: a request without a timeout, in
    an environment without XAI_TIMEOUT_MS, calls the completion provider
    with a timeout of 600000 ms, not with the five minutes of the claim. *)
Lemma default_timeout_is_ten_minutes :
  exists rq rest,
    trace (snd (run empty_platform (Wd := silent_world) live_env (post (VObj []))
                    (silence [])))
    = EvModel rq :: rest
    /\ no_caller_timeout empty_platform (post (VObj []))
    /\ rq_timeout rq = num_of_Z 600000
    /\ rq_timeout rq <> TIMEOUT_DEFAULT.
Proof.
  eexists. eexists. split; [vm_compute; reflexivity|].
  split; [split; reflexivity|].
  split; [reflexivity | discriminate].
Qed.

(* ------------------------------------------------------------------ *)
(** ** The geocoding enricher *)

(** C5: [geocodeLocation] always returns a pair and never raises; the pair
    is (0, 0) when no key is configured, when the location is empty, when
    the lookup fails, and when the answer has no first result (or none
    with a location). *)
Theorem geocodeLocation_absorbs (P : Platform) (Wd : World) (env : environment)
        (location : value) (st : state Wd) :
  exists p st',
    geocodeLocation P env location st = (Ok p, st')
    /\ (env_truthy (GOOGLE_GEOCODING_API_KEY env) = false -> p = origin00 /\ st' = st)
    /\ (truthy location = false -> p = origin00 /\ st' = st)
    /\ (forall key, GOOGLE_GEOCODING_API_KEY env = Some key ->
                    fst (geocode_get Wd location key (world st)) = HttpFails ->
                    p = origin00)
    /\ (forall key data, GOOGLE_GEOCODING_API_KEY env = Some key ->
                         fst (geocode_get Wd location key (world st)) = HttpData data ->
                         truthy (get (get (get0 (get data "results")) "geometry") "location")
                         = false ->
                         p = origin00).
Proof.
  unfold geocodeLocation, env_truthy.
  destruct (GOOGLE_GEOCODING_API_KEY env) as [key|].
  2:{ exists origin00, st. repeat split; auto; intros; discriminate. }
  destruct (str_nonempty key) eqn:K; cbn [negb orb].
  2:{ exists origin00, st. repeat split; auto. }
  destruct (truthy location) eqn:L; cbn [negb].
  2:{ exists origin00, st. repeat split; auto. }
  unfold try_catch. unfold bind at 1.
  destruct (to_string P location) as [text|]; cbn [lift ret throw].
  2:{ exists origin00, st. split; [reflexivity|]. repeat split; auto; discriminate. }
  unfold http. unfold bind at 1. unfold bind at 1. unfold call.
  destruct (geocode_get Wd location key (world st)) as [[|data] w'] eqn:G;
    cbn [ret throw].
  - eexists. eexists. split; [reflexivity|].
    repeat split; auto; try discriminate.
  - eexists. eexists. split; [reflexivity|].
    split; [discriminate|]. split; [discriminate|]. split.
    + intros key' E H. inversion E; subst key'. rewrite G in H. discriminate.
    + intros key' data' E H Hg. inversion E; subst key'. rewrite G in H.
      simpl in H. inversion H; subst data'. rewrite Hg. reflexivity.
Qed.

(** The scenario of the specification: no key, location "Austin, TX". *)
Example geocode_disabled :
  geocodeLocation empty_platform no_env (VStr "Austin, TX") (silence [])
  = (Ok origin00, silence []).
Proof. reflexivity. Qed.

(** The older copy of the handler absorbs failures the same way for a
    location that [String] converts; it sends an empty location to the
    provider instead of answering (0, 0) itself. *)
Lemma geocodeLocation_legacy_absorbs (P : Platform) (Wd : World) (env : environment)
      (location : value) (st : state Wd) :
  to_string P location <> None ->
  exists p st',
    geocodeLocation_legacy P env location st = (Ok p, st')
    /\ (env_truthy (GOOGLE_GEOCODING_API_KEY env) = false -> p = origin00 /\ st' = st)
    /\ (forall key, GOOGLE_GEOCODING_API_KEY env = Some key ->
                    fst (geocode_get Wd location key (world st)) = HttpFails ->
                    p = origin00)
    /\ (forall key data, GOOGLE_GEOCODING_API_KEY env = Some key ->
                         fst (geocode_get Wd location key (world st)) = HttpData data ->
                         truthy (get0 (get data "results")) = false ->
                         p = origin00).
Proof.
  intro Hconv. unfold geocodeLocation_legacy, env_truthy.
  destruct (GOOGLE_GEOCODING_API_KEY env) as [key|].
  2:{ exists origin00, st. repeat split; auto; intros; discriminate. }
  destruct (str_nonempty key) eqn:K; cbn [negb].
  2:{ exists origin00, st. repeat split; auto. }
  destruct (to_string P location) as [text|]; [clear Hconv | contradiction].
  unfold try_catch. unfold bind at 1. cbn [lift ret].
  unfold http. unfold bind at 1. unfold bind at 1. unfold call.
  destruct (geocode_get Wd location key (world st)) as [[|data] w'] eqn:G;
    cbn [ret throw bind].
  - eexists. eexists. split; [reflexivity|].
    repeat split; auto; try discriminate.
  - destruct (nullish data || nullish (get data "results")) eqn:N; cbn [ret throw bind].
    + eexists. eexists. split; [reflexivity|]. repeat split; auto; discriminate.
    + destruct (truthy (get0 (get data "results"))) eqn:R; cbn [andb].
      * destruct (truthy (get (get0 (get data "results")) "geometry") && _);
          cbn [ret bind]; (eexists; eexists; split; [reflexivity|]);
          (split; [discriminate|]); (split;
            [intros key' E H; inversion E; subst key'; rewrite G in H; discriminate
            |intros key' data' E H Hg; inversion E; subst key'; rewrite G in H;
             simpl in H; inversion H; subst data'; congruence]).
      * cbn [ret bind]. eexists. eexists. split; [reflexivity|].
        repeat split; auto; discriminate.
Qed.

(* ------------------------------------------------------------------ *)
(** ** The affiliate tag *)

Lemma remove_name_named (k : string) (l : list (string * string)) :
  named k (remove_name k l) = [].
Proof.
  unfold named, remove_name. induction l as [|[k' v'] rest IH]; simpl; [reflexivity|].
  destruct (String.eqb k' k) eqn:E; simpl; [exact IH|]. now rewrite E.
Qed.

(** After [set] exactly one pair carries the name, with the new value. *)
Lemma params_set_named (k v : string) (l : list (string * string)) :
  named k (params_set k v l) = [(k, v)].
Proof.
  induction l as [|[k' v'] rest IH]; simpl.
  - unfold named. simpl. now rewrite String.eqb_refl.
  - destruct (String.eqb k' k) eqn:E.
    + unfold named. simpl. rewrite String.eqb_refl.
      f_equal. apply remove_name_named.
    + unfold named in *. simpl. rewrite E. exact IH.
Qed.

Lemma params_get_set (k v : string) (l : list (string * string)) :
  params_get k (params_set k v l) = Some v.
Proof.
  induction l as [|[k' v'] rest IH]; simpl.
  - now rewrite String.eqb_refl.
  - destruct (String.eqb k' k) eqn:E; simpl.
    + now rewrite String.eqb_refl.
    + now rewrite E.
Qed.

Lemma params_set_absent (k v : string) (l : list (string * string)) :
  params_get k l = None -> params_set k v l = l ++ [(k, v)].
Proof.
  induction l as [|[k' v'] rest IH]; simpl; [reflexivity|].
  destruct (String.eqb k' k); [discriminate|]. intro H. now rewrite IH.
Qed.

Lemma params_set_others (k v k0 : string) (l : list (string * string)) :
  k0 <> k -> named k0 (params_set k v l) = named k0 l.
Proof.
  intro Hne. unfold named.
  assert (R : forall l, filter (fun p => String.eqb (fst p) k0) (remove_name k l)
                        = filter (fun p : string * string => String.eqb (fst p) k0) l).
  { clear l. induction l as [|[k' v'] rest IH]; simpl; [reflexivity|].
    destruct (String.eqb_spec k' k) as [->|]; simpl.
    - destruct (String.eqb_spec k k0); [congruence | exact IH].
    - now rewrite IH. }
  induction l as [|[k' v'] rest IH]; simpl.
  - destruct (String.eqb_spec k k0); congruence.
  - destruct (String.eqb_spec k' k) as [->|]; simpl.
    + destruct (String.eqb_spec k k0); [congruence | apply R].
    + now rewrite IH.
Qed.

Lemma In_named (k v : string) (l : list (string * string)) :
  In (k, v) l -> In (k, v) (named k l).
Proof.
  intro H. unfold named. apply filter_In. split; [assumption|]. simpl.
  apply String.eqb_refl.
Qed.

(** On an amazon host the answer is the URL with the tag set. *)
Lemma affiliate_tag_answer (P : Platform) (s : string) (u : URL P) :
  s <> "" ->
  new_URL P s = Some u ->
  contains (fold_case (URL_hostname P u)) "amazon." = true ->
  ensureAffiliateTag P (VStr s)
  = VStr (URL_toString P
            (URL_update P u (params_set "tag" AFFILIATE_TAG (URL_searchParams P u)))).
Proof.
  intros Hs Hu Hh. unfold ensureAffiliateTag.
  assert (T : truthy (VStr s) = true) by (destruct s; [congruence | reflexivity]).
  now rewrite T, Hu, Hh.
Qed.

(** C4 (amended): on a non-empty text whose URL parses, the tag parameter
    is set exactly when the host name matches [amazon.]: then the answer is
    the serialised URL whose only [tag] pair is the affiliate tag, appended
    when the URL had none and with every other parameter kept; otherwise the
    answer is the serialised URL with its parameters untouched.  A text
    that does not parse is returned as it is. *)
Theorem ensureAffiliateTag_sets_tag (P : Platform) (s : string) :
  s <> "" ->
  match new_URL P s with
  | Some u =>
      if contains (fold_case (URL_hostname P u)) "amazon." then
        let ps := params_set "tag" AFFILIATE_TAG (URL_searchParams P u) in
        ensureAffiliateTag P (VStr s) = VStr (URL_toString P (URL_update P u ps))
        /\ named "tag" ps = [("tag", AFFILIATE_TAG)]
        /\ (params_get "tag" (URL_searchParams P u) = None ->
            ps = URL_searchParams P u ++ [("tag", AFFILIATE_TAG)])
        /\ (forall k, k <> "tag" -> named k ps = named k (URL_searchParams P u))
      else ensureAffiliateTag P (VStr s) = VStr (URL_toString P u)
  | None => ensureAffiliateTag P (VStr s) = VStr s
  end.
Proof.
  intro Hs. unfold ensureAffiliateTag.
  assert (T : truthy (VStr s) = true) by (destruct s; [congruence | reflexivity]).
  rewrite T. cbn [negb].
  destruct (new_URL P s) as [u|]; [|reflexivity].
  destruct (contains (fold_case (URL_hostname P u)) "amazon."); [|reflexivity].
  cbv zeta. split; [reflexivity|]. split; [apply params_set_named|].
  split; [apply params_set_absent|]. intros k Hk. now apply params_set_others.
Qed.

Lemma ensureAffiliateTag_sets_tag_witness :
  "https://www.amazon.com/dp/B0" <> ""
  /\ ensureAffiliateTag url_platform (VStr "https://www.amazon.com/dp/B0")
     = VStr "https://www.amazon.com/dp/B0?tag=tabarnam00-20".
Proof.
  split; [discriminate|].
  exact (proj1 (ensureAffiliateTag_sets_tag url_platform
                  (s := "https://www.amazon.com/dp/B0") ltac:(discriminate))).
Defined.

(** C4 (as stated) fails on its last part: the host of "acme.com" has no
    [amazon.], and the text comes back rewritten, not unmodified. *)
Lemma non_amazon_url_is_rewritten :
  exists u, new_URL url_platform "acme.com" = Some u
            /\ contains (fold_case (URL_hostname url_platform u)) "amazon." = false
            /\ ensureAffiliateTag url_platform (VStr "acme.com") = VStr "https://acme.com/"
            /\ ensureAffiliateTag url_platform (VStr "acme.com") <> VStr "acme.com".
Proof.
  exists acme_url. repeat split. discriminate.
Qed.

Lemma prefix_fold_case (p s : string) :
  is_prefix p s = true -> is_prefix (fold_case p) (fold_case s) = true.
Proof.
  revert s. induction p as [|c p IH]; intros s H; [reflexivity|].
  destruct s as [|d s]; [discriminate|]. simpl in *.
  apply andb_true_iff in H. destruct H as [Hc Hp].
  apply Ascii.eqb_eq in Hc. subst d. rewrite Ascii.eqb_refl. simpl. auto.
Qed.

Lemma contains_fold_case (s p : string) :
  contains s p = true -> contains (fold_case s) (fold_case p) = true.
Proof.
  unfold contains. induction s as [|c s IH].
  - destruct p; [reflexivity | discriminate].
  - cbn [indexOf fold_case].
    destruct (is_prefix p (String c s)) eqn:E.
    + intros _. apply prefix_fold_case in E. cbn [fold_case] in E. now rewrite E.
    + intro H.
      destruct (is_prefix (fold_case p) (String (fold_char c) (fold_case s)));
        [reflexivity|].
      destruct (indexOf s p); [|discriminate].
      specialize (IH eq_refl).
      destruct (indexOf (fold_case s) (fold_case p)); [reflexivity | discriminate].
Qed.

(** C9: on an amazon URL that already carries a [tag] parameter with
    another value, the answer is the serialised URL in which that value is
    gone and the affiliate tag stands in its place. *)
Theorem ensureAffiliateTag_overwrites (P : Platform) (s : string) (u : URL P)
        (v : string) :
  s <> "" ->
  new_URL P s = Some u ->
  contains (URL_hostname P u) "amazon." = true ->
  In ("tag", v) (URL_searchParams P u) ->
  v <> AFFILIATE_TAG ->
  exists ps,
    ensureAffiliateTag P (VStr s) = VStr (URL_toString P (URL_update P u ps))
    /\ ps = params_set "tag" AFFILIATE_TAG (URL_searchParams P u)
    /\ params_get "tag" ps = Some AFFILIATE_TAG
    /\ named "tag" ps = [("tag", AFFILIATE_TAG)]
    /\ ~ In ("tag", v) ps.
Proof.
  intros Hs Hu Hh Hin Hv.
  apply (contains_fold_case (URL_hostname P u) "amazon.") in Hh.
  change (fold_case "amazon.") with "amazon." in Hh.
  eexists. split; [exact (affiliate_tag_answer P Hs Hu Hh)|].
  split; [reflexivity|]. split; [apply params_get_set|].
  split; [apply params_set_named|].
  intro Hc. apply In_named in Hc. rewrite params_set_named in Hc.
  destruct Hc as [Hc|[]]. inversion Hc. congruence.
Qed.

Lemma ensureAffiliateTag_overwrites_witness :
  exists ps,
    ensureAffiliateTag url_platform (VStr "https://www.amazon.com/dp/B0?ref=x&tag=other-20")
    = VStr (URL_toString url_platform (URL_update url_platform amazon_tagged ps))
    /\ ps = [("ref", "x"); ("tag", "tabarnam00-20")]
    /\ params_get "tag" ps = Some AFFILIATE_TAG
    /\ named "tag" ps = [("tag", AFFILIATE_TAG)]
    /\ ~ In ("tag", "other-20") ps.
Proof.
  exact (ensureAffiliateTag_overwrites url_platform
           (s := "https://www.amazon.com/dp/B0?ref=x&tag=other-20")
           (u := amazon_tagged) (v := "other-20")
           ltac:(discriminate) eq_refl eq_refl
           ltac:(right; left; reflexivity) ltac:(discriminate)).
Defined.

Example amazon_tag_overwritten :
  ensureAffiliateTag url_platform (VStr "https://www.amazon.com/dp/B0?ref=x&tag=other-20")
  = VStr "https://www.amazon.com/dp/B0?ref=x&tag=tabarnam00-20".
Proof. reflexivity. Qed.

(* ------------------------------------------------------------------ *)
(** ** The extractor *)

Section StringFacts.

Local Open Scope string_scope.

Lemma append_assoc (a b c : string) : (a ++ b) ++ c = a ++ (b ++ c).
Proof. induction a as [|x a IH]; simpl; [reflexivity | now rewrite IH]. Qed.

Lemma append_nil_r (a : string) : a ++ "" = a.
Proof. induction a as [|x a IH]; simpl; [reflexivity | now rewrite IH]. Qed.

Lemma snoc_cases (s : string) :
  s = "" \/ exists s' c, s = s' ++ String c "".
Proof.
  induction s as [|x s IH]; [left; reflexivity|]. right.
  destruct IH as [->|(s' & c & ->)].
  - exists "", x. reflexivity.
  - exists (String x s'), c. reflexivity.
Qed.

Lemma all_chars_app (p : ascii -> bool) (a b : string) :
  all_chars p (a ++ b) = all_chars p a && all_chars p b.
Proof.
  induction a as [|x a IH]; simpl; [reflexivity|].
  now rewrite IH, andb_assoc.
Qed.

Lemma json_ws_is_ws (c : ascii) : json_ws c = true -> is_ws c = true.
Proof.
  unfold json_ws, is_ws. intro H.
  repeat (apply orb_true_iff in H; destruct H as [H|H]);
    apply Nat.eqb_eq in H; rewrite H; reflexivity.
Qed.

Lemma all_json_ws_is_ws (w : string) :
  all_chars json_ws w = true -> all_chars is_ws w = true.
Proof.
  induction w as [|c w IH]; simpl; [reflexivity|]. intro H.
  apply andb_true_iff in H. destruct H as [Hc Hw].
  now rewrite (json_ws_is_ws _ Hc), IH.
Qed.

Lemma trimStart_ws_app (w s : string) :
  all_chars is_ws w = true -> trimStart (w ++ s) = trimStart s.
Proof.
  induction w as [|c w IH]; simpl; [reflexivity|]. intro H.
  apply andb_true_iff in H. destruct H as [Hc Hw]. rewrite Hc. auto.
Qed.

Lemma trimEnd_ws (w : string) : all_chars is_ws w = true -> trimEnd w = "".
Proof.
  induction w as [|c w IH]; simpl; [reflexivity|]. intro H.
  apply andb_true_iff in H. destruct H as [Hc Hw]. now rewrite IH, Hc.
Qed.

Lemma trimEnd_app_ws (s w : string) :
  all_chars is_ws w = true -> trimEnd (s ++ w) = trimEnd s.
Proof.
  intro H. induction s as [|c s IH]; simpl.
  - now apply trimEnd_ws.
  - now rewrite IH.
Qed.

Lemma trimEnd_keeps (s : string) (c : ascii) :
  is_ws c = false -> trimEnd (s ++ String c "") = s ++ String c "".
Proof.
  intro H. induction s as [|d s IH]; simpl.
  - now rewrite H.
  - rewrite IH. destruct s; reflexivity.
Qed.

Lemma take_app_length (a b : string) : take (String.length a) (a ++ b) = a.
Proof. induction a as [|x a IH]; simpl; [destruct b; reflexivity | now rewrite IH]. Qed.

Lemma contains_suffix (a b p : string) :
  contains (a ++ b) p = false -> contains b p = false.
Proof.
  unfold contains. induction a as [|x a IH]; simpl; [auto|].
  destruct (is_prefix p (String x (a ++ b))); [discriminate|].
  destruct (indexOf (a ++ b) p); [discriminate|]. auto.
Qed.

(** The first fence of a text that ends in a fence, holds no other fence
    and does not end in a backtick before it. *)
Lemma is_prefix_fence (c : ascii) (s : string) :
  is_prefix FENCE (String c s) = Ascii.eqb "`" c && is_prefix "``" s.
Proof. reflexivity. Qed.

Lemma indexOf_cons (c : ascii) (s p : string) :
  indexOf (String c s) p
  = if is_prefix p (String c s) then Some 0 else option_map S (indexOf s p).
Proof. reflexivity. Qed.

Lemma indexOf_closing_fence (Y : string) (c : ascii) :
  Ascii.eqb "`" c = false ->
  contains (Y ++ String c "") FENCE = false ->
  indexOf ((Y ++ String c "") ++ FENCE) FENCE = Some (String.length (Y ++ String c "")).
Proof.
  intros Hc. unfold contains. induction Y as [|d Y IH]; intro H.
  - change (("" ++ String c "") ++ FENCE) with (String c FENCE).
    rewrite indexOf_cons, is_prefix_fence, Hc. reflexivity.
  - change ((String d Y ++ String c "") ++ FENCE)
      with (String d ((Y ++ String c "") ++ FENCE)).
    change (String d Y ++ String c "") with (String d (Y ++ String c "")) in *.
    rewrite indexOf_cons in H. rewrite indexOf_cons.
    destruct (is_prefix FENCE (String d (Y ++ String c ""))) eqn:E; [discriminate|].
    destruct (indexOf (Y ++ String c "") FENCE) eqn:I; [discriminate|].
    rewrite (IH eq_refl).
    assert (F : is_prefix FENCE (String d ((Y ++ String c "") ++ FENCE)) = false).
    { rewrite is_prefix_fence in *.
      destruct (Ascii.eqb "`" d); [|reflexivity]. cbn [andb] in *.
      destruct Y as [|e [|f Y]]; cbn [append is_prefix] in *.
      - now rewrite Hc.
      - rewrite Hc. now rewrite andb_false_r.
      - rewrite !andb_true_r in *. exact E. }
    rewrite F. reflexivity.
Qed.

Lemma json_ws_not_tick (c : ascii) : json_ws c = true -> Ascii.eqb "`" c = false.
Proof.
  destruct c as [[] [] [] [] [] [] [] []]; vm_compute; intro;
    try reflexivity; discriminate.
Qed.

Lemma json_ws_not_j (c : ascii) :
  json_ws c = true -> Ascii.eqb "j" (fold_char c) = false.
Proof.
  destruct c as [[] [] [] [] [] [] [] []]; vm_compute; intro;
    try reflexivity; discriminate.
Qed.

End StringFacts.

Section FencedArray.

Local Open Scope string_scope.

Variables (w1 body w2 : string).
Hypothesis ws1 : all_chars json_ws w1 = true.
Hypothesis ws2 : all_chars json_ws w2 = true.


Lemma array_text_last :
  exists Y c, "[" ++ body ++ "]" ++ w2 = Y ++ String c "" /\ Ascii.eqb "`" c = false.
Proof using ws2.
  destruct (snoc_cases w2) as [E|(w' & c & E)].
  - exists ("[" ++ body), "]"%char. rewrite E. split; [|reflexivity].
    now rewrite append_assoc.
  - exists ("[" ++ body ++ "]" ++ w'), c. rewrite E. split.
    + now rewrite !append_assoc.
    + rewrite E, all_chars_app in ws2. apply andb_true_iff in ws2.
      destruct ws2 as [_ Hc]. simpl in Hc. rewrite andb_true_r in Hc.
      now apply json_ws_not_tick.
Qed.

Lemma trim_array_text : trim ("[" ++ body ++ "]" ++ w2) = ("[" ++ body ++ "]").
Proof using ws2.
  unfold trim. change (trimStart ("[" ++ body ++ "]" ++ w2))
    with ("[" ++ body ++ "]" ++ w2).
  replace ("[" ++ body ++ "]" ++ w2) with (("[" ++ body) ++ "]" ++ w2)
    by now rewrite append_assoc.
  replace (("[" ++ body) ++ "]" ++ w2) with ((("[" ++ body) ++ "]") ++ w2)
    by now rewrite (append_assoc ("[" ++ body) "]" w2).
  rewrite trimEnd_app_ws by now apply all_json_ws_is_ws.
  rewrite trimEnd_keeps by reflexivity. now rewrite append_assoc.
Qed.

Lemma trim_inner : trim (w1 ++ "[" ++ body ++ "]" ++ w2) = ("[" ++ body ++ "]").
Proof using ws1 ws2.
  rewrite <- trim_array_text. unfold trim.
  rewrite trimStart_ws_app by now apply all_json_ws_is_ws. reflexivity.
Qed.

Lemma trimStart_inner_fence :
  trimStart ((w1 ++ "[" ++ body ++ "]" ++ w2) ++ FENCE) = ("[" ++ body ++ "]" ++ w2) ++ FENCE.
Proof using ws1.
  rewrite append_assoc.
  rewrite trimStart_ws_app by now apply all_json_ws_is_ws. reflexivity.
Qed.

Lemma skip_json_tag_inner : skip_json_tag ((w1 ++ "[" ++ body ++ "]" ++ w2) ++ FENCE) = (w1 ++ "[" ++ body ++ "]" ++ w2) ++ FENCE.
Proof using ws1.
  unfold skip_json_tag. destruct w1 as [|c w]; [reflexivity|].
  simpl in ws1. apply andb_true_iff in ws1. destruct ws1 as [Hc _].
  change (take 4 ((String c w ++ "[" ++ body ++ "]" ++ w2) ++ FENCE))
    with (String c (take 3 ((w ++ "[" ++ body ++ "]" ++ w2) ++ FENCE))).
  cbn [fold_case is_prefix]. now rewrite (json_ws_not_j _ Hc).
Qed.

Lemma skip_json_tag_tag (tag rest : string) :
  fold_case tag = "json" -> skip_json_tag (tag ++ rest) = rest.
Proof.
  intro H. destruct tag as [|a [|b [|c [|d [|e t]]]]]; try discriminate.
  unfold skip_json_tag.
  change (take 4 (String a (String b (String c (String d ""))) ++ rest))
    with (String a (String b (String c (String d (take 0 rest))))).
  replace (take 0 rest) with "" by (destruct rest; reflexivity).
  rewrite H. reflexivity.
Qed.

Lemma fence_capture_fenced (tag : string) :
  tag = "" \/ fold_case tag = "json" ->
  contains (w1 ++ "[" ++ body ++ "]" ++ w2) FENCE = false ->
  fence_capture (FENCE ++ tag ++ (w1 ++ "[" ++ body ++ "]" ++ w2) ++ FENCE) = Some ("[" ++ body ++ "]" ++ w2).
Proof using ws1 ws2.
  intros Htag Hno. unfold fence_capture.
  change (indexOf (FENCE ++ tag ++ (w1 ++ "[" ++ body ++ "]" ++ w2) ++ FENCE) FENCE) with (Some 0).
  cbv iota beta.
  change (drop (0 + 3) (FENCE ++ tag ++ (w1 ++ "[" ++ body ++ "]" ++ w2) ++ FENCE)) with (tag ++ (w1 ++ "[" ++ body ++ "]" ++ w2) ++ FENCE).
  assert (S : skip_json_tag (tag ++ (w1 ++ "[" ++ body ++ "]" ++ w2) ++ FENCE) = (w1 ++ "[" ++ body ++ "]" ++ w2) ++ FENCE).
  { destruct Htag as [->|Htag];
      [apply skip_json_tag_inner | now apply skip_json_tag_tag]. }
  rewrite S, trimStart_inner_fence.
  destruct array_text_last as (Y & c & E & Hc). rewrite E.
  rewrite indexOf_closing_fence; [now rewrite take_app_length | assumption |].
  rewrite <- E. now apply contains_suffix in Hno.
Qed.

Lemma trim_fenced (a r : string) :
  trim (FENCE ++ a ++ r ++ FENCE) = FENCE ++ a ++ r ++ FENCE.
Proof.
  unfold trim.
  change (trimStart (FENCE ++ a ++ r ++ FENCE)) with (FENCE ++ a ++ r ++ FENCE).
  replace (FENCE ++ a ++ r ++ FENCE) with ((FENCE ++ a ++ r ++ "``") ++ "`").
  - now rewrite trimEnd_keeps.
  - now rewrite !append_assoc.
Qed.

End FencedArray.

(** C3 (amended): a text that is one fenced block, with or without the
    [json] tag, around a valid JSON array that holds no fence of its own,
    is extracted to exactly what [JSON.parse] makes of the inner text. *)
Theorem fenced_array_extracted (P : Platform) (tag inner : string) (l : list value) :
  JSON_parse_laws P ->
  tag = "" \/ fold_case tag = "json" ->
  JSON_parse P inner = Some (VArr l) ->
  contains inner FENCE = false ->
  trimToArrayJson P (VStr (FENCE ++ tag ++ inner ++ FENCE))
  = Some {| companies := JSON_parse P inner; note := "array" |}.
Proof.
  intros [Ltrim Larr] Htag Hparse Hno.
  destruct (Larr _ _ Hparse) as (w1 & body & w2 & E & H1 & H2).
  pose proof (Ltrim _ _ Hparse) as Hcore. subst inner.
  rewrite (@trim_inner w1 body w2 H1 H2) in Hcore.
  unfold trimToArrayJson.
  change (truthy (VStr (FENCE ++ tag ++ (w1 ++ "[" ++ body ++ "]" ++ w2) ++ FENCE)))
    with true.
  cbn [negb to_string]. rewrite trim_fenced.
  rewrite (@fence_capture_fenced w1 body w2 H1 H2 tag Htag Hno).
  rewrite (@trim_array_text body w2 H2).
  change (parse_object_stage P ("[" ++ body ++ "]")%string) with (@None extracted).
  unfold parse_array_stage.
  change (startsWith ("[" ++ body ++ "]") "[") with true. cbv iota.
  rewrite Hcore, Hparse. reflexivity.
Qed.

Lemma acme_platform_laws : JSON_parse_laws acme_platform.
Proof.
  split.
  - intros s v. simpl. destruct (String.eqb_spec s acme_text) as [->|]; [|discriminate].
    intro H. exact H.
  - intros s l. simpl. destruct (String.eqb_spec s acme_text) as [->|]; [|discriminate].
    intros _. exists "", (json_text "{'company_name':'Acme','url':'https://acme.com'}"), "".
    repeat split.
Qed.

Lemma fenced_array_extracted_witness :
  trimToArrayJson acme_platform (VStr (FENCE ++ "json" ++ acme_text ++ FENCE))
  = Some {| companies := Some (VArr [acme_fragment]); note := "array" |}.
Proof.
  exact (@fenced_array_extracted acme_platform "json" acme_text [acme_fragment]
           acme_platform_laws (or_intror eq_refl) eq_refl eq_refl).
Defined.

(** The scenario of the specification: prose before the fenced block. *)
Example fenced_answer_with_prose :
  trimToArrayJson acme_platform
    (VStr ("Sure! ```json" ++ nl ++ acme_text ++ nl ++ "```"))
  = Some {| companies := Some (VArr [acme_fragment]); note := "array" |}.
Proof. reflexivity. Qed.

(** C3 (as stated) fails when the array holds a fence: the lazy group of
    the fence pattern stops at the first fence inside the inner text, the
    truncated text does not parse, and nothing is extracted. *)
Lemma fence_inside_array_is_lost :
  JSON_parse ticks_platform ticks_text = Some (VArr [VStr "a```b"])
  /\ trimToArrayJson ticks_platform (VStr (FENCE ++ ticks_text ++ FENCE))
     = Some {| companies := None; note := "unparseable" |}.
Proof. split; reflexivity. Qed.

(* ------------------------------------------------------------------ *)
(** ** What a computation returns *)

Section Returns.

Variable Wd : World.

Lemma yields_ret {A : Type} (Post : A -> Prop) (a : A) :
  Post a -> yields Post (ret (Wd := Wd) a).
Proof. intros H st. exact H. Qed.

Lemma yields_throw {A : Type} (Post : A -> Prop) (e : exn) :
  yields Post (throw (Wd := Wd) (A := A) e).
Proof. intro st. exact I. Qed.

Lemma yields_lift {A : Type} (Post : A -> Prop) (o : option A) :
  (forall a, o = Some a -> Post a) -> yields Post (lift (Wd := Wd) o).
Proof. intros H st. destruct o; simpl; auto. Qed.

Lemma yields_bind {A B : Type} (Mid : A -> Prop) (Post : B -> Prop)
      (m : M Wd A) (k : A -> M Wd B) :
  yields Mid m -> (forall a, Mid a -> yields Post (k a)) -> yields Post (bind m k).
Proof.
  intros Hm Hk st. unfold bind. specialize (Hm st).
  destruct (m st) as [[a|e] st']; simpl in *; [|exact I].
  apply (Hk a Hm st').
Qed.

Lemma yields_try {A : Type} (Post : A -> Prop) (m : M Wd A) (h : exn -> M Wd A) :
  yields Post m -> (forall e, yields Post (h e)) -> yields Post (try_catch m h).
Proof.
  intros Hm Hh st. unfold try_catch. specialize (Hm st).
  destruct (m st) as [[a|e] st']; simpl in *; [exact Hm|].
  apply (Hh e st').
Qed.

Lemma yields_call {A : Type} (Post : A -> Prop) (ev : event) (f : W Wd -> A * W Wd) :
  (forall w, Post (fst (f w))) -> yields Post (call ev f).
Proof.
  intros H st. unfold call. specialize (H (world st)).
  destruct (f (world st)). exact H.
Qed.

Lemma yields_ask {A : Type} (Post : A -> Prop) (f : W Wd -> A * W Wd) :
  (forall w, Post (fst (f w))) -> yields Post (ask f).
Proof.
  intros H st. unfold ask. specialize (H (world st)).
  destruct (f (world st)). exact H.
Qed.

Lemma yields_http (ev : event) (f : W Wd -> http_result * W Wd) :
  yields (fun data => exists w, fst (f w) = HttpData data) (http ev f).
Proof.
  intro st. unfold http, bind, call.
  destruct (f (world st)) as [[|data] w'] eqn:E; simpl; [exact I|].
  exists (world st). now rewrite E.
Qed.

Lemma yields_weaken {A : Type} (Post Post' : A -> Prop) (m : M Wd A) :
  (forall a, Post a -> Post' a) -> yields Post m -> yields Post' m.
Proof.
  intros H Hm st. specialize (Hm st). destruct (fst (m st)); auto.
Qed.

Lemma yields_run {A : Type} (Post : A -> Prop) (m : M Wd A) (st st' : state Wd) (a : A) :
  yields Post m -> m st = (Ok a, st') -> Post a.
Proof. intros H E. specialize (H st). now rewrite E in H. Qed.

Lemma returns_ret {A : Type} (a : A) : returns (ret (Wd := Wd) a).
Proof. intro st. now exists a, st. Qed.

Lemma returns_bind {A B : Type} (m : M Wd A) (k : A -> M Wd B) :
  returns m -> (forall a, returns (k a)) -> returns (bind m k).
Proof.
  intros Hm Hk st. unfold bind. destruct (Hm st) as (a & st' & ->). apply Hk.
Qed.

Lemma returns_try {A : Type} (m : M Wd A) (h : exn -> M Wd A) :
  (forall e, returns (h e)) -> returns (try_catch m h).
Proof.
  intros Hh st. unfold try_catch.
  destruct (m st) as [[a|e] st']; [now exists a, st' | apply Hh].
Qed.

Lemma returns_call {A : Type} (ev : event) (f : W Wd -> A * W Wd) :
  returns (call ev f).
Proof. intro st. unfold call. destruct (f (world st)). eauto. Qed.

Lemma returns_ask {A : Type} (f : W Wd -> A * W Wd) : returns (ask f).
Proof. intro st. unfold ask. destruct (f (world st)). eauto. Qed.

End Returns.

Section Totality.

Variable P : Platform.
Variable Wd : World.
Variable env : environment.

Lemma geocodeLocation_returns (location : value) :
  returns (geocodeLocation P (Wd := Wd) env location).
Proof.
  unfold geocodeLocation.
  destruct (GOOGLE_GEOCODING_API_KEY env); [|apply returns_ret].
  destruct (_ || _); [apply returns_ret|].
  apply returns_try. intro. apply returns_ret.
Qed.

Lemma geocode_all_returns (locs : list value) :
  returns (geocode_all P (Wd := Wd) env locs).
Proof.
  induction locs as [|loc rest IH]; simpl; [apply returns_ret|].
  apply returns_bind; [apply geocodeLocation_returns | intro].
  apply returns_bind; [exact IH | intro; apply returns_ret].
Qed.

Lemma stream_returns (d : doc) (connected : bool) :
  returns (stream (Wd := Wd) d connected).
Proof.
  unfold stream, getCosmosContainer. apply returns_bind.
  - destruct connected; [apply returns_ret | apply returns_call].
  - intros []; [|apply returns_ret].
    apply returns_bind; [apply returns_call | intro; apply returns_ret].
Qed.

Lemma clean_page_returns (sessionId : value) (fragments : list value) :
  forall connected clean,
    returns (clean_page P (Wd := Wd) env sessionId fragments connected clean).
Proof.
  induction fragments as [|company rest IH]; intros; simpl; [apply returns_ret|].
  apply returns_bind; [|intro; apply IH].
  destruct (negb (is_object company)); [apply returns_ret|].
  apply returns_try. intro. apply returns_ret.
Qed.

Lemma pages_returns search maxImports sessionId bearer model timeout fuel :
  forall page all debug connected,
    returns (pages P (Wd := Wd) env search maxImports sessionId bearer model timeout
                   fuel page all debug connected).
Proof.
  induction fuel as [|fuel IH]; intros; simpl;
    destruct ((page <=? maxImports) && (length all <? maxImports));
    try apply returns_ret.
  apply returns_bind.
  - apply returns_try. intro. apply returns_ret.
  - intros [a d|a d c]; [apply returns_ret | apply IH].
Qed.

(** With a completion key configured [callXAI] returns its list: nothing
    that happens on a page escapes the loop. *)
Lemma callXAI_returns search maxImports timeoutMs sessionId :
  env_truthy (XAI_API_KEY env) = true ->
  returns (callXAI P (Wd := Wd) env search maxImports timeoutMs sessionId).
Proof.
  unfold callXAI, env_truthy. destruct (XAI_API_KEY env) as [k|]; [|discriminate].
  intros ->. apply pages_returns.
Qed.

(** [maxImports] rounds are enough: the loop stops by its own condition,
    never for want of fuel. *)
Lemma pages_fuel search maxImports sessionId bearer model timeout fuel extra :
  forall page all debug connected st,
    maxImports < page + fuel ->
    pages P (Wd := Wd) env search maxImports sessionId bearer model timeout
          (fuel + extra) page all debug connected st
    = pages P env search maxImports sessionId bearer model timeout
            fuel page all debug connected st.
Proof.
  induction fuel as [|fuel IH]; intros page all debug connected st Hlt.
  - assert (E : (page <=? maxImports) = false) by (apply Nat.leb_gt; lia).
    destruct extra; simpl; rewrite E; reflexivity.
  - simpl. destruct ((page <=? maxImports) && (length all <? maxImports));
      [|reflexivity].
    unfold bind.
    destruct (try_catch _ _ st) as [[[a d|a d c]|e] st1]; try reflexivity.
    apply IH. lia.
Qed.

End Totality.

(* ------------------------------------------------------------------ *)
(** ** Invariants of the page loop *)

Section PageLoop.

Variable P : Platform.
Variable Wd : World.
Variable env : environment.

(** [Inv] holds of the accumulated list, [Frag] of the fragments of one
    answer, [Clean] of the records normalised from them. *)
Variable Inv : list doc -> Prop.
Variable Frag : list value -> Prop.
Variable Clean : list doc -> Prop.

Hypothesis answers :
  forall rq w data parsed l,
    fst (xai_post Wd rq w) = HttpData data ->
    trimToArrayJson P (get (get (get0 (get data "choices")) "message") "content"
                       ||? VStr "") = Some parsed ->
    companies parsed = Some (VArr l) ->
    Frag l.

Hypothesis cleaned :
  forall sessionId fragments connected,
    Frag fragments ->
    yields (fun r => Clean (snd r))
           (clean_page P (Wd := Wd) env sessionId fragments connected []).

Hypothesis appended :
  forall all clean, Inv all -> Clean clean -> Inv (all ++ novel all clean).

Lemma page_body_invariant search sessionId bearer model timeout page all debug connected :
  Inv all ->
  yields (fun s => Inv (step_list s))
         (page_body P (Wd := Wd) env search sessionId bearer model timeout
                    page all debug connected).
Proof using answers cleaned appended.
  intro HI. unfold page_body.
  eapply yields_bind; [apply yields_lift; intros ? _; exact I | intros prompt _].
  eapply yields_bind; [apply yields_http | intros data (w & Hdata)].
  eapply yields_bind.
  { apply yields_lift with (Post := fun parsed =>
      trimToArrayJson P (get (get (get0 (get data "choices")) "message") "content"
                         ||? VStr "") = Some parsed).
    intros a Ha. exact Ha. }
  intros parsed Hparsed. cbv beta in Hparsed.
  destruct (companies parsed) as [[| | | | | [|f fs] |]|] eqn:Hc;
    try (eapply yields_bind; [apply yields_lift; intros ? _; exact I |];
         intros; apply yields_ret; exact HI).
  eapply yields_bind.
  { apply cleaned. eapply answers; [exact Hdata | exact Hparsed | exact Hc]. }
  intros r Hr. simpl in Hr.
  pose proof (appended HI Hr) as Hn.
  destruct (novel all (snd r)); apply yields_ret; exact Hn.
Qed.

Lemma pages_invariant search maxImports sessionId bearer model timeout fuel :
  forall page all debug connected,
    Inv all ->
    yields (fun r => Inv (fst r))
           (pages P (Wd := Wd) env search maxImports sessionId bearer model timeout
                  fuel page all debug connected).
Proof using answers cleaned appended.
  induction fuel as [|fuel IH]; intros page all debug connected HI; simpl;
    destruct ((page <=? maxImports) && (length all <? maxImports));
    try (apply yields_ret; exact HI).
  eapply yields_bind.
  - apply yields_try with (Post := fun s => Inv (step_list s)).
    + now apply page_body_invariant.
    + intro. apply yields_ret. exact HI.
  - intros [a d|a d c] Hs; [apply yields_ret; exact Hs | apply IH; exact Hs].
Qed.

Lemma callXAI_invariant search maxImports timeoutMs sessionId :
  Inv [] ->
  yields (fun r => Inv (fst r))
         (callXAI P (Wd := Wd) env search maxImports timeoutMs sessionId).
Proof using answers cleaned appended.
  intro H0. unfold callXAI.
  destruct (XAI_API_KEY env) as [k|]; [|apply yields_throw].
  destruct (str_nonempty k); [|apply yields_throw].
  now apply pages_invariant.
Qed.

End PageLoop.

(* ------------------------------------------------------------------ *)
(** ** Parallel coordinate lists *)

Section Coordinates.

Variable P : Platform.
Variable Wd : World.
Variable env : environment.

Lemma geocodeLocation_down (location : value) :
  geocoding_down Wd ->
  yields (fun p => p = origin00) (geocodeLocation P (Wd := Wd) env location).
Proof.
  intro Hdown. unfold geocodeLocation.
  destruct (GOOGLE_GEOCODING_API_KEY env) as [key|]; [|now apply yields_ret].
  destruct (_ || _); [now apply yields_ret|].
  apply yields_try; [|intro; now apply yields_ret].
  eapply yields_bind; [apply yields_lift; intros ? _; exact I | intros text _].
  eapply yields_bind; [apply yields_http|].
  intros data (w & Hw). rewrite Hdown in Hw. discriminate.
Qed.

Lemma geocode_all_lengths (locs : list value) :
  yields (fun r => length (fst r) = length locs /\ length (snd r) = length locs)
         (geocode_all P (Wd := Wd) env locs).
Proof.
  induction locs as [|loc rest IH]; simpl; [now apply yields_ret|].
  eapply yields_bind with (Mid := fun _ => True);
    [intro st; destruct (fst _); exact I | intros m _].
  eapply yields_bind; [exact IH | intros r [H1 H2]].
  apply yields_ret. simpl. now rewrite H1, H2.
Qed.

Lemma geocode_all_down (locs : list value) :
  geocoding_down Wd ->
  yields (fun r => all_zero (fst r) /\ all_zero (snd r))
         (geocode_all P (Wd := Wd) env locs).
Proof.
  intro Hdown. induction locs as [|loc rest IH]; simpl.
  - apply yields_ret. split; constructor.
  - eapply yields_bind; [now apply geocodeLocation_down | intros m ->].
    eapply yields_bind; [exact IH | intros r [H1 H2]].
    apply yields_ret. split; constructor; auto.
Qed.

(** The three lists of the record are the lists handed to [shape]. *)
Lemma shape_lists company hq manuList manuLats manuLngs sessionId build :
  shape P company hq manuList manuLats manuLngs sessionId = Some build ->
  forall new_id now,
    manufacturing_locations (build new_id now) = manuList
    /\ manu_lats (build new_id now) = manuLats
    /\ manu_lngs (build new_id now) = manuLngs.
Proof.
  unfold shape. intro H.
  repeat match type of H with
         | match ?x with _ => _ end = _ => destruct x; try discriminate
         end.
  inversion H; subst build. intros. repeat split.
Qed.

Lemma normalize_coordinates (sessionId company : value) :
  yields (coordinates_ok Wd) (normalize P (Wd := Wd) env sessionId company).
Proof.
  unfold normalize.
  eapply yields_bind with (Mid := fun _ => True);
    [intro st; destruct (fst _); exact I | intros hq _].
  eapply yields_bind with
    (Mid := fun r => (length (fst r) = length (manuList_of company)
                      /\ length (snd r) = length (manuList_of company))
                     /\ (geocoding_down Wd -> all_zero (fst r) /\ all_zero (snd r))).
  { intro st. pose proof (geocode_all_lengths (manuList_of company) st) as H1.
    destruct (fst (geocode_all P env (manuList_of company) st)) as [r|] eqn:E; [|exact I].
    split; [exact H1|]. intro Hdown.
    pose proof (geocode_all_down (manuList_of company) Hdown st) as H2.
    now rewrite E in H2. }
  intros coords [[L1 L2] Hz].
  eapply yields_bind.
  { apply yields_lift with (Post := fun build =>
      shape P company hq (manuList_of company) (fst coords) (snd coords) sessionId
      = Some build).
    intros a Ha; exact Ha. }
  intros build Hb. cbv beta in Hb.
  eapply yields_bind with (Mid := fun _ => True);
    [apply yields_ask; intro; exact I | intros new_id _].
  eapply yields_bind with (Mid := fun _ => True);
    [apply yields_ask; intro; exact I | intros now _].
  apply yields_ret.
  destruct (shape_lists _ _ _ _ _ _ Hb new_id now) as (E1 & E2 & E3).
  unfold coordinates_ok, aligned. rewrite E1, E2, E3. auto.
Qed.

Lemma clean_page_coordinates (sessionId : value) (fragments : list value) :
  forall connected clean,
    Forall (coordinates_ok Wd) clean ->
    yields (fun r => Forall (coordinates_ok Wd) (snd r))
           (clean_page P (Wd := Wd) env sessionId fragments connected clean).
Proof.
  induction fragments as [|company rest IH]; intros connected clean Hc; simpl;
    [now apply yields_ret|].
  eapply yields_bind with (Mid := fun r => Forall (coordinates_ok Wd) (snd r));
    [|intros r Hr; now apply IH].
  destruct (negb (is_object company)); [now apply yields_ret|].
  apply yields_try; [|intro; now apply yields_ret].
  eapply yields_bind; [apply normalize_coordinates | intros d Hd].
  eapply yields_bind with (Mid := fun _ => True);
    [intro st; destruct (fst _); exact I | intros c _].
  apply yields_ret. simpl. apply Forall_app. split; [assumption | now constructor].
Qed.

Lemma novel_incl (all clean : list doc) (d : doc) :
  In d (novel all clean) -> In d clean.
Proof. unfold novel. intro H. apply filter_In in H. tauto. Qed.

End Coordinates.

(** C2: in every record the normaliser returns, and so in every record of
    the list [callXAI] returns, the latitudes, the longitudes and the
    manufacturing locations have the same length; and when no geocoding
    lookup succeeds every latitude and longitude is 0. *)
Theorem manu_coordinates_aligned (P : Platform) (Wd : World) (env : environment) :
  (forall sessionId company (st st' : state Wd) d,
      normalize P env sessionId company st = (Ok d, st') ->
      length (manu_lats d) = length (manufacturing_locations d)
      /\ length (manu_lngs d) = length (manufacturing_locations d)
      /\ (geocoding_down Wd -> all_zero (manu_lats d) /\ all_zero (manu_lngs d)))
  /\ (forall search maxImports timeoutMs sessionId (st st' : state Wd) all debug,
        callXAI P env search maxImports timeoutMs sessionId st = (Ok (all, debug), st') ->
        forall d, In d all ->
          length (manu_lats d) = length (manufacturing_locations d)
          /\ length (manu_lngs d) = length (manufacturing_locations d)
          /\ (geocoding_down Wd -> all_zero (manu_lats d) /\ all_zero (manu_lngs d))).
Proof.
  split.
  - intros sessionId company st st' d Hrun.
    pose proof (@yields_run _ _ _ _ _ _ _
                  (normalize_coordinates P env sessionId company) Hrun) as [[H1 H2] H3].
    auto.
  - intros search maxImports timeoutMs sessionId st st' all debug Hrun d Hd.
    assert (Y : yields (fun r => Forall (coordinates_ok Wd) (fst r))
                       (callXAI P (Wd := Wd) env search maxImports timeoutMs sessionId)).
    { apply callXAI_invariant with (Frag := fun _ => True)
                                   (Clean := Forall (coordinates_ok Wd)).
      - intros; exact I.
      - intros. apply clean_page_coordinates. constructor.
      - intros a c Ha Hc. apply Forall_app. split; [assumption|].
        apply Forall_forall. intros x Hx. apply novel_incl in Hx.
        revert x Hx. now apply Forall_forall.
      - constructor. }
    pose proof (@yields_run _ _ _ _ _ _ _ Y Hrun) as H. simpl in H.
    rewrite Forall_forall in H. destruct (H d Hd) as [[H1 H2] H3]. auto.
Qed.

Lemma manu_coordinates_aligned_witness :
  match callXAI forge_platform live_env (VObj []) 1 VUndef VNull
                (silence [chat forge_text]) with
  | (Ok (all, _), _) =>
      length all = 1
      /\ forall d, In d all ->
           length (manufacturing_locations d) = 2
           /\ length (manu_lats d) = length (manufacturing_locations d)
           /\ length (manu_lngs d) = length (manufacturing_locations d)
           /\ all_zero (manu_lats d) /\ all_zero (manu_lngs d)
  | (Throw _, _) => False
  end.
Proof.
  destruct (callXAI forge_platform live_env (VObj []) 1 VUndef VNull
                    (silence [chat forge_text])) as [[[all dbg]|e] st'] eqn:E.
  - pose proof (proj2 (manu_coordinates_aligned forge_platform silent_world live_env)
                      _ _ _ _ _ _ _ _ E) as H.
    vm_compute in E. inversion E; subst all. split; [reflexivity|].
    intros d Hd. destruct (H d Hd) as (A1 & A2 & A3).
    assert (Hdown : geocoding_down silent_world) by (intros loc key w; reflexivity).
    destruct (A3 Hdown) as [Z1 Z2].
    destruct Hd as [<-|[]]. repeat split; auto.
  - vm_compute in E. discriminate.
Defined.

(* ------------------------------------------------------------------ *)
(** ** Normalising twice *)

Section Repeat.

Variable P : Platform.
Variable Wd : World.
Variable env : environment.
Hypothesis fixed : geocoding_fixed Wd.

Lemma geocodeLocation_fixed (location : value) (st1 st2 : state Wd) :
  fst (geocodeLocation P env location st1) = fst (geocodeLocation P env location st2).
Proof using fixed.
  unfold geocodeLocation.
  destruct (GOOGLE_GEOCODING_API_KEY env) as [key|]; [|reflexivity].
  destruct (_ || _); [reflexivity|].
  destruct (to_string P location) as [text|]; cbn [lift]; [|reflexivity].
  unfold try_catch, http, bind, call, ret.
  pose proof (fixed location key (world st1) (world st2)) as F.
  destruct (geocode_get Wd location key (world st1)) as [r1 w1].
  destruct (geocode_get Wd location key (world st2)) as [r2 w2].
  simpl in F. subst r2. destruct r1; reflexivity.
Qed.

Lemma geocode_all_fixed (locs : list value) :
  forall st1 st2 : state Wd,
    fst (geocode_all P env locs st1) = fst (geocode_all P env locs st2).
Proof using fixed.
  induction locs as [|loc rest IH]; intros st1 st2; [reflexivity|].
  simpl. unfold bind at 1 3.
  pose proof (geocodeLocation_fixed loc st1 st2) as F.
  destruct (geocodeLocation_returns P env loc st1) as (m1 & s1 & E1).
  destruct (geocodeLocation_returns P env loc st2) as (m2 & s2 & E2).
  rewrite E1, E2 in *. simpl in F. inversion F; subst m2.
  unfold bind. specialize (IH s1 s2).
  destruct (geocode_all_returns P env rest s1) as (r1 & t1 & R1).
  destruct (geocode_all_returns P env rest s2) as (r2 & t2 & R2).
  rewrite R1, R2 in *. simpl in IH. inversion IH; subst r2. reflexivity.
Qed.

(** The record built by [shape] depends on the identifier and the
    timestamp through the two generated fields only. *)
Lemma shape_fresh company hq manuList manuLats manuLngs sessionId build :
  shape P company hq manuList manuLats manuLngs sessionId = Some build ->
  forall i n i' n', without_fresh (build i n) = without_fresh (build i' n').
Proof.
  unfold shape. intro H.
  repeat match type of H with
         | match ?x with _ => _ end = _ => destruct x; try discriminate
         end.
  inversion H; subst build. intros. reflexivity.
Qed.

End Repeat.

(** C8: with the geocoding provider answering by the location alone, two
    normalisations of one fragment, from whatever states of the world,
    either both raise or both return records that agree in every field
    except [id] and [created_at]. *)
Theorem normalize_repeatable (P : Platform) (Wd : World) (env : environment)
        (sessionId company : value) (st1 st2 : state Wd) :
  geocoding_fixed Wd ->
  agree (fst (normalize P env sessionId company st1))
        (fst (normalize P env sessionId company st2)).
Proof.
  intro fixed.
  unfold normalize. unfold bind at 1 6.
  pose proof (geocodeLocation_fixed P env fixed (hqLoc_of company) st1 st2) as F.
  destruct (geocodeLocation_returns P env (hqLoc_of company) st1) as (hq1 & s1 & E1).
  destruct (geocodeLocation_returns P env (hqLoc_of company) st2) as (hq2 & s2 & E2).
  rewrite E1, E2 in *. simpl in F. inversion F; subst hq2. clear F.
  unfold bind at 1 5.
  pose proof (geocode_all_fixed P env fixed (manuList_of company) s1 s2) as G.
  destruct (geocode_all_returns P env (manuList_of company) s1) as (c1 & t1 & R1).
  destruct (geocode_all_returns P env (manuList_of company) s2) as (c2 & t2 & R2).
  rewrite R1, R2 in *. simpl in G. inversion G; subst c2. clear G.
  unfold bind at 1 4.
  destruct (shape P company hq1 (manuList_of company) (fst c1) (snd c1) sessionId)
    as [build|] eqn:Hs; simpl; [|exact I].
  unfold bind, ask, ret.
  destruct (fresh_id Wd (world t1)) as [i1 u1].
  destruct (fresh_id Wd (world t2)) as [i2 u2]. simpl.
  destruct (now_iso Wd u1) as [n1 v1].
  destruct (now_iso Wd u2) as [n2 v2]. simpl.
  eapply shape_fresh; eassumption.
Qed.

Lemma normalize_repeatable_witness :
  let first := normalize forge_platform live_env VNull forge_fragment (script austin []) in
  let second := normalize forge_platform live_env VNull forge_fragment (snd first) in
  agree (fst first) (fst second)
  /\ option_map id (match fst first with Ok d => Some d | Throw _ => None end) = Some "0"
  /\ option_map id (match fst second with Ok d => Some d | Throw _ => None end) = Some "1".
Proof.
  split; [|split; reflexivity].
  apply normalize_repeatable. intros loc key w w'. reflexivity.
Defined.

(* ------------------------------------------------------------------ *)
(** ** Deduplication *)

Lemma novel_keys (all clean : list doc) (e c : doc) :
  In e all -> In c (novel all clean) -> same_key e c = false.
Proof.
  unfold novel. intros He Hc. apply filter_In in Hc. destruct Hc as [_ Hc].
  apply negb_true_iff in Hc.
  destruct (same_key e c) eqn:K; [|reflexivity].
  assert (X : existsb (fun e0 => same_key e0 c) all = true)
    by (apply existsb_exists; eauto).
  congruence.
Qed.

Lemma novel_length (all clean : list doc) : length (novel all clean) <= length clean.
Proof. unfold novel. apply filter_length_le. Qed.

Lemma clean_page_length (P : Platform) (Wd : World) (env : environment)
      (sessionId : value) (fragments : list value) :
  forall connected clean,
    yields (fun r => length (snd r) <= length clean + length fragments)
           (clean_page P (Wd := Wd) env sessionId fragments connected clean).
Proof.
  induction fragments as [|company rest IH]; intros connected clean; simpl.
  - apply yields_ret. simpl. lia.
  - eapply yields_bind with (Mid := fun r => length (snd r) <= length clean + 1).
    + destruct (negb (is_object company)); [apply yields_ret; simpl; lia|].
      apply yields_try; [|intro; apply yields_ret; simpl; lia].
      eapply yields_bind with (Mid := fun _ => True);
        [intro st; destruct (fst _); exact I | intros d _].
      eapply yields_bind with (Mid := fun _ => True);
        [intro st; destruct (fst _); exact I | intros c _].
      apply yields_ret. simpl. rewrite length_app. simpl. lia.
    + intros r Hr. eapply yields_weaken; [|apply IH].
      intros a Ha. simpl in *. lia.
Qed.

(** When every page adds at most one record, page-wise novelty is
    pairwise distinctness. *)
Lemma accumulated_distinct (all : list doc) :
  accumulated at_most_one all -> distinct_keys all.
Proof.
  induction 1 as [|all page_docs Hacc IH Hlen Hnew]; unfold distinct_keys in *.
  - intros i j e c _ Hi. destruct i; discriminate.
  - intros i j e c Hij Hi Hj.
    destruct (Nat.lt_ge_cases j (length all)) as [Hlt|Hge].
    + rewrite nth_error_app1 in Hi by lia. rewrite nth_error_app1 in Hj by lia.
      exact (IH i j e c Hij Hi Hj).
    + rewrite nth_error_app2 in Hj by lia.
      assert (Hc : In c page_docs) by (eapply nth_error_In; eauto).
      destruct (Nat.lt_ge_cases i (length all)) as [Hi1|Hi2].
      * rewrite nth_error_app1 in Hi by lia.
        apply Hnew; [eapply nth_error_In; eauto | exact Hc].
      * exfalso. rewrite nth_error_app2 in Hi by lia.
        unfold at_most_one in Hlen.
        assert (j - length all < length page_docs)
          by (apply nth_error_Some; congruence).
        lia.
Qed.

Lemma novel_In (all clean : list doc) (c : doc) :
  In c (novel all clean)
  <-> In c clean /\ forall e, In e all -> same_key e c = false.
Proof.
  unfold novel. rewrite filter_In. split; intros [Hc H]; (split; [exact Hc|]).
  - intros e He. destruct (same_key e c) eqn:K; [|reflexivity].
    apply negb_true_iff in H.
    assert (X : existsb (fun e0 => same_key e0 c) all = true)
      by (apply existsb_exists; eauto).
    congruence.
  - apply negb_true_iff. destruct (existsb (fun e => same_key e c) all) eqn:X;
      [|reflexivity].
    apply existsb_exists in X. destruct X as (e & He & K). rewrite (H e He) in K.
    discriminate.
Qed.

Section Collected.

Variable P : Platform.
Variable Wd : World.
Variable env : environment.

(** One iteration hands on the list it was given, or that list followed
    by the novel records of the page it read. *)
Lemma page_body_collects search sessionId bearer model timeout page all debug connected
      (st st' : state Wd) (s : step) :
  page_body P env search sessionId bearer model timeout page all debug connected st
  = (Ok s, st') ->
  step_list s = all
  \/ exists clean, page_records P Wd env sessionId clean
                   /\ step_list s = all ++ novel all clean.
Proof.
  unfold page_body. unfold bind at 1.
  destruct (buildPrompt P search (map company_name all)) as [prompt|];
    cbn [lift ret throw]; [|discriminate].
  match goal with
  | |- context [http (EvModel ?r)] => set (rq := r)
  end.
  unfold bind at 1. unfold http. unfold bind at 1. unfold call.
  destruct (xai_post Wd rq (world st)) as [[|data] w'] eqn:X; cbn [ret throw];
    [discriminate|].
  set (content := get (get (get0 (get data "choices")) "message") "content" ||? VStr "").
  unfold bind at 1.
  destruct (trimToArrayJson P content) as [parsed|] eqn:T; cbn [lift ret throw];
    [|discriminate].
  destruct (companies parsed) as [[| | | | | [|f fs] |]|] eqn:C;
    try (unfold bind at 1; destruct (to_string P content); cbn [lift ret throw];
         [|discriminate]; intro H; inversion H; left; reflexivity).
  unfold bind at 1.
  destruct (clean_page P env sessionId (f :: fs) connected []
              {| world := w'; trace := trace st ++ [EvModel rq] |})
    as [[r|e] st1] eqn:R; [|discriminate].
  intro H. right. exists (snd r). split.
  - exists rq, (world st), w', data, parsed, (f :: fs), connected,
           (trace st ++ [EvModel rq]), r, st1.
    repeat split; assumption.
  - destruct (novel all (snd r)) eqn:N; cbn [ret] in H; inversion H; reflexivity.
Qed.

Lemma pages_collected search maxImports sessionId bearer model timeout fuel :
  forall page all debug connected (st st' : state Wd) a d,
    collected P Wd env sessionId all ->
    pages P env search maxImports sessionId bearer model timeout
          fuel page all debug connected st = (Ok (a, d), st') ->
    collected P Wd env sessionId a.
Proof.
  induction fuel as [|fuel IH]; intros page all debug connected st st' a d G; simpl;
    destruct ((page <=? maxImports) && (length all <? maxImports));
    try (intro H; inversion H; subst; exact G).
  unfold bind, try_catch.
  destruct (page_body P env search sessionId bearer model timeout page all debug
                      connected st) as [[s|e] st1] eqn:B.
  - assert (Gs : collected P Wd env sessionId (step_list s)).
    { destruct (page_body_collects _ _ _ _ _ _ _ _ _ _ B) as [->|(clean & Hp & ->)];
        [exact G | now apply collected_page]. }
    destruct s as [a0 d0|a0 d0 c0]; cbn [step_list] in Gs.
    + intro H. inversion H; subst. exact Gs.
    + apply IH. exact Gs.
  - cbn [ret]. apply IH. exact G.
Qed.

End Collected.

(** C1 (amended): the list [callXAI] returns is built page by page from
    the answers of the provider: each page adds exactly those of its
    records for which no record collected from an earlier page has the
    same [company_name] (compared with [===]) and the same
    [normalized_domain], whatever the other fields; the records of one
    page are not compared with each other.  When every answer holds at
    most one fragment no two records of the list share a key. *)
Theorem cross_page_dedup (P : Platform) (Wd : World) (env : environment)
        (search : value) (maxImports : nat) (timeoutMs sessionId : value)
        (st st' : state Wd) (all : list doc) (debug : list debug_entry) :
  callXAI P env search maxImports timeoutMs sessionId st = (Ok (all, debug), st') ->
  collected P Wd env sessionId all
  /\ (forall earlier clean c,
        In c (filter (fun c => negb (existsb (fun e => same_key e c) earlier)) clean)
        <-> In c clean
            /\ forall e, In e earlier ->
                         strict_eq (company_name e) (company_name c)
                         && String.eqb (normalized_domain e) (normalized_domain c)
                         = false)
  /\ (one_per_page P Wd -> distinct_keys all).
Proof.
  intro Hrun. split; [|split].
  - unfold callXAI in Hrun.
    destruct (XAI_API_KEY env) as [k|]; [|discriminate].
    destruct (str_nonempty k); [|discriminate].
    eapply pages_collected; [|exact Hrun]. constructor.
  - intros earlier clean c. apply novel_In.
  - intro Hone. apply accumulated_distinct.
    assert (Y : yields (fun r => accumulated at_most_one (fst r))
                       (callXAI P (Wd := Wd) env search maxImports timeoutMs sessionId)).
    { apply callXAI_invariant with (Frag := at_most_one) (Clean := at_most_one).
      - exact Hone.
      - intros sid fragments connected Hf.
        eapply yields_weaken; [|apply clean_page_length].
        intros r Hr. unfold at_most_one in *. simpl in Hr. lia.
      - intros a c Ha Hc. apply acc_page; [assumption | |].
        + unfold at_most_one in *. pose proof (novel_length a c). lia.
        + intros e c0 He Hc0. eapply novel_keys; eauto.
      - constructor. }
    exact (@yields_run _ _ _ _ _ _ _ Y Hrun).
Qed.

(** C1 (as stated) fails inside one page: an answer holding the same
    company twice puts both records in the returned list. *)
Lemma same_page_duplicates_survive :
  match callXAI twin_platform live_env (VObj []) 1 VUndef VNull
                (silence [chat twin_text]) with
  | (Ok (all, _), _) =>
      exists d1 d2, all = [d1; d2]
                    /\ company_name d1 = company_name d2
                    /\ normalized_domain d1 = normalized_domain d2
                    /\ same_key d1 d2 = true
  | (Throw _, _) => False
  end.
Proof. vm_compute. eexists. eexists. repeat split. Qed.

Lemma acme_parses (s : string) (v : value) :
  JSON_parse acme_platform s = Some v -> v = VArr [acme_fragment].
Proof.
  simpl. destruct (String.eqb s acme_text); [|discriminate]. congruence.
Qed.

Lemma acme_object_stage (s : string) (r : extracted) (l : list value) :
  parse_object_stage acme_platform s = Some r ->
  companies r = Some (VArr l) -> at_most_one l.
Proof.
  unfold parse_object_stage. destruct (startsWith s "{"); [|discriminate].
  destruct (JSON_parse acme_platform s) as [obj|] eqn:J; [|discriminate].
  apply acme_parses in J. subst obj. simpl. intros H Hc.
  inversion H; subst r. simpl in Hc. inversion Hc; subst l.
  unfold at_most_one. simpl. lia.
Qed.

Lemma acme_array_stage (s : string) (r : extracted) (l : list value) :
  parse_array_stage acme_platform s = Some r ->
  companies r = Some (VArr l) -> at_most_one l.
Proof.
  unfold parse_array_stage. destruct (startsWith s "["); [|discriminate].
  destruct (JSON_parse acme_platform s) as [arr|] eqn:J; [|discriminate].
  apply acme_parses in J. subst arr. intros H Hc.
  inversion H; subst r. simpl in Hc. inversion Hc; subst l.
  unfold at_most_one. simpl. lia.
Qed.

Lemma acme_slice_stage (s : string) (r : extracted) (l : list value) :
  parse_slice_stage acme_platform s = Some r ->
  companies r = Some (VArr l) -> at_most_one l.
Proof.
  unfold parse_slice_stage.
  destruct (indexOf s "[") as [a|]; [|discriminate].
  destruct (lastIndexOf s "]") as [b|]; [|discriminate].
  destruct (a <? b); [|discriminate].
  destruct (JSON_parse acme_platform (slice s a (b + 1))) as [arr|] eqn:J; [|discriminate].
  apply acme_parses in J. subst arr. intros H Hc.
  inversion H; subst r. simpl in Hc. inversion Hc; subst l.
  unfold at_most_one. simpl. lia.
Qed.

Lemma acme_one_per_page : one_per_page acme_platform silent_world.
Proof.
  intros rq w data parsed l _ Hp Hc. unfold trimToArrayJson in Hp.
  destruct (negb (truthy _)); [inversion Hp; subst parsed; discriminate|].
  destruct (to_string _ _) as [t|]; [|discriminate].
  revert Hp. generalize (match fence_capture (trim t) with
                         | Some inner => trim inner
                         | None => trim t
                         end). intros s Hp.
  destruct (parse_object_stage acme_platform s) as [r|] eqn:O.
  { inversion Hp; subst r. eapply acme_object_stage; eauto. }
  destruct (parse_array_stage acme_platform s) as [r|] eqn:A.
  { inversion Hp; subst r. eapply acme_array_stage; eauto. }
  destruct (parse_slice_stage acme_platform s) as [r|] eqn:S.
  { inversion Hp; subst r. eapply acme_slice_stage; eauto. }
  inversion Hp; subst parsed. discriminate.
Qed.

(** The scenario of the specification: two successive pages both return
    Acme at https://acme.com, and the list holds Acme once. *)
Lemma cross_page_dedup_witness :
  match callXAI acme_platform live_env (VObj []) 2 VUndef VNull
                (silence [chat acme_text; chat acme_text]) with
  | (Ok (all, _), _) =>
      length all = 1 /\ collected acme_platform silent_world live_env VNull all
      /\ distinct_keys all
  | (Throw _, _) => False
  end.
Proof.
  destruct (callXAI acme_platform live_env (VObj []) 2 VUndef VNull
                    (silence [chat acme_text; chat acme_text]))
    as [[[all dbg]|e] st'] eqn:E.
  - destruct (@cross_page_dedup _ _ _ _ _ _ _ _ _ _ _ E) as (A & _ & B).
    split; [|split; [exact A | exact (B acme_one_per_page)]].
    vm_compute in E. inversion E. reflexivity.
  - vm_compute in E. discriminate.
Defined.

(* ------------------------------------------------------------------ *)
(** ** Request validation *)

Section Request.

Variable P : Platform.
Variable Wd : World.
Variable env : environment.

(** A POST request goes through session id, back-compat mapping and
    validation. *)
Lemma run_post (req : request) :
  method req = VStr "POST" ->
  run P (Wd := Wd) env req
  = try_catch
      (sessionId <- lift (derive_sessionId req (read_body P req)) ;;
       body <- lift (backcompat P (read_body P req)) ;;
       match validate P env body with
       | None => ret {| status := 400;
                        body := ErrorBody "Invalid request format: " (Some ZodError) |}
       | Some (maxImports, search, timeoutMs) =>
           respond P env (on (XAI_STUB env)) sessionId maxImports search timeoutMs
       end)
      (fun e => ret {| status := 500; body := ErrorBody "Server error: " (Some e) |}).
Proof.
  intro Hm. unfold run, run_body. rewrite Hm. reflexivity.
Qed.

(** Whatever raises before validation is the 500 answer, and nothing has
    been called. *)
Lemma run_preamble_fails (req : request) (st : state Wd) :
  method req = VStr "POST" ->
  derive_sessionId req (read_body P req) = None
  \/ backcompat P (read_body P req) = None ->
  run P env req st
  = (Ok {| status := 500; body := ErrorBody "Server error: " (Some TypeError) |}, st).
Proof.
  intros Hm H. rewrite (run_post _ Hm). unfold try_catch, bind, lift.
  destruct (derive_sessionId req (read_body P req)); [|reflexivity].
  destruct H as [H|H]; [discriminate|]. rewrite H. reflexivity.
Qed.

Lemma run_invalid (req : request) (st : state Wd) (sessionId body' : value) :
  method req = VStr "POST" ->
  derive_sessionId req (read_body P req) = Some sessionId ->
  backcompat P (read_body P req) = Some body' ->
  validate P env body' = None ->
  run P env req st
  = (Ok {| status := 400;
           body := ErrorBody "Invalid request format: " (Some ZodError) |}, st).
Proof.
  intros Hm Hs Hb Hv. rewrite (run_post _ Hm). unfold try_catch, bind, lift.
  rewrite Hs, Hb. cbn [ret]. rewrite Hv. reflexivity.
Qed.

Lemma run_valid (req : request) (st : state Wd) (sessionId body' : value)
      (maxImports : num) (search : value) (timeoutMs : num) :
  method req = VStr "POST" ->
  derive_sessionId req (read_body P req) = Some sessionId ->
  backcompat P (read_body P req) = Some body' ->
  validate P env body' = Some (maxImports, search, timeoutMs) ->
  run P env req st
  = try_catch (respond P env (on (XAI_STUB env)) sessionId maxImports search timeoutMs)
      (fun e => ret {| status := 500; body := ErrorBody "Server error: " (Some e) |}) st.
Proof.
  intros Hm Hs Hb Hv. rewrite (run_post _ Hm). unfold try_catch, bind, lift.
  rewrite Hs, Hb. cbn [ret]. rewrite Hv. reflexivity.
Qed.

(** The answer to a validated request is never a 400, and a 200 reports
    the validated [maxImports]. *)
Lemma respond_status (sessionId : value) (maxImports : num) (search : value)
      (timeoutMs : num) (st : state Wd) (resp : response) :
  fst (try_catch (respond P env (on (XAI_STUB env)) sessionId maxImports search timeoutMs)
         (fun e => ret {| status := 500; body := ErrorBody "Server error: " (Some e) |}) st)
  = Ok resp ->
  status resp <> 400
  /\ (status resp = 200 -> received_maxImports (body resp) = Some maxImports).
Proof.
  unfold try_catch, respond.
  destruct (on (XAI_STUB env)).
  - cbn [ret fst]. intro H. inversion H; subst resp. simpl. split; [discriminate | auto].
  - unfold bind.
    destruct (callXAI P env search (Z.to_nat (num_to_Z maxImports)) (VNum timeoutMs)
                      sessionId st) as [[r|e] st1].
    + destruct (schema (fst r)); cbn [ret throw fst]; intro H; inversion H; subst resp;
        simpl; split; try discriminate; auto.
    + cbn [ret fst]. intro H. inversion H; subst resp. simpl. split; discriminate.
Qed.

(** What the back-compat mapping does to [maxImports]. *)
Lemma backcompat_maxImports (props : list (string * value)) (body' : value) :
  backcompat P (VObj props) = Some body' ->
  get body' "maxImports"
  = if is_number (get (VObj props) "limit")
       && strict_eq (get (VObj props) "maxImports") VUndef
    then get (VObj props) "limit" else get (VObj props) "maxImports".
Proof.
  unfold backcompat.
  destruct (is_number (get (VObj props) "limit")
            && strict_eq (get (VObj props) "maxImports") VUndef);
    (destruct (truthy (get (VObj props) "queryType") && truthy (get (VObj props) "query"));
     [ destruct (to_string P (get (VObj props) "queryType")) as [qt|]; [|discriminate];
       destruct (queryType_key (toLowerCase qt)) as [key|];
       [ destruct (get (VObj props) "search" ||? VObj []) as [| | | | | |sprops] |] |]);
    intro H; inversion H; subst body';
    rewrite ?get_set_own_other by discriminate; rewrite ?get_set_own_same; reflexivity.
Qed.

Lemma backcompat_object (props : list (string * value)) (body' : value) :
  backcompat P (VObj props) = Some body' -> exists props', body' = VObj props'.
Proof.
  unfold backcompat.
  destruct (is_number (get (VObj props) "limit")
            && strict_eq (get (VObj props) "maxImports") VUndef);
    (destruct (truthy (get (VObj props) "queryType") && truthy (get (VObj props) "query"));
     [ destruct (to_string P (get (VObj props) "queryType")) as [qt|]; [|discriminate];
       destruct (queryType_key (toLowerCase qt)) as [key|];
       [ destruct (get (VObj props) "search" ||? VObj []) as [| | | | | |sprops] |] |]);
    intro H; inversion H; eauto.
Qed.

Lemma requestSchema_maxImports (body : value) (args : request_args) :
  requestSchema body = Some args ->
  z_optional z_maxImports (get body "maxImports")
  = Some (if strict_eq (get body "maxImports") VUndef then None
          else Some (r_maxImports args))
  /\ (get body "maxImports" = VUndef -> r_maxImports args = num_of_Z 1).
Proof.
  unfold requestSchema. destruct body; try discriminate.
  destruct (z_optional z_maxImports _) as [mi|] eqn:M; [|discriminate].
  destruct (z_optional z_int _); [|discriminate].
  destruct (z_optional z_int _); [|discriminate].
  destruct (z_optional z_search _); [|discriminate].
  intro H. inversion H; subst args. clear H. cbn [r_maxImports].
  unfold z_optional in M.
  destruct (get (VObj props) "maxImports") eqn:G;
    try (destruct (z_maxImports _); inversion M; subst; split;
         [reflexivity | discriminate]).
  inversion M; subst. split; reflexivity.
Qed.

Lemma z_maxImports_value (v : value) (n : num) :
  z_maxImports v = Some n -> v = VNum n.
Proof.
  unfold z_maxImports, z_int, z_number.
  destruct v as [| | | m | | |]; try discriminate.
  destruct m; try discriminate;
    match goal with |- context [Number_isInteger ?x] => destruct (Number_isInteger x) end;
    try discriminate;
    match goal with |- context [if ?c then _ else _] => destruct c end;
    try discriminate; intro H; inversion H; reflexivity.
Qed.

End Request.

Lemma strict_eq_undefined (v : value) : v <> VUndef -> strict_eq v VUndef = false.
Proof. destruct v; try reflexivity. congruence. Qed.

(** The schema of [maxImports] accepts exactly the integers of [1, 50]. *)
Lemma z_maxImports_documented (v : value) :
  z_maxImports v = None <-> is_int_1_50 v = false.
Proof.
  unfold z_maxImports, z_int, z_number, is_int_1_50.
  destruct v as [| | | n | | |]; try (split; reflexivity).
  destruct n as [| | |q]; try (split; reflexivity).
  cbn [Number_isInteger].
  destruct (Pos.eqb (Qden (Qred q)) 1); [|split; reflexivity].
  cbn [num_leb num_of_Z andb].
  destruct (Qle_bool (inject_Z 1) q && Qle_bool q (inject_Z 50)); split;
    congruence.
Qed.

Lemma z_int_documented (v : value) : is_int v = true -> z_int v <> None.
Proof.
  unfold z_int, z_number, is_int.
  destruct v as [| | | n | | |]; try discriminate.
  destruct n as [| | |q]; try discriminate. cbn [Number_isInteger].
  intros ->. discriminate.
Qed.

Lemma z_search_fields_documented (sprops : list (string * value)) (keys : list string) :
  forallb (fun k => field_ok is_string k sprops) keys = true ->
  z_search_fields keys sprops <> None.
Proof.
  induction keys as [|k keys IH]; simpl; [discriminate|]. intro H.
  apply andb_true_iff in H. destruct H as [Hk Hr]. unfold field_ok in Hk.
  destruct (lookup k sprops) as [v|]; [|now apply IH].
  destruct v; try discriminate.
  specialize (IH Hr). destruct (z_search_fields keys sprops); [discriminate | congruence].
Qed.

Lemma z_optional_present {A : Type} (f : value -> option A) (v : value) :
  f v <> None -> z_optional f v <> None.
Proof.
  intro H. unfold z_optional. destruct v; try discriminate;
    destruct (f _); try discriminate; congruence.
Qed.

Lemma get_lookup (props : list (string * value)) (k : string) :
  get (VObj props) k = match lookup k props with Some v => v | None => VUndef end.
Proof. reflexivity. Qed.

Lemma field_optional {A : Type} (ty : value -> bool) (f : value -> option A)
      (k : string) (props : list (string * value)) :
  (forall v, ty v = true -> f v <> None) ->
  field_ok ty k props = true ->
  z_optional f (get (VObj props) k) <> None.
Proof.
  intros Hty H. unfold field_ok in H. rewrite get_lookup.
  destruct (lookup k props) as [v|]; [|discriminate].
  apply z_optional_present. auto.
Qed.

Lemma requestSchema_documented (props : list (string * value)) :
  documented_request props = true -> requestSchema (VObj props) <> None.
Proof.
  unfold documented_request. intro H.
  repeat (apply andb_true_iff in H; destruct H as [H ?]).
  unfold requestSchema.
  pose proof (@field_optional _ is_int_1_50 z_maxImports "maxImports" props) as F1.
  pose proof (@field_optional _ is_int z_int "timeout_ms" props z_int_documented) as F2.
  pose proof (@field_optional _ is_int z_int "timeoutMs" props z_int_documented) as F3.
  pose proof (@field_optional _ is_search z_search "search" props) as F4.
  destruct (z_optional z_maxImports (get (VObj props) "maxImports")).
  2:{ exfalso. apply F1; auto. intros v Hv Hz.
      apply z_maxImports_documented in Hz. congruence. }
  destruct (z_optional z_int (get (VObj props) "timeout_ms")); [|exfalso; now apply F2].
  destruct (z_optional z_int (get (VObj props) "timeoutMs")); [|exfalso; now apply F3].
  destruct (z_optional z_search (get (VObj props) "search")); [discriminate|].
  exfalso. apply F4; auto. intros v Hv.
  destruct v as [| | | | | |sprops]; try discriminate.
  unfold is_search in Hv. unfold z_search.
  pose proof (z_search_fields_documented sprops search_keys Hv) as Z.
  destruct (z_search_fields search_keys sprops); [discriminate | congruence].
Qed.

Lemma validate_schema (P : Platform) (env : environment) (body : value) :
  validate P env body = None <-> requestSchema body = None.
Proof.
  unfold validate. destruct (requestSchema body); split; congruence.
Qed.

Lemma backcompat_no_legacy (P : Platform) (props : list (string * value)) :
  no_legacy (VObj props) = true -> backcompat P (VObj props) = Some (VObj props).
Proof.
  unfold no_legacy, backcompat. intro H. apply andb_true_iff in H.
  destruct H as [H1 H2]. apply negb_true_iff in H1. apply negb_true_iff in H2.
  now rewrite H1, H2.
Qed.

(** C7 (amended): a POST request whose body carries a [maxImports] outside
    the integers of [1, 50] is answered without any call to the model, the
    geocoder or the store, and leaves the world as it was; the answer is the
    400 whenever the steps before validation complete, and is never anything
    but a 400 or a 500.  When [maxImports] is absent a 200 answer reports
    the legacy [limit] if that is a number, and 1 otherwise. *)
Theorem maxImports_gate (P : Platform) (Wd : World) (env : environment)
        (req : request) (st : state Wd) (props : list (string * value)) :
  method req = VStr "POST" ->
  read_body P req = VObj props ->
  (forall v, lookup "maxImports" props = Some v -> v <> VUndef ->
             is_int_1_50 v = false ->
             exists resp,
               run P env req st = (Ok resp, st)
               /\ (status resp = 400 \/ status resp = 500)
               /\ (preamble_completes P req -> status resp = 400))
  /\ (get (VObj props) "maxImports" = VUndef ->
      forall resp, fst (run P env req st) = Ok resp -> status resp = 200 ->
                   received_maxImports (body resp)
                   = Some (match get (VObj props) "limit" with
                           | VNum n => n
                           | _ => num_of_Z 1
                           end)).
Proof.
  intros Hm Hb. unfold preamble_completes. rewrite Hb.
  destruct (derive_sessionId req (VObj props)) as [sid|] eqn:Hs.
  2:{ pose proof (@run_preamble_fails P Wd env req st Hm) as R.
      rewrite Hb, Hs in R. specialize (R (or_introl eq_refl)). split.
      - intros v _ _ _. eexists. split; [exact R|]. split; [right; reflexivity|].
        intros [X _]. congruence.
      - intros _ resp Hr. rewrite R in Hr. inversion Hr; subst resp. discriminate. }
  destruct (backcompat P (VObj props)) as [body'|] eqn:Hc.
  2:{ pose proof (@run_preamble_fails P Wd env req st Hm) as R.
      rewrite Hb, Hc in R. specialize (R (or_intror eq_refl)). split.
      - intros v _ _ _. eexists. split; [exact R|]. split; [right; reflexivity|].
        intros [_ X]. congruence.
      - intros _ resp Hr. rewrite R in Hr. inversion Hr; subst resp. discriminate. }
  pose proof (backcompat_maxImports _ _ Hc) as Hmi.
  destruct (backcompat_object _ _ Hc) as (props' & ->).
  split.
  - intros v Hv Hne Hbad.
    assert (G : get (VObj props) "maxImports" = v) by (rewrite get_lookup, Hv; reflexivity).
    rewrite G, (strict_eq_undefined Hne), andb_false_r in Hmi.
    assert (V : validate P env (VObj props') = None).
    { apply validate_schema. unfold requestSchema. rewrite Hmi.
      apply z_maxImports_documented in Hbad.
      unfold z_optional. destruct v; try congruence; now rewrite Hbad. }
    eexists. split.
    + apply (@run_invalid P Wd env req st sid (VObj props')); auto; now rewrite Hb.
    + split; [left; reflexivity | reflexivity].
  - intros Habs resp Hr H200.
    destruct (validate P env (VObj props')) as [[[mi se] t]|] eqn:V.
    2:{ rewrite (@run_invalid P Wd env req st sid (VObj props')) in Hr;
          auto; try (now rewrite Hb).
        inversion Hr; subst resp. discriminate. }
    rewrite (@run_valid P Wd env req st sid (VObj props') mi se t) in Hr;
      auto; try (now rewrite Hb).
    destruct (@respond_status _ _ _ _ _ _ _ _ _ Hr) as [_ R]. rewrite (R H200).
    f_equal. unfold validate in V.
    destruct (requestSchema (VObj props')) as [args|] eqn:S; [|discriminate].
    inversion V; subst mi. clear V.
    destruct (requestSchema_maxImports _ S) as [Z D].
    rewrite Habs in Hmi. cbn [strict_eq] in Hmi. rewrite andb_true_r in Hmi.
    destruct (get (VObj props) "limit") as [| | |n| | |] eqn:L;
      cbn [is_number] in Hmi; try (now apply D).
    rewrite Hmi in Z. cbn [strict_eq z_optional] in Z.
    destruct (z_maxImports (VNum n)) as [m|] eqn:E; [|discriminate].
    apply z_maxImports_value in E. inversion Z. congruence.
Qed.

Lemma maxImports_gate_witness :
  run empty_platform live_env (post zero_imports) (silence [])
  = (Ok {| status := 400; body := ErrorBody "Invalid request format: " (Some ZodError) |},
     silence []).
Proof.
  destruct (proj1 (@maxImports_gate empty_platform silent_world live_env
                     (post zero_imports) (silence [])
                     [("maxImports", VNum (num_of_Z 0))] eq_refl eq_refl)
                  (VNum (num_of_Z 0)) eq_refl ltac:(discriminate) eq_refl)
    as (resp & R & _ & H400).
  rewrite R. f_equal.
  vm_compute in R. inversion R. reflexivity.
Defined.

(** C7 (as stated) fails on its default: with [maxImports] absent and the
    legacy [limit] set to 7, the answer reports 7, not 1. *)
Lemma limit_alias_overrides_default :
  get legacy_limit "maxImports" = VUndef
  /\ run empty_platform stub_env (post legacy_limit) (silence [])
     = (Ok {| status := 200; body := StubBody (num_of_Z 7) (VObj []) |}, silence []).
Proof. split; reflexivity. Qed.

(** A body outside the range is answered 500, not 400, when the legacy
    query pair meets a [search] that is not an object: the property write
    raises before validation.  Nothing is called on this path either. *)
Example primitive_search_raises :
  run empty_platform live_env (post broken_search) (silence [])
  = (Ok {| status := 500; body := ErrorBody "Server error: " (Some TypeError) |},
     silence []).
Proof. reflexivity. Qed.

(** C10: a body whose documented fields, where present, have their
    documented types passes validation whatever else it holds; and when the
    legacy aliases are not in play no such POST request is answered 400. *)
Theorem unknown_fields_accepted (P : Platform) (Wd : World) (env : environment)
        (props : list (string * value)) :
  documented_request props = true ->
  requestSchema (VObj props) <> None
  /\ validate P env (VObj props) <> None
  /\ (forall (req : request) (st : state Wd) (resp : response),
        method req = VStr "POST" ->
        read_body P req = VObj props ->
        no_legacy (VObj props) = true ->
        fst (run P env req st) = Ok resp ->
        status resp <> 400).
Proof.
  intro Hdoc. pose proof (requestSchema_documented _ Hdoc) as S.
  split; [exact S|]. split.
  - intro V. apply validate_schema in V. contradiction.
  - intros req st resp Hm Hb Hleg Hr.
    destruct (derive_sessionId req (read_body P req)) as [sid|] eqn:Hs.
    2:{ rewrite (@run_preamble_fails P Wd env req st Hm (or_introl Hs)) in Hr.
        inversion Hr; subst resp. discriminate. }
    pose proof (backcompat_no_legacy P _ Hleg) as Hc. rewrite <- Hb in Hc at 1.
    destruct (validate P env (VObj props)) as [[[mi se] t]|] eqn:V.
    2:{ apply validate_schema in V. contradiction. }
    rewrite (@run_valid P Wd env req st sid (VObj props) mi se t) in Hr; auto.
    now destruct (@respond_status _ _ _ _ _ _ _ _ _ Hr).
Qed.

Lemma unknown_fields_accepted_witness :
  requestSchema (VObj crowded) <> None
  /\ status (match fst (run empty_platform stub_env (post (VObj crowded)) (silence [])) with
             | Ok resp => resp
             | Throw _ => {| status := 0; body := NoBody |}
             end) = 200.
Proof.
  split.
  - exact (proj1 (@unknown_fields_accepted empty_platform silent_world stub_env
                    crowded eq_refl)).
  - reflexivity.
Defined.

(* ================================================================== *)
(** * Further properties *)

(* ------------------------------------------------------------------ *)
(** ** clampTimeout, case by case *)

Lemma Qltb_false (p q : Q) : (q <= p)%Q -> Qltb p q = false.
Proof.
  intro H. unfold Qltb. apply negb_false_iff. now apply Qle_bool_iff.
Qed.

(** [clampTimeout] passes a number strictly between its bounds through,
    answers the lower bound for every number up to it, the upper bound for
    every number from it on, and the default for whatever is not a finite
    number; clamping its own answer changes nothing. *)
Theorem clampTimeout_saturates :
  (forall q, (inject_Z 10000 < q)%Q -> (q < inject_Z 3600000)%Q ->
             clampTimeout (VNum (Fin q)) = Fin q)
  /\ (forall q, (q <= inject_Z 10000)%Q -> clampTimeout (VNum (Fin q)) = TIMEOUT_MIN)
  /\ (forall q, (inject_Z 3600000 <= q)%Q -> clampTimeout (VNum (Fin q)) = TIMEOUT_MAX)
  /\ (forall v, (forall q, v <> VNum (Fin q)) -> clampTimeout v = TIMEOUT_DEFAULT)
  /\ (forall v, clampTimeout (VNum (clampTimeout v)) = clampTimeout v).
Proof.
  repeat split.
  - intros q Hlo Hhi. unfold clampTimeout. cbn [Number_isFinite negb].
    unfold Math_max, TIMEOUT_MIN, num_of_Z. cbn [num_ltb].
    rewrite (Qltb_intro Hlo).
    unfold Math_min, TIMEOUT_MAX, num_of_Z. cbn [num_ltb].
    now rewrite (Qltb_intro Hhi).
  - intros q Hlo. unfold clampTimeout. cbn [Number_isFinite negb].
    unfold Math_max, TIMEOUT_MIN, num_of_Z. cbn [num_ltb].
    now rewrite (Qltb_false Hlo).
  - intros q Hhi. unfold clampTimeout. cbn [Number_isFinite negb].
    unfold Math_max, TIMEOUT_MIN, num_of_Z. cbn [num_ltb].
    assert (Hlo : (inject_Z 10000 < q)%Q).
    { eapply Qlt_le_trans; [|exact Hhi]. reflexivity. }
    rewrite (Qltb_intro Hlo).
    unfold Math_min, TIMEOUT_MAX, num_of_Z. cbn [num_ltb].
    now rewrite (Qltb_false Hhi).
  - intros v Hv. destruct v as [| | | n | | |]; try reflexivity.
    destruct n as [| | | q]; try reflexivity. now destruct (Hv q).
  - intro v.
    destruct (clampTimeout_cases v) as [H | [H | [H | (q & _ & H & Hlo & Hhi)]]];
      rewrite H; try reflexivity.
    unfold clampTimeout. cbn [Number_isFinite negb].
    unfold Math_max, TIMEOUT_MIN, num_of_Z. cbn [num_ltb].
    rewrite (Qltb_intro Hlo).
    unfold Math_min, TIMEOUT_MAX, num_of_Z. cbn [num_ltb].
    now rewrite (Qltb_intro Hhi).
Qed.

(* ------------------------------------------------------------------ *)
(** ** Trimming and industries *)

Lemma trimStart_head (s t : string) (c : ascii) :
  trimStart s = String c t -> is_ws c = false.
Proof.
  induction s as [|d s IH]; simpl; [discriminate|].
  destruct (is_ws d) eqn:E; [exact IH|]. intro H. inversion H; subst. exact E.
Qed.

Lemma trimEnd_cons (c : ascii) (s : string) :
  trimEnd (String c s)
  = match trimEnd s with
    | EmptyString => if is_ws c then EmptyString else String c EmptyString
    | t => String c t
    end.
Proof. reflexivity. Qed.

Lemma trimEnd_idempotent (s : string) : trimEnd (trimEnd s) = trimEnd s.
Proof.
  induction s as [|c s IH]; [reflexivity|]. rewrite trimEnd_cons.
  destruct (trimEnd s) as [|d t] eqn:E.
  - destruct (is_ws c) eqn:W; [reflexivity|]. rewrite trimEnd_cons. cbn [trimEnd].
    now rewrite W.
  - rewrite trimEnd_cons, IH. reflexivity.
Qed.

Lemma trimEnd_keeps_head (s : string) (c : ascii) :
  is_ws c = false -> exists t, trimEnd (String c s) = String c t.
Proof.
  intro W. rewrite trimEnd_cons. destruct (trimEnd s) as [|d t].
  - rewrite W. now exists EmptyString.
  - now exists (String d t).
Qed.

Lemma trimStart_nonws (s : string) (c : ascii) :
  is_ws c = false -> trimStart (String c s) = String c s.
Proof. intro W. cbn [trimStart]. now rewrite W. Qed.

Lemma trim_idempotent (s : string) : trim (trim s) = trim s.
Proof.
  unfold trim. destruct (trimStart s) as [|c t] eqn:E; [reflexivity|].
  pose proof (@trimStart_head _ _ _ E) as W.
  destruct (@trimEnd_keeps_head t c W) as (u & Hu). rewrite Hu.
  rewrite (@trimStart_nonws u c W), <- Hu. apply trimEnd_idempotent.
Qed.

Lemma dedupe_In (x : string) (l : list string) : In x (dedupe l) <-> In x l.
Proof.
  induction l as [|y l IH]; simpl; [tauto|]. split.
  - intros [H|H]; [now left|]. apply filter_In in H. right. now apply IH.
  - intros [H|H]; [now left|].
    destruct (String.eqb_spec x y) as [->|Hne]; [now left|]. right.
    apply filter_In. split; [now apply IH|].
    apply negb_true_iff. now apply String.eqb_neq.
Qed.

Lemma dedupe_NoDup (l : list string) : NoDup (dedupe l).
Proof.
  induction l as [|y l IH]; simpl; constructor.
  - intro H. apply filter_In in H. destruct H as [_ H].
    rewrite String.eqb_refl in H. discriminate.
  - now apply NoDup_filter.
Qed.

Lemma str_nonempty_true (s : string) : str_nonempty s = true <-> s <> "".
Proof. destruct s; simpl; split; congruence. Qed.

(** The entries [normalizeIndustries] computes from a list of texts. *)
Lemma industries_of_clean (l : list string) (x : string) :
  In x (dedupe (filter str_nonempty (map trim l))) -> clean_entry x.
Proof.
  intro H. apply (proj1 (dedupe_In _ _)) in H. apply filter_In in H.
  destruct H as [H N].
  apply in_map_iff in H. destruct H as (y & <- & _). split.
  - now apply str_nonempty_true.
  - apply trim_idempotent.
Qed.

(** [normalizeIndustries] answers a list without repetition whose entries
    are non-empty and trimmed; from a value that is neither an array nor a
    string it answers the empty list. *)
Theorem normalizeIndustries_clean (P : Platform) (input : value) (l : list string) :
  normalizeIndustries P input = Some l ->
  NoDup l
  /\ Forall clean_entry l
  /\ (Array_isArray input = false -> is_string input = false -> l = []).
Proof.
  intro H. destruct input as [| | b | n | s | items | props];
    try (inversion H; subst l; repeat split; constructor).
  - simpl in H. inversion H; subst l. split; [apply dedupe_NoDup|]. split.
    + apply Forall_forall. intros x. apply industries_of_clean.
    + discriminate.
  - simpl in H. destruct (map_opt (to_string P) items) as [strs|]; [|discriminate].
    simpl in H. inversion H; subst l. split; [apply dedupe_NoDup|]. split.
    + apply Forall_forall. intros x. apply industries_of_clean.
    + discriminate.
Qed.

(** The scenario of the specification. *)
Lemma normalizeIndustries_clean_witness :
  normalizeIndustries empty_platform (VStr "Tools, Hardware; Tools")
  = Some ["Tools"; "Hardware"]
  /\ NoDup ["Tools"; "Hardware"] /\ Forall clean_entry ["Tools"; "Hardware"].
Proof.
  split; [reflexivity|].
  pose proof (@normalizeIndustries_clean empty_platform
                (VStr "Tools, Hardware; Tools") ["Tools"; "Hardware"] eq_refl) as H.
  split; [exact (proj1 H) | exact (proj1 (proj2 H))].
Defined.

(* ------------------------------------------------------------------ *)
(** ** The e-mail pattern *)

Section OneChar.

Local Open Scope string_scope.

Variable a : ascii.

Lemma is_prefix_char (c : ascii) (s : string) :
  is_prefix (String a "") (String c s) = Ascii.eqb a c.
Proof. cbn [is_prefix]. apply andb_true_r. Qed.

Lemma indexOf_char_split (s : string) (i : nat) :
  indexOf s (String a "") = Some i ->
  s = take i s ++ String a (drop (S i) s)
  /\ all_chars (fun c => negb (Ascii.eqb a c)) (take i s) = true.
Proof.
  revert i. induction s as [|c s IH]; intros i; [discriminate|].
  rewrite indexOf_cons, is_prefix_char.
  destruct (Ascii.eqb_spec a c) as [->|Hne].
  - intro H. inversion H; subst i. split; reflexivity.
  - destruct (indexOf s (String a "")) as [j|]; [|discriminate].
    intro H. inversion H; subst i. destruct (IH j eq_refl) as [E F]. split.
    + change (String c s = String c (take j s ++ String a (drop (S j) s))).
      f_equal. exact E.
    + change (negb (Ascii.eqb a c)
              && all_chars (fun c0 => negb (Ascii.eqb a c0)) (take j s) = true).
      rewrite F. destruct (Ascii.eqb_spec a c); [contradiction | reflexivity].
Qed.

Lemma indexOf_char_skip (l r : string) :
  all_chars (fun c => negb (Ascii.eqb a c)) l = true ->
  indexOf (l ++ String a r) (String a "") = Some (String.length l).
Proof.
  induction l as [|c l IH]; intro H.
  - cbn [append]. rewrite indexOf_cons, is_prefix_char, Ascii.eqb_refl. reflexivity.
  - cbn [all_chars] in H. apply andb_true_iff in H. destruct H as [Hc Hl].
    cbn [append]. rewrite indexOf_cons, is_prefix_char.
    apply negb_true_iff in Hc. rewrite Hc, (IH Hl). reflexivity.
Qed.

Lemma contains_char_app (l r : string) : contains (l ++ String a r) (String a "") = true.
Proof.
  unfold contains. induction l as [|c l IH].
  - cbn [append]. rewrite indexOf_cons, is_prefix_char, Ascii.eqb_refl. reflexivity.
  - cbn [append]. rewrite indexOf_cons.
    destruct (is_prefix (String a "") (String c (l ++ String a r))); [reflexivity|].
    destruct (indexOf (l ++ String a r) (String a "")); [reflexivity | discriminate].
Qed.

End OneChar.

Section TakeDrop.

Local Open Scope string_scope.

Lemma take_drop (n : nat) (s : string) : take n s ++ drop n s = s.
Proof.
  revert s. induction n as [|n IH]; intros [|c s]; try reflexivity.
  cbn [take drop append]. now rewrite IH.
Qed.

Lemma length_append (x y : string) :
  String.length (x ++ y) = String.length x + String.length y.
Proof. induction x as [|c x IH]; simpl; [reflexivity | now rewrite IH]. Qed.

Lemma length_take (n : nat) (s : string) :
  String.length (take n s) = Nat.min n (String.length s).
Proof.
  revert s. induction n as [|n IH]; intros [|c s]; try reflexivity.
  cbn [take String.length Nat.min]. now rewrite IH.
Qed.

Lemma take_app_more (n : nat) (x y : string) :
  take (String.length x + n) (x ++ y) = x ++ take n y.
Proof.
  induction x as [|c x IH]; [reflexivity|].
  cbn [String.length append Nat.add take]. now rewrite IH.
Qed.

Lemma drop_app_length (x y : string) : drop (String.length x) (x ++ y) = y.
Proof. induction x as [|c x IH]; [destruct y; reflexivity | exact IH]. Qed.

Lemma drop_past_char (l r : string) (a : ascii) :
  drop (S (String.length l)) (l ++ String a r) = r.
Proof. induction l as [|c l IH]; [destruct r; reflexivity | exact IH]. Qed.

Lemma all_chars_take (p : ascii -> bool) (n : nat) (s : string) :
  all_chars p s = true -> all_chars p (take n s) = true.
Proof.
  revert s. induction n as [|n IH]; intros [|c s] H; try reflexivity.
  cbn [take all_chars] in *. apply andb_true_iff in H. destruct H as [Hc Hs].
  now rewrite Hc, IH.
Qed.

Lemma all_chars_drop (p : ascii -> bool) (n : nat) (s : string) :
  all_chars p s = true -> all_chars p (drop n s) = true.
Proof.
  revert s. induction n as [|n IH]; intros [|c s] H; try assumption.
  cbn [drop all_chars] in *. apply andb_true_iff in H. now apply IH.
Qed.

Lemma all_chars_weaken (p q : ascii -> bool) (s : string) :
  (forall c, p c = true -> q c = true) -> all_chars p s = true -> all_chars q s = true.
Proof.
  intro Hpq. induction s as [|c s IH]; [reflexivity|]. cbn [all_chars]. intro H.
  apply andb_true_iff in H. destruct H as [Hc Hs]. now rewrite (Hpq _ Hc), IH.
Qed.

End TakeDrop.

Lemma email_char_not_at (c : ascii) :
  email_char c = true -> negb (Ascii.eqb "@" c) = true.
Proof.
  unfold email_char. intro H. apply andb_true_iff in H. destruct H as [_ H].
  now rewrite Ascii.eqb_sym.
Qed.

(** [isValidEmail] trims its argument and tests the regular expression
    of the source on what is left, computed here by one scan for the at
    sign: it accepts a text if and only if the trimmed text reads
    local@domain with a dot inside the domain and no white space or second
    at sign anywhere.  White space around the address is accepted; white
    space inside is not. *)
Theorem isValidEmail_language (s : string) :
  isValidEmail s = true <-> email_shape (trim s).
Proof.
  unfold isValidEmail. generalize (trim s). clear s. intro s.
  unfold email_regex, email_shape. split.
  - destruct (indexOf s "@") as [i|] eqn:I; [|discriminate].
    destruct (indexOf_char_split _ _ I) as [E _]. intro H.
    repeat (apply andb_true_iff in H; destruct H as [H ?]).
    rename H0 into Hdot, H1 into Hdom, H2 into Hloc.
    destruct (drop (S i) s) as [|d s'] eqn:D; [discriminate|].
    unfold inner_dot, contains in Hdot.
    destruct (indexOf (take (String.length s' - 1) s') ".") as [j|] eqn:J; [|discriminate].
    destruct (indexOf_char_split _ _ J) as [Et _].
    set (n := String.length s' - 1) in *.
    assert (Hn : drop n s' <> "").
    { intro Z. pose proof (f_equal String.length (take_drop n s')) as L.
      rewrite length_append, Z, length_take in L. simpl in L.
      assert (String.length (take n s') <> 0).
      { rewrite Et, length_append. simpl. lia. }
      rewrite length_take in H0. unfold n in *. lia. }
    exists (take i s), (String d (take j (take n s'))),
           (drop (S j) (take n s') ++ drop n s')%string.
    assert (A : all_chars email_char s' = true).
    { cbn [all_chars] in Hdom. apply andb_true_iff in Hdom. tauto. }
    repeat split.
    + rewrite E at 1. f_equal. f_equal. cbn [append]. f_equal.
      rewrite <- (take_drop n s') at 1. rewrite Et at 1.
      rewrite !append_assoc. reflexivity.
    + now apply str_nonempty_true.
    + discriminate.
    + intro Z. destruct (drop (S j) (take n s')); [simpl in Z; contradiction | discriminate].
    + exact Hloc.
    + cbn [all_chars] in *. apply andb_true_iff in Hdom. destruct Hdom as [Hd _].
      rewrite Hd. simpl. now apply all_chars_take, all_chars_take.
    + rewrite all_chars_app. apply andb_true_iff. split.
      * now apply all_chars_drop, all_chars_take.
      * now apply all_chars_drop.
  - intros (l & b & c & E & Hl & Hb & Hc & Al & Ab & Ac). subst s.
    assert (N : all_chars (fun x => negb (Ascii.eqb "@" x)) l = true).
    { eapply all_chars_weaken; [|exact Al]. apply email_char_not_at. }
    change (l ++ "@" ++ b ++ "." ++ c)%string with (l ++ String "@" (b ++ "." ++ c))%string.
    rewrite (indexOf_char_skip _ _ _ N), take_app_length.
    rewrite drop_past_char.
    apply str_nonempty_true in Hl. rewrite Hl, Al. cbn [andb].
    rewrite all_chars_app, Ab. cbn [andb append all_chars].
    rewrite Ac. cbn [andb].
    assert (D : email_char "." = true) by reflexivity. rewrite D. cbn [andb].
    destruct b as [|d b']; [contradiction|].
    cbn [append inner_dot].
    destruct c as [|e c']; [contradiction|].
    replace (String.length (b' ++ String "." (String e c')) - 1)
      with (String.length (b' ++ ".") + String.length c').
    2:{ rewrite !length_append. simpl. lia. }
    replace (b' ++ String "." (String e c'))%string
      with ((b' ++ ".") ++ String e c')%string by now rewrite append_assoc.
    rewrite take_app_more. rewrite append_assoc. apply contains_char_app.
Qed.

(* ------------------------------------------------------------------ *)
(** ** Reviews and contact information *)

Lemma coerceReview_link (P : Platform) (x : value) (r : review) (l : string) :
  coerceReview P x = Some r -> link r = Some l -> isValidUrl P l = true.
Proof.
  unfold coerceReview.
  destruct x as [| | b | n | s | items | props]; intro H;
    try (inversion H; subst r; discriminate);
    repeat match type of H with
           | context [match to_string P ?v with _ => _ end] =>
               destruct (to_string P v); try discriminate
           end;
    inversion H; subst r; cbn [link];
    match goal with
    | |- context [isValidUrl P ?k] =>
        destruct (isValidUrl P k) eqn:V; [|discriminate]
    end;
    intro E; inversion E; subst l; exact V.
Qed.

Lemma map_opt_length {A B : Type} (f : A -> option B) (l : list A) (l' : list B) :
  map_opt f l = Some l' -> length l' = length l.
Proof.
  revert l'. induction l as [|x l IH]; intros l' H; simpl in H.
  - inversion H. reflexivity.
  - destruct (f x); [|discriminate]. destruct (map_opt f l) as [r|]; [|discriminate].
    inversion H; subst l'. simpl. now rewrite (IH r).
Qed.

Lemma map_opt_Forall {A B : Type} (f : A -> option B) (Q : B -> Prop)
      (l : list A) (l' : list B) :
  (forall x y, f x = Some y -> Q y) -> map_opt f l = Some l' -> Forall Q l'.
Proof.
  intro Hf. revert l'. induction l as [|x l IH]; intros l' H; simpl in H.
  - inversion H. constructor.
  - destruct (f x) as [y|] eqn:E; [|discriminate].
    destruct (map_opt f l) as [r|]; [|discriminate].
    inversion H; subst l'. constructor; eauto.
Qed.

(** Every review [coerceReviews] answers has a text, and a link only if
    the link is an http(s) URL; an array yields at most one review per
    element, a text yields itself as the one review, and everything else
    yields none. *)
Theorem coerceReviews_sound (P : Platform) (rv : value) (l : list review) :
  coerceReviews P rv = Some l ->
  Forall (sound_review P) l
  /\ (forall items, rv = VArr items -> length l <= length items)
  /\ (forall s, rv = VStr s -> s <> "" -> l = [ {| text := s; link := None |} ])
  /\ (Array_isArray rv = false -> is_string rv = false -> l = []).
Proof.
  unfold coerceReviews. destruct (negb (truthy rv)) eqn:T.
  - intro H. inversion H; subst l. repeat split; try constructor.
    + intros; simpl; lia.
    + intros s -> Hs. destruct s; [contradiction | discriminate].
  - destruct rv as [| | b | n | s | items | props]; intro H;
      try (inversion H; subst l; repeat split; try constructor;
           intros; discriminate).
    + inversion H; subst l. repeat split.
      * constructor; [|constructor]. split; [|discriminate].
        simpl. destruct s; [discriminate | discriminate].
      * intros; discriminate.
      * intros s0 E _. now inversion E.
      * discriminate.
    + destruct (map_opt (coerceReview P) items) as [rs|] eqn:E; [|discriminate].
      simpl in H. inversion H; subst l. repeat split.
      * apply Forall_forall. intros r Hr. apply filter_In in Hr.
        destruct Hr as [Hr Ht]. split; [now apply str_nonempty_true|].
        pose proof (map_opt_Forall (coerceReview P)
                      (fun r => forall k, link r = Some k -> isValidUrl P k = true)
                      items (fun x y Hxy k => @coerceReview_link P x y k Hxy) E) as F.
        rewrite Forall_forall in F. now apply F.
      * intros items0 E0. inversion E0; subst items0.
        rewrite <- (map_opt_length _ _ E). apply filter_length_le.
      * intros; discriminate.
      * discriminate.
Qed.

Lemma coerceReviews_sound_witness :
  coerceReviews url_platform sample_reviews
  = Some [ {| text := "great"; link := None |};
           {| text := "ok"; link := Some "https://acme.com" |};
           {| text := "fine"; link := None |} ]
  /\ Forall (sound_review url_platform)
            [ {| text := "great"; link := None |};
              {| text := "ok"; link := Some "https://acme.com" |};
              {| text := "fine"; link := None |} ].
Proof.
  split; [reflexivity|].
  exact (proj1 (@coerceReviews_sound url_platform sample_reviews _ eq_refl)).
Defined.

(** [sanitizeContactInfo] keeps a contact page only if it is an http(s)
    URL and an address only if it matches the e-mail pattern, both trimmed;
    from a value without the two keys it keeps no address. *)
Theorem sanitizeContactInfo_sound (P : Platform) (ci : value) (c : contact_info) :
  sanitizeContactInfo P ci = Some c ->
  sound_contact P c
  /\ (truthy (get ci "contact_email") = false -> contact_email c = None).
Proof.
  unfold sanitizeContactInfo.
  destruct (to_string P (get ci "contact_page_url" ||? VStr "")) as [u|] eqn:U;
    [|discriminate].
  destruct (to_string P (get ci "contact_email" ||? VStr "")) as [e|] eqn:E;
    [|discriminate].
  intro H. inversion H; subst c. clear H. split; [split|].
  - cbn [contact_page_url]. intros u0 H0.
    destruct (isValidUrl P (trim u)) eqn:V; [|discriminate].
    inversion H0; subst u0. split; [exact V | apply trim_idempotent].
  - cbn [contact_email]. intros e0 H0.
    destruct (isValidEmail (trim e)) eqn:V; [|discriminate].
    inversion H0; subst e0. split; [|apply trim_idempotent].
    exact V.
  - intro F. cbn [contact_email]. unfold or_else in E. rewrite F in E.
    simpl in E. inversion E; subst e. reflexivity.
Qed.

Lemma sanitizeContactInfo_sound_witness :
  sanitizeContactInfo url_platform sample_contact
  = Some {| contact_page_url := Some "https://acme.com"; contact_email := None |}
  /\ sound_contact url_platform
       {| contact_page_url := Some "https://acme.com"; contact_email := None |}.
Proof.
  split; [reflexivity|].
  exact (proj1 (@sanitizeContactInfo_sound url_platform sample_contact _ eq_refl)).
Defined.

(* ------------------------------------------------------------------ *)
(** ** The normalised domain *)

Lemma lower_char_idempotent (c : ascii) : lower_char (lower_char c) = lower_char c.
Proof. destruct c as [[] [] [] [] [] [] [] []]; reflexivity. Qed.

Lemma toLowerCase_idempotent (s : string) : toLowerCase (toLowerCase s) = toLowerCase s.
Proof.
  induction s as [|c s IH]; [reflexivity|]. cbn [toLowerCase].
  now rewrite lower_char_idempotent, IH.
Qed.

Lemma toLowerCase_drop (n : nat) (s : string) :
  toLowerCase (drop n s) = drop n (toLowerCase s).
Proof.
  revert s. induction n as [|n IH]; intros [|c s]; try reflexivity.
  cbn [drop toLowerCase]. apply IH.
Qed.

(** [toNormalizedDomain] never answers the empty text and always answers
    lower case; it answers "unknown" for a blank text and for a text the
    URL parser rejects, ignores white space around its argument, and
    otherwise answers the host name in lower case, without one leading
    "www.". *)
Theorem toNormalizedDomain_shape (P : Platform) (s : string) :
  toNormalizedDomain P s <> ""
  /\ toLowerCase (toNormalizedDomain P s) = toNormalizedDomain P s
  /\ toNormalizedDomain P (trim s) = toNormalizedDomain P s
  /\ (trim s = "" -> toNormalizedDomain P s = "unknown")
  /\ (new_URL P (trim s) = None -> toNormalizedDomain P s = "unknown")
  /\ (forall u h, trim s <> "" -> new_URL P (trim s) = Some u ->
                  toLowerCase (URL_hostname P u) = h ->
                  toNormalizedDomain P s
                  = if startsWith h "www."
                    then (if str_nonempty (drop 4 h) then drop 4 h else "unknown")
                    else (if str_nonempty h then h else "unknown")).
Proof.
  unfold toNormalizedDomain. repeat split.
  - destruct (negb (str_nonempty (trim s))); [discriminate|].
    destruct (new_URL P (trim s)) as [u|]; [|discriminate].
    destruct (startsWith _ _);
      match goal with |- context [str_nonempty ?x] => destruct x end;
      discriminate.
  - destruct (negb (str_nonempty (trim s))); [reflexivity|].
    destruct (new_URL P (trim s)) as [u|]; [|reflexivity].
    destruct (startsWith _ _).
    + destruct (drop 4 (toLowerCase (URL_hostname P u))) eqn:D; [reflexivity|].
      cbn [str_nonempty]. rewrite <- D, toLowerCase_drop.
      now rewrite toLowerCase_idempotent.
    + destruct (toLowerCase (URL_hostname P u)) eqn:D; [reflexivity|].
      cbn [str_nonempty]. rewrite <- D. apply toLowerCase_idempotent.
  - now rewrite trim_idempotent.
  - intros ->. reflexivity.
  - intro H. rewrite H. destruct (negb (str_nonempty (trim s))); reflexivity.
  - intros u h Hs Hu <-. apply str_nonempty_true in Hs. rewrite Hs, Hu.
    cbn [negb]. destruct (startsWith _ _); reflexivity.
Qed.

(* ------------------------------------------------------------------ *)
(** ** The extractor without a fence *)

Section Substrings.

Local Open Scope string_scope.

Lemma is_prefix_app (p s r : string) :
  is_prefix p s = true -> is_prefix p (s ++ r) = true.
Proof.
  revert s. induction p as [|a p IH]; intros s H; [reflexivity|].
  destruct s as [|c s]; [discriminate|]. cbn [is_prefix append] in *.
  apply andb_true_iff in H. destruct H as [Hc Hp]. now rewrite Hc, IH.
Qed.

Lemma contains_prefix (s r p : string) :
  contains (s ++ r) p = false -> contains s p = false.
Proof.
  unfold contains. induction s as [|c s IH].
  - cbn [append]. destruct p as [|a p]; [|reflexivity].
    destruct r; discriminate.
  - cbn [append]. rewrite !indexOf_cons.
    destruct (is_prefix p (String c s)) eqn:E.
    + change (String c (s ++ r)) with (String c s ++ r).
      now rewrite (is_prefix_app _ _ r E).
    + destruct (is_prefix p (String c (s ++ r))); [discriminate|].
      destruct (indexOf (s ++ r) p); [discriminate|]. intros _.
      specialize (IH eq_refl). now destruct (indexOf s p).
Qed.

Lemma trimStart_decompose (s : string) : exists w, s = w ++ trimStart s.
Proof.
  induction s as [|c s (w & IH)]; [now exists ""|]. cbn [trimStart].
  destruct (is_ws c); [|now exists ""].
  exists (String c w). cbn [append]. now rewrite <- IH.
Qed.

Lemma trimEnd_decompose (s : string) : exists w, s = trimEnd s ++ w.
Proof.
  induction s as [|c s (w & IH)]; [now exists ""|]. rewrite trimEnd_cons.
  destruct (trimEnd s) as [|d t].
  - destruct (is_ws c).
    + exists (String c s). reflexivity.
    + exists w. cbn [append] in *. now rewrite <- IH.
  - exists w. cbn [append] in *. now rewrite <- IH.
Qed.

Lemma contains_trim (s p : string) : contains s p = false -> contains (trim s) p = false.
Proof.
  intro H. unfold trim.
  destruct (trimStart_decompose s) as (w & E).
  destruct (trimEnd_decompose (trimStart s)) as (w' & E').
  rewrite E in H. apply contains_suffix in H. rewrite E' in H.
  now apply contains_prefix in H.
Qed.

Lemma lastIndexOf_absent (a : ascii) (y : string) :
  all_chars (not_char a) y = true -> lastIndexOf y (String a "") = None.
Proof.
  induction y as [|c y IH]; [reflexivity|]. cbn [all_chars]. intro H.
  apply andb_true_iff in H. destruct H as [Hc Hy].
  cbn [lastIndexOf]. rewrite (IH Hy). rewrite is_prefix_char.
  unfold not_char in Hc. apply negb_true_iff in Hc. now rewrite Hc.
Qed.

Lemma lastIndexOf_char (a : ascii) (x y : string) :
  all_chars (not_char a) y = true ->
  lastIndexOf (x ++ String a y) (String a "") = Some (String.length x).
Proof.
  intro Hy. induction x as [|c x IH].
  - cbn [append lastIndexOf]. rewrite (lastIndexOf_absent _ _ Hy).
    now rewrite is_prefix_char, Ascii.eqb_refl.
  - cbn [append lastIndexOf]. now rewrite IH.
Qed.

Lemma drop_app_exact (x y : string) : drop (String.length x) (x ++ y) = y.
Proof. induction x as [|c x IH]; [destruct y; reflexivity | exact IH]. Qed.

End Substrings.

(** Prose around the array is tolerated: when the trimmed answer holds no
    fence, does not open with a brace, and reads text, array literal, text
    with no opening bracket before the literal and no closing bracket after
    it, the extractor answers what [JSON.parse] makes of the literal. *)
Theorem prose_around_array_extracted (P : Platform) (t pre body post : string)
        (v : value) :
  contains t FENCE = false ->
  trim t = (pre ++ "[" ++ body ++ "]" ++ post)%string ->
  pre <> "" ->
  startsWith pre "{" = false ->
  all_chars (not_char "[") pre = true ->
  all_chars (not_char "]") post = true ->
  JSON_parse P ("[" ++ body ++ "]") = Some v ->
  trimToArrayJson P (VStr t) = Some {| companies := Some v; note := "sliced-array" |}.
Proof.
  intros Hfence Htrim Hpre Hbrace Hopen Hclose Hparse.
  unfold trimToArrayJson.
  assert (T : truthy (VStr t) = true).
  { destruct t; [|reflexivity]. simpl in Htrim.
    destruct pre; [contradiction | discriminate]. }
  rewrite T. cbn [negb to_string].
  assert (F : fence_capture (trim t) = None).
  { unfold fence_capture. pose proof (contains_trim _ _ Hfence) as C.
    unfold contains in C. now destruct (indexOf (trim t) FENCE). }
  rewrite F, Htrim.
  destruct pre as [|c pre']; [contradiction|].
  assert (O : parse_object_stage P (String c pre' ++ "[" ++ body ++ "]" ++ post) = None).
  { unfold parse_object_stage.
    change (startsWith (String c pre' ++ "[" ++ body ++ "]" ++ post) "{")
      with (startsWith (String c pre') "{").
    now rewrite Hbrace. }
  assert (A : parse_array_stage P (String c pre' ++ "[" ++ body ++ "]" ++ post) = None).
  { unfold parse_array_stage.
    change (startsWith (String c pre' ++ "[" ++ body ++ "]" ++ post) "[")
      with (Ascii.eqb "[" c && true).
    cbn [all_chars] in Hopen. apply andb_true_iff in Hopen. destruct Hopen as [H _].
    unfold not_char in H. apply negb_true_iff in H. now rewrite H. }
  rewrite O, A. unfold parse_slice_stage.
  change (String c pre' ++ "[" ++ body ++ "]" ++ post)%string
    with (String c pre' ++ String "[" (body ++ "]" ++ post))%string.
  rewrite (indexOf_char_skip "[" (String c pre') (body ++ "]" ++ post) Hopen).
  replace (String c pre' ++ String "[" (body ++ "]" ++ post))%string
    with ((String c pre' ++ String "[" body) ++ String "]" post)%string.
  2:{ rewrite append_assoc. reflexivity. }
  rewrite (lastIndexOf_char "]" (String c pre' ++ String "[" body) post Hclose).
  rewrite length_append.
  assert (L : (String.length (String c pre') <?
               String.length (String c pre') + String.length (String "[" body)) = true).
  { apply Nat.ltb_lt. simpl. lia. }
  rewrite L. unfold slice.
  replace ((String c pre' ++ String "[" body) ++ String "]" post)%string
    with (String c pre' ++ (String "[" body ++ String "]" post))%string
    by now rewrite append_assoc.
  rewrite drop_app_exact.
  replace (String.length (String c pre') + String.length (String "[" body) + 1
           - String.length (String c pre'))
    with (String.length (String "[" body ++ "]")%string)
    by (rewrite length_append; simpl; lia).
  replace (String "[" body ++ String "]" post)%string
    with ((String "[" body ++ "]") ++ post)%string
    by now rewrite append_assoc.
  rewrite take_app_length.
  change (String "[" body ++ "]")%string with ("[" ++ body ++ "]")%string.
  now rewrite Hparse.
Qed.

Lemma prose_around_array_extracted_witness :
  trimToArrayJson acme_platform (VStr prose_text)
  = Some {| companies := Some (VArr [acme_fragment]); note := "sliced-array" |}.
Proof.
  exact (@prose_around_array_extracted acme_platform prose_text
           "Here is the company you asked for: "
           (json_text "{'company_name':'Acme','url':'https://acme.com'}")
           " Let me know." (VArr [acme_fragment])
           eq_refl eq_refl ltac:(discriminate) eq_refl eq_refl eq_refl eq_refl).
Defined.

(** A bare array, as the prompt asks for it: a valid JSON array that holds
    no fence is extracted to what [JSON.parse] makes of it. *)
Theorem bare_array_extracted (P : Platform) (inner : string) (l : list value) :
  JSON_parse_laws P ->
  JSON_parse P inner = Some (VArr l) ->
  contains inner FENCE = false ->
  trimToArrayJson P (VStr inner)
  = Some {| companies := JSON_parse P inner; note := "array" |}.
Proof.
  intros [Ltrim Larr] Hparse Hno.
  destruct (Larr _ _ Hparse) as (w1 & body & w2 & E & H1 & H2).
  pose proof (Ltrim _ _ Hparse) as Hcore.
  pose proof (contains_trim _ _ Hno) as Hc.
  unfold trimToArrayJson.
  assert (T : truthy (VStr inner) = true).
  { subst inner. destruct w1; reflexivity. }
  rewrite T. cbn [negb to_string].
  assert (F : fence_capture (trim inner) = None).
  { unfold fence_capture. unfold contains in Hc.
    now destruct (indexOf (trim inner) FENCE). }
  rewrite F. rewrite Hparse.
  subst inner. rewrite (@trim_inner w1 body w2 H1 H2) in *.
  change (parse_object_stage P ("[" ++ body ++ "]")%string) with (@None extracted).
  unfold parse_array_stage.
  change (startsWith ("[" ++ body ++ "]") "[") with true. cbv iota.
  now rewrite Hcore.
Qed.

Lemma bare_array_extracted_witness :
  trimToArrayJson acme_platform (VStr acme_text)
  = Some {| companies := Some (VArr [acme_fragment]); note := "array" |}.
Proof.
  exact (@bare_array_extracted acme_platform acme_text [acme_fragment]
           acme_platform_laws eq_refl eq_refl).
Defined.

(* ------------------------------------------------------------------ *)
(** ** Events and outcome together *)

Section Does.

Variable Wd : World.

Lemma does_ret {A : Type} (R : list event -> result A -> Prop) (a : A) :
  R [] (Ok a) -> does R (ret (Wd := Wd) a).
Proof. intros H st. exists []. simpl. now rewrite app_nil_r. Qed.

Lemma does_throw {A : Type} (R : list event -> result A -> Prop) (e : exn) :
  R [] (Throw e) -> does R (throw (Wd := Wd) (A := A) e).
Proof. intros H st. exists []. simpl. now rewrite app_nil_r. Qed.

Lemma does_bind_ret {A B : Type} (R : list event -> result B -> Prop) (a : A)
      (k : A -> M Wd B) :
  does R (k a) -> does R (bind (ret a) k).
Proof. intros H st. exact (H st). Qed.

Lemma does_lift {A : Type} (R : list event -> result A -> Prop) (o : option A) :
  (forall a, o = Some a -> R [] (Ok a)) ->
  (o = None -> R [] (Throw TypeError)) ->
  does R (lift (Wd := Wd) o).
Proof.
  intros Hs Hn. destruct o as [a|]; [apply does_ret | apply does_throw]; auto.
Qed.

Lemma does_bind {A B : Type} (R1 : list event -> result A -> Prop)
      (R2 : A -> list event -> result B -> Prop)
      (R : list event -> result B -> Prop) (m : M Wd A) (k : A -> M Wd B) :
  does R1 m ->
  (forall a, does (R2 a) (k a)) ->
  (forall e1 a e2 r, R1 e1 (Ok a) -> R2 a e2 r -> R (e1 ++ e2) r) ->
  (forall e1 e, R1 e1 (Throw e) -> R e1 (Throw e)) ->
  does R (bind m k).
Proof.
  intros Hm Hk Hok Hthrow st. unfold bind.
  destruct (Hm st) as (e1 & T1 & H1).
  destruct (m st) as [[a|e] st1]; simpl in *.
  - destruct (Hk a st1) as (e2 & T2 & H2).
    exists (e1 ++ e2). split; [now rewrite T2, T1, app_assoc | eauto].
  - exists e1. split; [exact T1 | auto].
Qed.

Lemma does_try {A : Type} (R1 : list event -> result A -> Prop)
      (R2 : exn -> list event -> result A -> Prop)
      (R : list event -> result A -> Prop) (m : M Wd A) (h : exn -> M Wd A) :
  does R1 m ->
  (forall e, does (R2 e) (h e)) ->
  (forall e1 a, R1 e1 (Ok a) -> R e1 (Ok a)) ->
  (forall e1 e e2 r, R1 e1 (Throw e) -> R2 e e2 r -> R (e1 ++ e2) r) ->
  does R (try_catch m h).
Proof.
  intros Hm Hh Hok Hthrow st. unfold try_catch.
  destruct (Hm st) as (e1 & T1 & H1).
  destruct (m st) as [[a|e] st1]; simpl in *.
  - exists e1. split; [exact T1 | auto].
  - destruct (Hh e st1) as (e2 & T2 & H2).
    exists (e1 ++ e2). split; [now rewrite T2, T1, app_assoc | eauto].
Qed.

Lemma does_call {A : Type} (R : list event -> result A -> Prop) (ev : event)
      (f : W Wd -> A * W Wd) :
  (forall w, R [ev] (Ok (fst (f w)))) -> does R (call ev f).
Proof.
  intros H st. unfold call. specialize (H (world st)).
  destruct (f (world st)) as [a w']. exists [ev]. simpl. auto.
Qed.

Lemma does_ask {A : Type} (R : list event -> result A -> Prop) (f : W Wd -> A * W Wd) :
  (forall w, R [] (Ok (fst (f w)))) -> does R (ask f).
Proof.
  intros H st. unfold ask. specialize (H (world st)).
  destruct (f (world st)) as [a w']. exists []. simpl. rewrite app_nil_r. auto.
Qed.

Lemma does_http (R : list event -> result value -> Prop) (ev : event)
      (f : W Wd -> http_result * W Wd) :
  (forall w data, fst (f w) = HttpData data -> R [ev] (Ok data)) ->
  (forall w, fst (f w) = HttpFails -> R [ev] (Throw HttpError)) ->
  does R (http ev f).
Proof.
  intros Hd Hf st. unfold http, bind, call.
  specialize (Hd (world st)). specialize (Hf (world st)).
  destruct (f (world st)) as [[|data] w']; exists [ev]; simpl in *; auto.
Qed.

Lemma does_weaken {A : Type} (R R' : list event -> result A -> Prop) (m : M Wd A) :
  (forall evs r, R evs r -> R' evs r) -> does R m -> does R' m.
Proof. intros H Hm st. destruct (Hm st) as (evs & T & HR). eauto. Qed.

Lemma emits_does {A : Type} (Q : event -> Prop) (m : M Wd A) :
  emits Q m -> does (fun evs _ => Forall Q evs) m.
Proof. intros H st. destruct (H st) as (evs & T & F). eauto. Qed.

End Does.

Lemma model_requests_app (a b : list event) :
  model_requests (a ++ b) = model_requests a ++ model_requests b.
Proof.
  induction a as [|[rq|loc| |d] a IH]; simpl; auto. now rewrite IH.
Qed.

Lemma model_requests_none (evs : list event) :
  Forall (fun ev => is_model_event ev = false) evs -> model_requests evs = [].
Proof.
  induction 1 as [|[rq|loc| |d] evs H _ IH]; simpl; auto. discriminate.
Qed.

(* ------------------------------------------------------------------ *)
(** ** The completion requests of an import *)

Section Requests.

Variable P : Platform.
Variable Wd : World.
Variable env : environment.
Variable search : value.
Variable maxImports : nat.
Variable sessionId : value.
Variable bearer : string.
Variable model : string.
Variable timeout : num.

Lemma clean_page_quiet (fragments : list value) (connected : bool) (clean : list doc) :
  does (fun evs r => model_requests evs = [] /\ exists a, r = Ok a)
       (clean_page P (Wd := Wd) env sessionId fragments connected clean).
Proof.
  intro st.
  destruct (@clean_page_emits P Wd env (fun ev => is_model_event ev = false)
              (fun _ => eq_refl) eq_refl (fun _ => eq_refl)
              sessionId fragments connected clean st) as (evs & T & F).
  exists evs. split; [exact T|]. split; [now apply model_requests_none|].
  destruct (@clean_page_returns P Wd env sessionId fragments connected clean st)
    as (a & st' & E).
  rewrite E. now exists a.
Qed.

(** Without a prompt no request leaves. *)
Lemma page_body_no_prompt page all debug connected :
  buildPrompt P search [] = None ->
  does (fun evs r => evs = [] /\ exists e, r = Throw e)
       (page_body P (Wd := Wd) env search sessionId bearer model timeout
                  page all debug connected).
Proof.
  intros Hp st. unfold page_body.
  change (buildPrompt P search (map company_name all)) with (buildPrompt P search []).
  rewrite Hp. exists []. simpl. rewrite app_nil_r. repeat split. now exists TypeError.
Qed.

Lemma pages_no_prompt fuel :
  buildPrompt P search [] = None ->
  forall page all debug connected,
    does (fun evs _ => model_requests evs = [])
         (pages P (Wd := Wd) env search maxImports sessionId bearer model timeout
                fuel page all debug connected).
Proof.
  intro B. induction fuel as [|fuel IH]; intros; simpl;
    destruct ((page <=? maxImports) && (length all <? maxImports));
    try (apply does_ret; reflexivity).
  eapply does_bind with (R1 := fun evs _ => evs = [])
                        (R2 := fun _ evs _ => model_requests evs = []).
  - eapply does_try with (R2 := fun _ evs _ => evs = []).
    + now apply page_body_no_prompt.
    + intro. apply does_ret. reflexivity.
    + intros e1 a [H _]. exact H.
    + intros e1 e e2 r [-> _] ->. reflexivity.
  - intros [a d|a d c]; [apply does_ret; reflexivity | apply IH].
  - intros e1 a e2 r -> H. exact H.
  - intros e1 e ->. reflexivity.
Qed.

Variable prompt : string.
Hypothesis prompted : buildPrompt P search [] = Some prompt.

(** One iteration sends one request, whatever becomes of the answer; a
    failed call ends the iteration. *)
Lemma page_body_request page all debug connected :
  does (fun evs r =>
          model_requests evs = [page_request bearer model timeout prompt page]
          /\ (provider_down Wd -> evs = [EvModel (page_request bearer model timeout prompt page)]
                                  /\ r = Throw HttpError))
       (page_body P (Wd := Wd) env search sessionId bearer model timeout
                  page all debug connected).
Proof using prompted.
  unfold page_body.
  change (buildPrompt P search (map company_name all)) with (buildPrompt P search []).
  rewrite prompted. unfold lift at 1. apply does_bind_ret.
  fold (page_request bearer model timeout prompt page).
  set (rq := page_request bearer model timeout prompt page).
  eapply does_bind with
    (R1 := fun evs r => evs = [EvModel rq]
                        /\ match r with
                           | Ok _ => ~ provider_down Wd
                           | Throw e => e = HttpError
                           end)
    (R2 := fun _ evs _ => model_requests evs = []).
  - apply does_http.
    + intros w data X. split; [reflexivity|]. intro D.
      specialize (D rq w). rewrite X in D. discriminate.
    + intros w X. split; reflexivity.
  - intro data.
    eapply does_bind with (R1 := fun evs _ => evs = [])
                          (R2 := fun _ evs _ => model_requests evs = []).
    + apply does_lift; auto.
    + intro parsed.
      destruct (companies parsed) as [[| | | | | [|f fs] |]|];
        try (eapply does_bind with (R1 := fun evs _ => evs = [])
                                   (R2 := fun _ evs _ => evs = []);
             [ apply does_lift; auto
             | intro; apply does_ret; reflexivity
             | intros; subst; reflexivity
             | intros; subst; reflexivity ]).
      eapply does_bind with (R2 := fun _ evs _ => evs = []).
      * apply clean_page_quiet.
      * intro r. destruct (novel all (snd r)); apply does_ret; reflexivity.
      * intros e1 a e2 r [H1 _] ->. now rewrite app_nil_r.
      * intros e1 e [H1 _]. exact H1.
    + intros e1 a e2 r -> H. exact H.
    + intros e1 e ->. reflexivity.
  - intros e1 a e2 r [-> Hup] H2. split; [simpl; now rewrite H2 | intro; contradiction].
  - intros e1 e [-> ->]. split; [reflexivity|]. intros _. split; reflexivity.
Qed.

(** The loop sends the requests of consecutive pages, one per iteration. *)
Lemma pages_requests fuel :
  forall page all debug connected,
    does (fun evs _ =>
            exists n, n <= maxImports + 1 - page
                      /\ model_requests evs
                         = map (page_request bearer model timeout prompt) (seq page n))
         (pages P (Wd := Wd) env search maxImports sessionId bearer model timeout
                fuel page all debug connected).
Proof using prompted.
  induction fuel as [|fuel IH]; intros page all debug connected; simpl;
    destruct ((page <=? maxImports) && (length all <? maxImports)) eqn:G;
    try (apply does_ret; exists 0; split; [lia | reflexivity]).
  apply andb_true_iff in G. destruct G as [G _]. apply Nat.leb_le in G.
  eapply does_bind with
    (R1 := fun evs _ => model_requests evs
                        = [page_request bearer model timeout prompt page])
    (R2 := fun _ evs _ =>
             exists n, n <= maxImports + 1 - S page
                       /\ model_requests evs
                          = map (page_request bearer model timeout prompt) (seq (S page) n)).
  - eapply does_try with (R2 := fun _ evs _ => evs = []).
    + apply page_body_request.
    + intro. apply does_ret. reflexivity.
    + intros e1 a [H _]. exact H.
    + intros e1 e e2 r [H _] ->. now rewrite app_nil_r.
  - intros [a d|a d c]; [|apply IH].
    apply does_ret. exists 0. split; [lia | reflexivity].
  - intros e1 a e2 r H1 (n & Hn & H2). exists (S n). split; [lia|].
    rewrite model_requests_app, H1, H2. reflexivity.
  - intros e1 e H1. exists 1. split; [lia|]. rewrite H1. reflexivity.
Qed.

(** A provider that answers no call is asked once per page until the
    pages run out, and nothing is collected. *)
Lemma pages_down fuel :
  provider_down Wd ->
  forall page all debug connected,
    maxImports + 1 - page <= fuel ->
    does (fun evs r =>
            r = Ok (all, debug)
            /\ evs = map (fun p => EvModel (page_request bearer model timeout prompt p))
                         (seq page (if length all <? maxImports
                                    then maxImports + 1 - page else 0)))
         (pages P (Wd := Wd) env search maxImports sessionId bearer model timeout
                fuel page all debug connected).
Proof using prompted.
  intro D. induction fuel as [|fuel IH]; intros page all debug connected Hf; simpl.
  - destruct (page <=? maxImports) eqn:G.
    + apply Nat.leb_le in G. lia.
    + apply Nat.leb_gt in G. cbn [andb]. apply does_ret. split; [reflexivity|].
      replace (maxImports + 1 - page) with 0 by lia. now destruct (_ <? _).
  - destruct (page <=? maxImports) eqn:G; cbn [andb].
    2:{ apply Nat.leb_gt in G. apply does_ret. split; [reflexivity|].
        replace (maxImports + 1 - page) with 0 by lia. now destruct (_ <? _). }
    apply Nat.leb_le in G.
    destruct (length all <? maxImports) eqn:L;
      [|apply does_ret; split; reflexivity].
    eapply does_bind with
      (R1 := fun evs r => evs = [EvModel (page_request bearer model timeout prompt page)]
                          /\ r = Ok (Next all debug connected))
      (R2 := fun s evs r =>
               s = Next all debug connected ->
               r = Ok (all, debug)
               /\ evs = map (fun p => EvModel (page_request bearer model timeout prompt p))
                            (seq (S page) (maxImports + 1 - S page))).
    + eapply does_try with (R2 := fun _ evs r => evs = [] /\ r = Ok (Next all debug connected)).
      * apply page_body_request.
      * intro. apply does_ret. split; reflexivity.
      * intros e1 a [_ H]. destruct (H D) as [_ H']. discriminate.
      * intros e1 e e2 r [_ H] [-> ->]. destruct (H D) as [-> _]. split; reflexivity.
    + intros [a d|a d c].
      * apply does_ret. intro; discriminate.
      * eapply does_weaken; [|apply (IH (S page) a d c); lia].
        intros evs r [Hr He] E. inversion E; subst a d c. rewrite L in He. auto.
    + intros e1 a e2 r [-> E] H2. inversion E; subst a.
      destruct (H2 eq_refl) as [-> ->]. split; [reflexivity|].
      replace (maxImports + 1 - page) with (S (maxImports + 1 - S page)) by lia.
      reflexivity.
    + intros e1 e [_ H]. discriminate.
Qed.

End Requests.

(** An import sends at most [maxImports] completion requests. *)
Lemma callXAI_budget (P : Platform) (Wd : World) (env : environment)
      (search : value) (maxImports : nat) (timeoutMs sessionId : value) :
  does (fun evs _ => length (model_requests evs) <= maxImports)
       (callXAI P (Wd := Wd) env search maxImports timeoutMs sessionId).
Proof.
  unfold callXAI.
  destruct (XAI_API_KEY env) as [key|]; [|apply does_throw; simpl; lia].
  destruct (str_nonempty key); [|apply does_throw; simpl; lia].
  destruct (buildPrompt P search []) as [prompt|] eqn:B.
  - eapply does_weaken; [|apply pages_requests; exact B].
    intros evs r (n & Hn & E). rewrite E, length_map, length_seq. lia.
  - eapply does_weaken; [|apply pages_no_prompt; exact B].
    intros evs r E. rewrite E. simpl. lia.
Qed.

(** In a run of [callXAI] the completion requests are those of pages
    1, 2, ..., n for some n not above [maxImports]: numbered in order, each
    with the configured key and model and with the same prompt, which does
    not depend on what was collected.  When the prompt cannot be built no
    request is sent at all. *)
Theorem callXAI_requests (P : Platform) (Wd : World) (env : environment)
        (search : value) (maxImports : nat) (timeoutMs sessionId : value)
        (key : string) (st : state Wd) :
  XAI_API_KEY env = Some key ->
  str_nonempty key = true ->
  exists evs timeout,
    trace (snd (callXAI P env search maxImports timeoutMs sessionId st)) = trace st ++ evs
    /\ match buildPrompt P search [] with
       | Some prompt =>
           exists n, n <= maxImports
                     /\ model_requests evs
                        = map (page_request key (model_of env) timeout prompt) (seq 1 n)
       | None => model_requests evs = []
       end.
Proof.
  intros K N. unfold callXAI. rewrite K, N. fold (model_of env).
  set (timeout := clampTimeout _).
  destruct (buildPrompt P search []) as [prompt|] eqn:B.
  - destruct (@pages_requests P Wd env search maxImports sessionId key (model_of env)
                timeout prompt B maxImports 1 [] [] false st) as (evs & T & n & Hn & H).
    exists evs, timeout. split; [exact T|]. exists n. split; [lia | exact H].
  - pose proof (@pages_no_prompt P Wd env search maxImports sessionId key (model_of env)
                  timeout maxImports B) as H.
    destruct (H 1 [] [] false st) as (evs & T & E).
    exists evs, timeout. split; [exact T | exact E].
Qed.

Lemma callXAI_requests_witness :
  exists evs timeout,
    trace (snd (callXAI acme_platform live_env (VObj []) 2 VUndef VNull
                        (silence [chat acme_text])))
    = trace (silence [chat acme_text]) ++ evs
    /\ match buildPrompt acme_platform (VObj []) [] with
       | Some prompt =>
           exists n, n <= 2
                     /\ model_requests evs
                        = map (page_request "key" (model_of live_env) timeout prompt) (seq 1 n)
       | None => model_requests evs = []
       end.
Proof.
  exact (@callXAI_requests acme_platform silent_world live_env (VObj []) 2 VUndef VNull
           "key" (silence [chat acme_text]) eq_refl eq_refl).
Defined.

(** A provider that answers no call is asked exactly [maxImports] times,
    page after page, nothing else is called, and the import ends with no
    record and no debug entry. *)
Theorem dead_provider_retried (P : Platform) (Wd : World) (env : environment)
        (search : value) (maxImports : nat) (timeoutMs sessionId : value)
        (key prompt : string) (st : state Wd) :
  provider_down Wd ->
  XAI_API_KEY env = Some key ->
  str_nonempty key = true ->
  buildPrompt P search [] = Some prompt ->
  exists timeout,
    fst (callXAI P env search maxImports timeoutMs sessionId st) = Ok ([], [])
    /\ trace (snd (callXAI P env search maxImports timeoutMs sessionId st))
       = trace st ++ map (fun p => EvModel (page_request key (model_of env) timeout prompt p))
                         (seq 1 maxImports).
Proof.
  intros D K N B. unfold callXAI. rewrite K, N. fold (model_of env).
  set (timeout := clampTimeout _). exists timeout.
  destruct (@pages_down P Wd env search maxImports sessionId key (model_of env)
              timeout prompt B maxImports D 1 [] [] false ltac:(lia) st)
    as (evs & T & R & E).
  split; [exact R|]. rewrite T, E. cbn [length].
  destruct maxImports as [|m]; [reflexivity|].
  replace (0 <? S m) with true by (symmetry; now apply Nat.ltb_lt; lia).
  replace (S m + 1 - 1) with (S m) by lia. reflexivity.
Qed.

Lemma dead_provider_retried_witness :
  exists timeout,
    fst (callXAI empty_platform live_env (VObj []) 3 VUndef VNull offline) = Ok ([], [])
    /\ length (trace (snd (callXAI empty_platform live_env (VObj []) 3 VUndef VNull offline)))
       = 3
    /\ trace (snd (callXAI empty_platform live_env (VObj []) 3 VUndef VNull offline))
       = map (fun p => EvModel (page_request "key" (model_of live_env) timeout
                                  match buildPrompt empty_platform (VObj []) [] with
                                  | Some prompt => prompt
                                  | None => ""
                                  end p))
             (seq 1 3).
Proof.
  destruct (@dead_provider_retried empty_platform offline_world live_env (VObj []) 3
              VUndef VNull "key" _ offline (fun _ _ => eq_refl) eq_refl eq_refl eq_refl)
    as (timeout & R & T).
  exists timeout. split; [exact R|]. split; [rewrite T; reflexivity | exact T].
Defined.

(* ------------------------------------------------------------------ *)
(** ** The records of an import *)

Lemma or_else_truthy (a b : value) : truthy b = true -> truthy (a ||? b) = true.
Proof. unfold or_else. intro H. now destruct (truthy a) eqn:E. Qed.

Lemma normalizeIndustries_entries (P : Platform) (input : value) (l : list string) :
  normalizeIndustries P input = Some l -> NoDup l /\ Forall clean_entry l.
Proof.
  assert (C : forall strs, NoDup (dedupe (filter str_nonempty (map trim strs)))
                           /\ Forall clean_entry (dedupe (filter str_nonempty (map trim strs)))).
  { intro strs. split; [apply dedupe_NoDup|].
    apply Forall_forall. intro x. apply industries_of_clean. }
  destruct input as [| | b | n | s | items | props]; simpl; intro H;
    try (inversion H; subst l; split; constructor).
  - inversion H; subst l. apply C.
  - destruct (map_opt (to_string P) items) as [strs|]; [|discriminate].
    inversion H; subst l. apply C.
Qed.

Lemma coerceReviews_entries (P : Platform) (rv : value) (l : list review) :
  coerceReviews P rv = Some l -> Forall (sound_review P) l.
Proof.
  unfold coerceReviews. destruct (negb (truthy rv)) eqn:T.
  - intro H. inversion H. constructor.
  - destruct rv as [| | b | n | s | items | props]; intro H;
      try (inversion H; subst l; constructor).
    + split; [|discriminate]. destruct s; discriminate.
    + constructor.
    + destruct (map_opt (coerceReview P) items) as [rs|] eqn:E; [|discriminate].
      inversion H; subst l. apply Forall_forall. intros r Hr.
      apply filter_In in Hr. destruct Hr as [Hr Ht].
      split; [now apply str_nonempty_true|].
      pose proof (map_opt_Forall (coerceReview P)
                    (fun r => forall k, link r = Some k -> isValidUrl P k = true)
                    items (fun x y Hxy k => @coerceReview_link P x y k Hxy) E) as F.
      rewrite Forall_forall in F. now apply F.
Qed.

Lemma sanitizeContactInfo_entries (P : Platform) (ci : value) (c : contact_info) :
  sanitizeContactInfo P ci = Some c -> sound_contact P c.
Proof.
  unfold sanitizeContactInfo.
  destruct (to_string P (get ci "contact_page_url" ||? VStr "")) as [u|]; [|discriminate].
  destruct (to_string P (get ci "contact_email" ||? VStr "")) as [e|]; [|discriminate].
  intro H. inversion H; subst c. split; cbn [contact_page_url contact_email].
  - intros u0. destruct (isValidUrl P (trim u)) eqn:V; [|discriminate].
    intro H0. inversion H0; subst u0. split; [exact V | apply trim_idempotent].
  - intros e0. destruct (isValidEmail (trim e)) eqn:V; [|discriminate].
    intro H0. inversion H0; subst e0. split; [exact V | apply trim_idempotent].
Qed.

Section Tidy.

Variable P : Platform.
Variable Wd : World.
Variable env : environment.

Lemma shape_tidy company hq manuList manuLats manuLngs sessionId build :
  shape P company hq manuList manuLats manuLngs sessionId = Some build ->
  forall new_id now, tidy P sessionId (build new_id now).
Proof.
  unfold shape.
  destruct (normalizeIndustries P _) as [inds|] eqn:HI; [|discriminate].
  destruct (keywords_of P company) as [kw|]; [|discriminate].
  destruct (to_string P (get company "url" ||? get company "website" ||? VStr ""))
    as [url0|]; [|discriminate].
  destruct (tagline_of company) as [tag|]; [|discriminate].
  destruct (to_string P (get company "email_address" ||? get company "email" ||? VStr ""))
    as [email|]; [|discriminate].
  destruct (coerceReviews P (get company "reviews")) as [revs|] eqn:HR; [|discriminate].
  destruct (to_string P (get company "notes" ||? VStr "")) as [notes_|]; [|discriminate].
  destruct (sanitizeContactInfo P (get company "company_contact_info")) as [contact|] eqn:HC;
    [|discriminate].
  intro H. inversion H; subst build. clear H. intros new_id now.
  constructor; cbn [company_name headquarters_location industries url email_address notes
                    reviews company_contact_info normalized_domain doc_lat doc_long
                    hq_lat hq_lng session_id].
  - now apply or_else_truthy.
  - now apply or_else_truthy.
  - exact (normalizeIndustries_entries _ _ HI).
  - apply trim_idempotent.
  - apply trim_idempotent.
  - apply trim_idempotent.
  - exact (coerceReviews_entries _ _ HR).
  - exact (sanitizeContactInfo_entries _ _ HC).
  - reflexivity.
  - split; reflexivity.
  - reflexivity.
Qed.

Lemma normalize_tidy (sessionId company : value) :
  yields (tidy P sessionId) (normalize P (Wd := Wd) env sessionId company).
Proof.
  unfold normalize.
  eapply yields_bind with (Mid := fun _ => True);
    [intro st; destruct (fst _); exact I | intros hq _].
  eapply yields_bind with (Mid := fun _ => True);
    [intro st; destruct (fst _); exact I | intros coords _].
  eapply yields_bind.
  { apply yields_lift with (Post := fun build =>
      shape P company hq (manuList_of company) (fst coords) (snd coords) sessionId
      = Some build).
    intros a Ha; exact Ha. }
  intros build Hb. cbv beta in Hb.
  eapply yields_bind with (Mid := fun _ => True);
    [apply yields_ask; intro; exact I | intros new_id _].
  eapply yields_bind with (Mid := fun _ => True);
    [apply yields_ask; intro; exact I | intros now _].
  apply yields_ret. exact (shape_tidy _ _ _ _ _ _ Hb new_id now).
Qed.

Lemma clean_page_tidy (sessionId : value) (fragments : list value) :
  forall connected clean,
    Forall (tidy P sessionId) clean ->
    yields (fun r => Forall (tidy P sessionId) (snd r))
           (clean_page P (Wd := Wd) env sessionId fragments connected clean).
Proof.
  induction fragments as [|company rest IH]; intros connected clean Hc; simpl;
    [now apply yields_ret|].
  eapply yields_bind with (Mid := fun r => Forall (tidy P sessionId) (snd r));
    [|intros r Hr; now apply IH].
  destruct (negb (is_object company)); [now apply yields_ret|].
  apply yields_try; [|intro; now apply yields_ret].
  eapply yields_bind; [apply normalize_tidy | intros d Hd].
  eapply yields_bind with (Mid := fun _ => True);
    [intro st; destruct (fst _); exact I | intros c _].
  apply yields_ret. simpl. apply Forall_app. split; [assumption | now constructor].
Qed.

Lemma pages_tidy search maxImports sessionId bearer model timeout fuel :
  forall page all debug connected,
    Forall (tidy P sessionId) all ->
    yields (fun r => Forall (tidy P sessionId) (fst r))
           (pages P (Wd := Wd) env search maxImports sessionId bearer model timeout
                  fuel page all debug connected).
Proof.
  induction fuel as [|fuel IH]; intros page all debug connected G; simpl;
    destruct ((page <=? maxImports) && (length all <? maxImports));
    try (apply yields_ret; exact G).
  eapply yields_bind with (Mid := fun s => Forall (tidy P sessionId) (step_list s)).
  - apply yields_try; [|intro; apply yields_ret; exact G].
    unfold page_body.
    eapply yields_bind; [apply yields_lift; intros ? _; exact I | intros prompt _].
    eapply yields_bind with (Mid := fun _ => True);
      [intro s0; destruct (fst _); exact I | intros data _].
    eapply yields_bind; [apply yields_lift; intros ? _; exact I | intros parsed _].
    destruct (companies parsed) as [[| | | | | [|f fs] |]|];
      try (eapply yields_bind; [apply yields_lift; intros ? _; exact I |];
           intros; apply yields_ret; exact G).
    eapply yields_bind.
    + apply clean_page_tidy. constructor.
    + intros r Hr. simpl in Hr.
      assert (Hn : Forall (tidy P sessionId) (all ++ novel all (snd r))).
      { apply Forall_app. split; [exact G|].
        apply Forall_forall. intros x Hx. apply novel_incl in Hx.
        revert x Hx. now apply Forall_forall. }
      destruct (novel all (snd r)); apply yields_ret; exact Hn.
  - intros [a d|a d c] Hs; [apply yields_ret; exact Hs | apply IH; exact Hs].
Qed.

End Tidy.

(** Every record [callXAI] returns carries what the field helpers
    guarantee: a name and a headquarters text that are not empty (the
    fall-back is the text Unknown), industries without repetition, trimmed
    and non-empty, a trimmed URL, address and note, reviews with a text and
    with a link only if the link is an http(s) URL, a contact object with
    checked entries, the normalised domain of its own URL, the headquarters
    coordinates under both pairs of keys, and the session id of the call. *)
Theorem callXAI_records_tidy (P : Platform) (Wd : World) (env : environment)
        (search : value) (maxImports : nat) (timeoutMs sessionId : value)
        (st st' : state Wd) (all : list doc) (debug : list debug_entry) :
  callXAI P env search maxImports timeoutMs sessionId st = (Ok (all, debug), st') ->
  Forall (tidy P sessionId) all.
Proof.
  intro Hrun.
  assert (Y : yields (fun r => Forall (tidy P sessionId) (fst r))
                     (callXAI P (Wd := Wd) env search maxImports timeoutMs sessionId)).
  { unfold callXAI.
    destruct (XAI_API_KEY env) as [k|]; [|apply yields_throw].
    destruct (str_nonempty k); [|apply yields_throw].
    apply pages_tidy. constructor. }
  exact (@yields_run _ _ _ _ _ _ _ Y Hrun).
Qed.

Lemma callXAI_records_tidy_witness :
  exists d st',
    callXAI tidy_platform live_env (VObj []) 1 VUndef (VStr "s1") (silence [chat tidy_text])
    = (Ok ([d], []), st')
    /\ industries d = ["Tools"; "Hardware"]
    /\ url d = "https://acme.com"
    /\ normalized_domain d = "acme.com"
    /\ Forall (tidy tidy_platform (VStr "s1")) [d].
Proof.
  eexists. eexists.
  assert (E : callXAI tidy_platform live_env (VObj []) 1 VUndef (VStr "s1")
                      (silence [chat tidy_text])
              = (Ok ([_], []), _)) by (vm_compute; reflexivity).
  split; [exact E|]. split; [reflexivity|]. split; [reflexivity|]. split; [reflexivity|].
  exact (@callXAI_records_tidy tidy_platform silent_world live_env (VObj []) 1 VUndef
           (VStr "s1") _ _ _ _ E).
Defined.

(* ------------------------------------------------------------------ *)
(** ** The answers of the handler *)

Lemma strict_eq_text (v : value) (s : string) :
  strict_eq v (VStr s) = true <-> v = VStr s.
Proof.
  destruct v; simpl; split; try discriminate.
  - intro H. apply String.eqb_eq in H. now subst.
  - intro H. inversion H. apply String.eqb_refl.
Qed.

Ltac table_row :=
  repeat split;
  try first [ discriminate | tauto | congruence
            | intros [? _]; congruence
            | intros [? _]; discriminate
            | intros (_ & ? & ? & ? & _); discriminate
            | intros (_ & ? & ? & _ & ? & _); discriminate ].

(** [run] answers every request, in every state and environment: 204
    exactly for OPTIONS, 405 exactly for every other method that is not
    POST, 400 exactly for a POST whose mapped body fails the request schema,
    and otherwise 200 or 500; whatever is raised on the way is the 500
    answer.  A request answered with 204, 405 or 400 has called no service. *)
Theorem run_always_answers (P : Platform) (Wd : World) (env : environment)
        (req : request) (st : state Wd) :
  exists resp st',
    run P env req st = (Ok resp, st')
    /\ known_status (status resp)
    /\ (status resp = 204 <-> method req = VStr "OPTIONS")
    /\ (status resp = 405 <-> method req <> VStr "OPTIONS" /\ method req <> VStr "POST")
    /\ (status resp = 400 <->
        method req = VStr "POST"
        /\ exists sessionId body',
             derive_sessionId req (read_body P req) = Some sessionId
             /\ backcompat P (read_body P req) = Some body'
             /\ validate P env body' = None)
    /\ (status resp <> 200 -> status resp <> 500 -> st' = st).
Proof.
  unfold run, run_body, try_catch.
  destruct (strict_eq (method req) (VStr "OPTIONS")) eqn:O.
  { apply strict_eq_text in O. rewrite O.
    eexists; eexists; split; [reflexivity|]. cbn [status].
    split; [right; left; reflexivity|].
    table_row. }
  assert (O' : method req <> VStr "OPTIONS").
  { intro H. apply strict_eq_text in H. congruence. }
  destruct (strict_eq (method req) (VStr "POST")) eqn:Q; cbn [negb].
  2:{ assert (Q' : method req <> VStr "POST").
      { intro H. apply strict_eq_text in H. congruence. }
      eexists; eexists; split; [reflexivity|]. cbn [status].
      split; [do 3 right; left; reflexivity|].
      table_row. }
  apply strict_eq_text in Q.
  unfold bind, lift.
  destruct (derive_sessionId req (read_body P req)) as [sid|] eqn:S.
  2:{ eexists; eexists; split; [reflexivity|]. cbn [status].
      split; [do 4 right; reflexivity|].
      table_row. }
  cbn [ret].
  destruct (backcompat P (read_body P req)) as [body'|] eqn:B.
  2:{ eexists; eexists; split; [reflexivity|]. cbn [status].
      split; [do 4 right; reflexivity|].
      table_row. }
  cbn [ret].
  destruct (validate P env body') as [[[maxImports search] timeoutMs]|] eqn:V.
  2:{ eexists; eexists; split; [reflexivity|]. cbn [status].
      split; [do 2 right; left; reflexivity|].
      table_row. exists sid, body'. auto. }
  assert (R : forall resp st',
             status resp = 200 \/ status resp = 500 ->
             (Ok resp, st') = (Ok resp, st')
             /\ known_status (status resp)
             /\ (status resp = 204 <-> method req = VStr "OPTIONS")
             /\ (status resp = 405 <->
                 method req <> VStr "OPTIONS" /\ method req <> VStr "POST")
             /\ (status resp = 400 <->
                 method req = VStr "POST"
                 /\ exists sessionId body'0,
                      Some sid = Some sessionId
                      /\ Some body' = Some body'0
                      /\ validate P env body'0 = None)
             /\ (status resp <> 200 -> status resp <> 500 -> st' = st)).
  { intros resp st' H. split; [reflexivity|].
    split; [destruct H as [H|H]; rewrite H; [left | do 4 right]; reflexivity|].
    split; [split; intro H'; [destruct H as [H|H]; rewrite H in H'; discriminate
                             | congruence]|].
    split; [split; [intro H'; destruct H as [H|H]; rewrite H in H'; discriminate
                   | intros [_ H']; congruence]|].
    split; [split; [intro H'; destruct H as [H|H]; rewrite H in H'; discriminate|]|].
    - intros (_ & s & b & _ & E & V'). inversion E; subst b. congruence.
    - intros H1 H2. destruct H as [H|H]; contradiction. }
  unfold respond. destruct (on (XAI_STUB env)).
  { eexists; eexists. apply R. left; reflexivity. }
  unfold bind.
  destruct (callXAI P env search (Z.to_nat (num_to_Z maxImports)) (VNum timeoutMs) sid st)
    as [[r|e] st1].
  - destruct (schema (fst r)); cbn [ret throw];
      eexists; eexists; apply R; [left | right]; reflexivity.
  - eexists; eexists. apply R. right; reflexivity.
Qed.

(** In stub mode, and in live mode without a provider key, [run] calls no
    service at all: the state of the world and the trace are as before.
    Without the key a live request is never answered 200. *)
Theorem run_calls_nothing (P : Platform) (Wd : World) (env : environment)
        (req : request) (st : state Wd) :
  on (XAI_STUB env) = true \/ env_truthy (XAI_API_KEY env) = false ->
  snd (run P env req st) = st
  /\ (on (XAI_STUB env) = false ->
      forall resp, fst (run P env req st) = Ok resp -> status resp <> 200).
Proof.
  intro H. unfold run, run_body, try_catch.
  destruct (strict_eq (method req) (VStr "OPTIONS"));
    [split; [reflexivity | intros _ resp E; inversion E; discriminate]|].
  destruct (strict_eq (method req) (VStr "POST")); cbn [negb];
    [|split; [reflexivity | intros _ resp E; inversion E; discriminate]].
  unfold bind, lift.
  destruct (derive_sessionId req (read_body P req)) as [sid|];
    [|split; [reflexivity | intros _ resp E; inversion E; discriminate]].
  cbn [ret].
  destruct (backcompat P (read_body P req)) as [body'|];
    [|split; [reflexivity | intros _ resp E; inversion E; discriminate]].
  cbn [ret].
  destruct (validate P env body') as [[[maxImports search] timeoutMs]|];
    [|split; [reflexivity | intros _ resp E; inversion E; discriminate]].
  unfold respond. destruct (on (XAI_STUB env)) eqn:S.
  { split; [reflexivity | discriminate]. }
  destruct H as [H|H]; [discriminate|].
  unfold bind, callXAI. unfold env_truthy in H.
  destruct (XAI_API_KEY env) as [k|];
    [rewrite H|]; (split; [reflexivity | intros _ resp E; inversion E; discriminate]).
Qed.

Lemma run_calls_nothing_witness :
  snd (run empty_platform stub_env (post (VObj [])) (silence [chat acme_text]))
  = silence [chat acme_text]
  /\ snd (run empty_platform no_env (post (VObj [])) (silence [chat acme_text]))
     = silence [chat acme_text]
  /\ forall resp,
       fst (run empty_platform no_env (post (VObj [])) (silence [chat acme_text])) = Ok resp ->
       status resp <> 200.
Proof.
  split; [|split].
  - exact (proj1 (@run_calls_nothing empty_platform silent_world stub_env (post (VObj []))
                    (silence [chat acme_text]) (or_introl eq_refl))).
  - exact (proj1 (@run_calls_nothing empty_platform silent_world no_env (post (VObj []))
                    (silence [chat acme_text]) (or_intror eq_refl))).
  - exact (proj2 (@run_calls_nothing empty_platform silent_world no_env (post (VObj []))
                    (silence [chat acme_text]) (or_intror eq_refl)) eq_refl).
Defined.

Lemma z_maxImports_range (v : value) (n : num) :
  z_maxImports v = Some n -> (1 <= num_to_Z n <= 50)%Z.
Proof.
  unfold z_maxImports, z_int, z_number.
  destruct v as [| | | m | | |]; try discriminate.
  destruct m as [| | |q]; try discriminate.
  cbn [Number_isInteger].
  destruct (Pos.eqb (Qden (Qred q)) 1) eqn:D; [|discriminate].
  destruct (num_leb (num_of_Z 1) (Fin q) && num_leb (Fin q) (num_of_Z 50)) eqn:B;
    [|discriminate].
  intro H. inversion H; subst n. clear H. cbn [num_to_Z].
  apply andb_true_iff in B. destruct B as [B1 B2]. cbn [num_leb num_of_Z] in B1, B2.
  apply Qle_bool_iff in B1. apply Qle_bool_iff in B2.
  apply Pos.eqb_eq in D.
  rewrite <- (Qred_correct q) in B1, B2.
  destruct (Qred q) as [a d]. cbn [Qden Qnum] in *. subst d.
  unfold Qle in B1, B2. cbn in B1, B2. lia.
Qed.

Lemma validate_maxImports (P : Platform) (env : environment) (body : value)
      (maxImports : num) (search : value) (timeoutMs : num) :
  validate P env body = Some (maxImports, search, timeoutMs) ->
  1 <= Z.to_nat (num_to_Z maxImports) <= 50.
Proof.
  unfold validate. destruct (requestSchema body) as [args|] eqn:R; [|discriminate].
  intro H. inversion H; subst. clear H.
  unfold requestSchema in R. destruct body; try discriminate.
  destruct (z_optional z_maxImports _) as [mi|] eqn:M; [|discriminate].
  destruct (z_optional z_int _); [|discriminate].
  destruct (z_optional z_int _); [|discriminate].
  destruct (z_optional z_search _); [|discriminate].
  inversion R; subst args. clear R. cbn [r_maxImports].
  destruct mi as [n|]; [|vm_compute; lia].
  unfold z_optional in M.
  destruct (get (VObj props) "maxImports") eqn:G; try discriminate;
    destruct (z_maxImports _) as [n'|] eqn:Z; try discriminate;
    inversion M; subst n'; apply z_maxImports_range in Z; lia.
Qed.

(** One request to the handler costs at most fifty completion requests,
    and no more than the validated [maxImports] (1 when the field is
    absent), however the provider answers. *)
Theorem run_request_budget (P : Platform) (Wd : World) (env : environment)
        (req : request) (st : state Wd) :
  exists evs,
    trace (snd (run P env req st)) = trace st ++ evs
    /\ length (model_requests evs) <= 50
    /\ (forall body' maxImports search timeoutMs,
          backcompat P (read_body P req) = Some body' ->
          validate P env body' = Some (maxImports, search, timeoutMs) ->
          length (model_requests evs) <= Z.to_nat (num_to_Z maxImports))
    /\ (get (read_body P req) "maxImports" = VUndef ->
        get (read_body P req) "limit" = VUndef ->
        length (model_requests evs) <= 1).
Proof.
  assert (Q : forall resp : response,
             exists evs : list event,
               trace (snd (Ok resp, st)) = trace st ++ evs
               /\ length (model_requests evs) <= 50
               /\ (forall body' maxImports search timeoutMs,
                      backcompat P (read_body P req) = Some body' ->
                      validate P env body' = Some (maxImports, search, timeoutMs) ->
                      length (model_requests evs) <= Z.to_nat (num_to_Z maxImports))
               /\ (get (read_body P req) "maxImports" = VUndef ->
                   get (read_body P req) "limit" = VUndef ->
                   length (model_requests evs) <= 1)).
  { intro resp. exists []. rewrite app_nil_r. simpl. repeat split; intros; lia. }
  unfold run, run_body, try_catch.
  destruct (strict_eq (method req) (VStr "OPTIONS")); [apply Q|].
  destruct (strict_eq (method req) (VStr "POST")); cbn [negb]; [|apply Q].
  unfold bind, lift.
  destruct (derive_sessionId req (read_body P req)) as [sid|]; [|apply Q].
  cbn [ret].
  destruct (backcompat P (read_body P req)) as [body'|] eqn:B; [|apply Q].
  cbn [ret].
  destruct (validate P env body') as [[[maxImports search] timeoutMs]|] eqn:V; [|apply Q].
  unfold respond. destruct (on (XAI_STUB env)); [apply Q|].
  unfold bind.
  destruct (@callXAI_budget P Wd env search (Z.to_nat (num_to_Z maxImports))
              (VNum timeoutMs) sid st) as (evs & T & L).
  pose proof (validate_maxImports _ _ _ V) as Hm.
  exists evs. split.
  - destruct (callXAI P env search (Z.to_nat (num_to_Z maxImports)) (VNum timeoutMs) sid st)
      as [[r|e] st1]; [destruct (schema (fst r))|]; exact T.
  - split; [lia|]. split.
    + intros b m s t E1 E2. inversion E1; subst b. rewrite V in E2.
      inversion E2; subst. exact L.
    + intros G1 G2.
      assert (E : Z.to_nat (num_to_Z maxImports) = 1); [|lia].
      clear - B V G1 G2.
      destruct (read_body P req) as [| | | | | |props] eqn:RB;
        try (simpl in B; inversion B; subst body'; discriminate).
      pose proof (backcompat_maxImports _ _ B) as HM. rewrite G1, G2 in HM.
      cbn [is_number andb] in HM.
      unfold validate in V. destruct (requestSchema body') as [args|] eqn:R; [|discriminate].
      inversion V; subst. destruct (requestSchema_maxImports _ R) as [_ D].
      rewrite (D HM). reflexivity.
Qed.

(* ------------------------------------------------------------------ *)
(** ** The limit on the collected records *)

(** Whatever the extractor hands on was parsed from the answer: it is
    the value of a parsed text or its [companies] member. *)
Lemma trimToArrayJson_parsed (P : Platform) (text : value) (r : extracted) (v : value) :
  trimToArrayJson P text = Some r ->
  companies r = Some v ->
  exists s obj, JSON_parse P s = Some obj /\ (v = obj \/ v = get obj "companies").
Proof.
  unfold trimToArrayJson.
  destruct (negb (truthy text)); [intro H; inversion H; subst r; discriminate|].
  destruct (to_string P text) as [t|]; [|discriminate].
  generalize (match fence_capture (trim t) with
              | Some inner => trim inner
              | None => trim t
              end). intro s.
  unfold parse_object_stage.
  destruct (startsWith s "{" ) eqn:B.
  - destruct (JSON_parse P s) as [obj|] eqn:J.
    + destruct (Array_isArray obj).
      * intros H Hc. inversion H; subst r. simpl in Hc. inversion Hc; subst v. eauto.
      * destruct (truthy obj && Array_isArray (get obj "companies")).
        { intros H Hc. inversion H; subst r. simpl in Hc. inversion Hc; subst v. eauto. }
        unfold parse_array_stage. rewrite J.
        destruct (startsWith s "["); unfold parse_slice_stage;
          destruct (indexOf s "[") as [a|]; destruct (lastIndexOf s "]") as [b|];
          try destruct (a <? b);
          try destruct (JSON_parse P (slice s a (b + 1))) as [arr|] eqn:J2;
          intros H Hc; inversion H; subst r; simpl in Hc;
          try discriminate; inversion Hc; subst v; eauto.
    + unfold parse_array_stage. rewrite J.
      destruct (startsWith s "["); unfold parse_slice_stage;
        destruct (indexOf s "[") as [a|]; destruct (lastIndexOf s "]") as [b|];
        try destruct (a <? b);
        try destruct (JSON_parse P (slice s a (b + 1))) as [arr|] eqn:J2;
        intros H Hc; inversion H; subst r; simpl in Hc;
        try discriminate; inversion Hc; subst v; eauto.
  - unfold parse_array_stage.
    destruct (startsWith s "[").
    + destruct (JSON_parse P s) as [arr|] eqn:J.
      * intros H Hc. inversion H; subst r. simpl in Hc. inversion Hc; subst v. eauto.
      * unfold parse_slice_stage;
          destruct (indexOf s "[") as [a|]; destruct (lastIndexOf s "]") as [b|];
          try destruct (a <? b);
          try destruct (JSON_parse P (slice s a (b + 1))) as [arr|] eqn:J2;
          intros H Hc; inversion H; subst r; simpl in Hc;
          try discriminate; inversion Hc; subst v; eauto.
    + unfold parse_slice_stage;
        destruct (indexOf s "[") as [a|]; destruct (lastIndexOf s "]") as [b|];
        try destruct (a <? b);
        try destruct (JSON_parse P (slice s a (b + 1))) as [arr|] eqn:J2;
        intros H Hc; inversion H; subst r; simpl in Hc;
        try discriminate; inversion Hc; subst v; eauto.
Qed.

Section Cap.

Variable P : Platform.
Variable Wd : World.
Variable env : environment.
Variable k : nat.
Hypothesis answers : fragments_per_page P Wd k.

Lemma page_body_cap search sessionId bearer model timeout page all debug connected :
  yields (fun s => all = step_list s
                   \/ length (step_list s) <= length all + k)
         (page_body P (Wd := Wd) env search sessionId bearer model timeout
                    page all debug connected).
Proof using answers.
  unfold page_body.
  eapply yields_bind; [apply yields_lift; intros ? _; exact I | intros prompt _].
  eapply yields_bind; [apply yields_http | intros data (w & Hdata)].
  eapply yields_bind.
  { apply yields_lift with (Post := fun parsed =>
      trimToArrayJson P (get (get (get0 (get data "choices")) "message") "content"
                         ||? VStr "") = Some parsed).
    intros a Ha. exact Ha. }
  intros parsed Hparsed. cbv beta in Hparsed.
  destruct (companies parsed) as [[| | | | | [|f fs] |]|] eqn:Hc;
    try (eapply yields_bind; [apply yields_lift; intros ? _; exact I |];
         intros; apply yields_ret; left; reflexivity).
  pose proof (answers _ _ Hdata Hparsed Hc) as Hk.
  eapply yields_bind; [apply clean_page_length | intros r Hr].
  assert (Hn : length (all ++ novel all (snd r)) <= length all + k).
  { rewrite length_app. pose proof (novel_length all (snd r)). simpl in Hr, Hk. lia. }
  destruct (novel all (snd r)); apply yields_ret; right; exact Hn.
Qed.

Lemma pages_cap search maxImports sessionId bearer model timeout fuel :
  forall page all debug connected,
    within_cap maxImports k all ->
    yields (fun r => within_cap maxImports k (fst r))
           (pages P (Wd := Wd) env search maxImports sessionId bearer model timeout
                  fuel page all debug connected).
Proof using answers.
  induction fuel as [|fuel IH]; intros page all debug connected G; simpl;
    destruct ((page <=? maxImports) && (length all <? maxImports)) eqn:C;
    try (apply yields_ret; exact G).
  apply andb_true_iff in C. destruct C as [_ C]. apply Nat.ltb_lt in C.
  eapply yields_bind with (Mid := fun s => within_cap maxImports k (step_list s)).
  - apply yields_try; [|intro; apply yields_ret; exact G].
    eapply yields_weaken; [|apply page_body_cap].
    intros s [<-|H]; [exact G|]. right. lia.
  - intros [a d|a d c] Hs; [apply yields_ret; exact Hs | apply IH; exact Hs].
Qed.

End Cap.

(** [maxImports] limits the pages, not the records: when no answer holds
    more than [k] fragments the list [callXAI] returns has at most
    [maxImports - 1 + k] records, and none when [maxImports] is 0.  With
    answers of one fragment, as the prompt asks, the list has at most
    [maxImports] records. *)
Theorem import_cap (P : Platform) (Wd : World) (env : environment)
        (search : value) (maxImports : nat) (timeoutMs sessionId : value)
        (st st' : state Wd) (all : list doc) (debug : list debug_entry) (k : nat) :
  fragments_per_page P Wd k ->
  callXAI P env search maxImports timeoutMs sessionId st = (Ok (all, debug), st') ->
  length all <= maxImports - 1 + k
  /\ (maxImports = 0 -> all = [])
  /\ (k <= 1 -> length all <= maxImports).
Proof.
  intros Hk Hrun.
  assert (Y : yields (fun r => within_cap maxImports k (fst r))
                     (callXAI P (Wd := Wd) env search maxImports timeoutMs sessionId)).
  { unfold callXAI.
    destruct (XAI_API_KEY env) as [key|]; [|apply yields_throw].
    destruct (str_nonempty key); [|apply yields_throw].
    apply pages_cap; [exact Hk | left; reflexivity]. }
  pose proof (@yields_run _ _ _ _ _ _ _ Y Hrun) as H. simpl in H.
  destruct H as [->|[H1 H2]].
  - simpl. repeat split; lia.
  - split; [exact H2|]. split; intro; lia.
Qed.

Lemma twin_parses (s : string) (v : value) :
  JSON_parse twin_platform s = Some v -> v = VArr [acme_fragment; acme_fragment].
Proof.
  simpl. destruct (String.eqb s twin_text); [|discriminate]. congruence.
Qed.

Lemma twin_per_page : fragments_per_page twin_platform silent_world 2.
Proof.
  intros rq w data parsed l _ Hp Hc.
  destruct (trimToArrayJson_parsed _ _ Hp Hc) as (s & obj & J & [E|E]);
    apply twin_parses in J; subst obj.
  - inversion E; subst l. simpl. lia.
  - discriminate.
Qed.

(** One page of two fragments under a limit of one: both are collected. *)
Lemma import_cap_witness :
  exists all debug st',
    callXAI twin_platform live_env (VObj []) 1 VUndef VNull (silence [chat twin_text])
    = (Ok (all, debug), st')
    /\ length all = 2
    /\ length all <= 1 - 1 + 2.
Proof.
  destruct (callXAI twin_platform live_env (VObj []) 1 VUndef VNull
                    (silence [chat twin_text])) as [[[all dbg]|e] st'] eqn:E.
  - exists all, dbg, st'. split; [reflexivity|].
    pose proof (proj1 (@import_cap twin_platform silent_world live_env (VObj []) 1 VUndef
                         VNull _ _ _ _ 2 twin_per_page E)) as H.
    split; [|exact H]. vm_compute in E. inversion E. reflexivity.
  - vm_compute in E. discriminate.
Defined.

(* ------------------------------------------------------------------ *)
(** ** Streaming to the document store *)

Lemma upserted_app (a b : list event) : upserted (a ++ b) = upserted a ++ upserted b.
Proof. induction a as [|[rq|loc| |d] a IH]; simpl; auto. now rewrite IH. Qed.

Lemma connects_app (a b : list event) : connects (a ++ b) = connects a + connects b.
Proof. induction a as [|[rq|loc| |d] a IH]; simpl; auto. Qed.

Lemma no_store_events (evs : list event) :
  Forall no_store_event evs -> upserted evs = [] /\ connects evs = 0.
Proof.
  induction 1 as [|[rq|loc| |d] evs [H1 H2] _ IH]; simpl; auto; discriminate.
Qed.

Section Store.

Variable P : Platform.
Variable Wd : World.
Variable env : environment.

Lemma normalize_no_store (sessionId company : value) :
  does (fun evs _ => upserted evs = [] /\ connects evs = 0)
       (normalize P (Wd := Wd) env sessionId company).
Proof.
  apply does_weaken with (R := fun evs _ => Forall no_store_event evs).
  - intros evs r F. now apply no_store_events.
  - apply emits_does, normalize_emits. intro. split; reflexivity.
Qed.

Section Up.

Hypothesis up : store_up Wd.

Lemma stream_up (d : doc) (connected : bool) :
  does (fun evs r => exists c, r = Ok c /\ upserted evs = [d]
                               /\ connects evs + to_connect c <= to_connect connected)
       (stream (Wd := Wd) d connected).
Proof using up.
  intro st. unfold stream, getCosmosContainer, bind, call, ret.
  destruct connected.
  - cbn. destruct (cosmos_upsert Wd d (world st)) as [ok w'].
    exists [EvUpsert d]. cbn. split; [reflexivity|]. exists true. auto.
  - pose proof (up (world st)) as U.
    destruct (cosmos_connect Wd (world st)) as [c w1]. cbn in U. subst c. cbn.
    destruct (cosmos_upsert Wd d w1) as [ok w'].
    exists [EvConnect; EvUpsert d]. cbn. split; [now rewrite <- app_assoc|].
    exists true. auto.
Qed.

Lemma clean_page_up (sessionId : value) (fragments : list value) :
  forall connected clean,
    does (fun evs r => exists c new, r = Ok (c, clean ++ new) /\ upserted evs = new
                                     /\ connects evs + to_connect c <= to_connect connected)
         (clean_page P (Wd := Wd) env sessionId fragments connected clean).
Proof using up.
  induction fragments as [|company rest IH]; intros connected clean; simpl.
  - apply does_ret. exists connected, []. rewrite app_nil_r. simpl. auto.
  - eapply does_bind with
      (R1 := fun evs r => exists c new, r = Ok (c, clean ++ new) /\ upserted evs = new
                                        /\ connects evs + to_connect c <= to_connect connected)
      (R2 := fun a evs r => exists c new, r = Ok (c, snd a ++ new) /\ upserted evs = new
                                          /\ connects evs + to_connect c <= to_connect (fst a)).
    + destruct (negb (is_object company)).
      { apply does_ret. exists connected, []. rewrite app_nil_r. simpl. auto. }
      eapply does_try with
        (R1 := fun evs r =>
                 match r with
                 | Ok a => exists d, a = (fst a, clean ++ [d]) /\ upserted evs = [d]
                                     /\ connects evs + to_connect (fst a) <= to_connect connected
                 | Throw _ => upserted evs = [] /\ connects evs = 0
                 end)
        (R2 := fun _ evs r => evs = [] /\ r = Ok (connected, clean)).
      * eapply does_bind with
          (R1 := fun evs _ => upserted evs = [] /\ connects evs = 0)
          (R2 := fun d evs r =>
                   exists c, r = Ok (c, clean ++ [d]) /\ upserted evs = [d]
                             /\ connects evs + to_connect c <= to_connect connected).
        -- apply normalize_no_store.
        -- intro d.
           eapply does_bind with
             (R2 := fun c evs r => evs = [] /\ r = Ok (c, clean ++ [d]));
             [ apply stream_up
             | intro c; apply does_ret; split; reflexivity
             | intros e1 c e2 r (c' & E & U & C) [-> ->]; inversion E; subst c';
               rewrite app_nil_r; exists c; auto
             | intros e1 e (c' & E & _); discriminate ].
        -- intros e1 d e2 r [U1 C1] (c & -> & U2 & C2). exists d. cbn [fst].
           rewrite upserted_app, connects_app, U1, C1, U2. auto.
        -- intros e1 e H. exact H.
      * intro. apply does_ret. split; reflexivity.
      * intros e1 [c cl] (d & E & U & C). cbn [fst] in *. inversion E; subst cl.
        exists c, [d]. auto.
      * intros e1 e e2 r [U C] [-> ->]. rewrite app_nil_r.
        exists connected, []. rewrite app_nil_r, U, C. auto.
    + intros [c cl]. apply IH.
    + intros e1 [c1 cl1] e2 r (c & new & E & U1 & C1) (c2 & new2 & -> & U2 & C2).
      inversion E; subst c1 cl1. cbn [fst snd] in *.
      exists c2, (new ++ new2). rewrite <- app_assoc, upserted_app, connects_app, U1, U2.
      split; [reflexivity|]. split; [reflexivity | lia].
    + intros e1 e (c & new & E & _). discriminate.
Qed.

Lemma page_body_up search sessionId bearer model timeout page all debug connected :
  does (fun evs r =>
          match r with
          | Ok s => connects evs + to_connect (step_flag s) <= to_connect connected
                    /\ forall x, In x (step_list s) -> In x all \/ In x (upserted evs)
          | Throw _ => connects evs = 0
          end)
       (page_body P (Wd := Wd) env search sessionId bearer model timeout
                  page all debug connected).
Proof using up.
  unfold page_body.
  eapply does_bind with
    (R1 := fun evs _ => evs = [])
    (R2 := fun _ evs r =>
             match r with
             | Ok s => connects evs + to_connect (step_flag s) <= to_connect connected
                       /\ forall x, In x (step_list s) -> In x all \/ In x (upserted evs)
             | Throw _ => connects evs = 0
             end).
  - apply does_lift; auto.
  - intro prompt.
    eapply does_bind with
      (R1 := fun evs _ => upserted evs = [] /\ connects evs = 0)
      (R2 := fun _ evs r =>
               match r with
               | Ok s => connects evs + to_connect (step_flag s) <= to_connect connected
                         /\ forall x, In x (step_list s) -> In x all \/ In x (upserted evs)
               | Throw _ => connects evs = 0
               end).
    + apply does_http; intros; split; reflexivity.
    + intro data.
      eapply does_bind with
        (R1 := fun evs _ => evs = [])
        (R2 := fun _ evs r =>
                 match r with
                 | Ok s => connects evs + to_connect (step_flag s) <= to_connect connected
                           /\ forall x, In x (step_list s) -> In x all \/ In x (upserted evs)
                 | Throw _ => connects evs = 0
                 end).
      * apply does_lift; auto.
      * intro parsed.
        assert (B : forall note_,
                   does (Wd := Wd) (fun evs r =>
                           match r with
                           | Ok s => connects evs + to_connect (step_flag s)
                                     <= to_connect connected
                                     /\ forall x, In x (step_list s) ->
                                                  In x all \/ In x (upserted evs)
                           | Throw _ => connects evs = 0
                           end)
                        (preview <- lift (to_string P
                                            (get (get (get0 (get data "choices")) "message")
                                                 "content" ||? VStr "")) ;;
                         ret (Break all (debug ++ [ {| dbg_page := page;
                                                       dbg_note := "no-companies-from-model";
                                                       dbg_parseNote := note_;
                                                       dbg_preview := take 140 preview |} ])))).
        { intro note_.
          eapply does_bind with
            (R1 := fun evs _ => evs = [])
            (R2 := fun _ evs r => evs = [] /\ exists a d, r = Ok (Break a d) /\ a = all).
          - apply does_lift; auto.
          - intro. apply does_ret. split; [reflexivity|]. eauto.
          - intros e1 a e2 r -> [-> (a' & d & -> & ->)]. cbn. split; [lia | auto].
          - intros e1 e ->. reflexivity. }
        destruct (companies parsed) as [[| | | | | [|f fs] |]|]; try apply B.
        eapply does_bind with
          (R2 := fun a evs r =>
                   evs = [] /\ exists s, r = Ok s
                                         /\ step_list s = all ++ novel all (snd a)
                                         /\ to_connect (step_flag s) <= to_connect (fst a)).
        -- apply clean_page_up.
        -- intros [c cl]. cbn [fst snd].
           destruct (novel all cl) eqn:N; apply does_ret; (split; [reflexivity|]);
             eexists; (split; [reflexivity|]); cbn [step_list step_flag to_connect];
             rewrite ?N; split; auto; lia.
        -- intros e1 [c cl] e2 r (c' & new & E & U & C) [-> (s & -> & L & F)].
           inversion E; subst c' cl. cbn [fst snd app] in *. rewrite app_nil_r.
           split; [lia|]. intros x Hx. rewrite L in Hx. apply in_app_or in Hx.
           destruct Hx as [Hx|Hx]; [now left|]. right. apply novel_incl in Hx.
           now rewrite U.
        -- intros e1 e (c & new & E & _). discriminate.
      * intros e1 a e2 r -> H. exact H.
      * intros e1 e ->. reflexivity.
    + intros e1 a e2 r [U C] H. rewrite connects_app, upserted_app, U, C.
      destruct r as [s|e]; exact H.
    + intros e1 e [_ C]. exact C.
  - intros e1 a e2 r -> H. exact H.
  - intros e1 e ->. reflexivity.
Qed.

Lemma pages_up search maxImports sessionId bearer model timeout fuel :
  forall page all debug connected,
    does (fun evs r =>
            connects evs <= to_connect connected
            /\ exists a d, r = Ok (a, d)
                           /\ forall x, In x a -> In x all \/ In x (upserted evs))
         (pages P (Wd := Wd) env search maxImports sessionId bearer model timeout
                fuel page all debug connected).
Proof using up.
  induction fuel as [|fuel IH]; intros page all debug connected; simpl;
    destruct ((page <=? maxImports) && (length all <? maxImports));
    try (apply does_ret; split; [simpl; lia | exists all, debug; auto]).
  eapply does_bind with
    (R1 := fun evs r =>
             exists s, r = Ok s
                       /\ connects evs + to_connect (step_flag s) <= to_connect connected
                       /\ forall x, In x (step_list s) -> In x all \/ In x (upserted evs))
    (R2 := fun s evs r =>
             connects evs <= to_connect (step_flag s)
             /\ exists a d, r = Ok (a, d)
                            /\ forall x, In x a -> In x (step_list s) \/ In x (upserted evs)).
  - eapply does_try with
      (R2 := fun _ evs r => evs = [] /\ r = Ok (Next all debug connected)).
    + apply page_body_up.
    + intro. apply does_ret. split; reflexivity.
    + intros e1 s H. exists s. split; [reflexivity | exact H].
    + intros e1 e e2 r C [-> ->]. rewrite app_nil_r. cbn beta iota in C.
      exists (Next all debug connected). cbn [step_flag step_list].
      split; [reflexivity|]. split; [lia | auto].
  - intros [a d|a d c]; cbn [step_flag step_list].
    + apply does_ret. split; [simpl; lia|]. exists a, d. auto.
    + apply IH.
  - intros e1 s e2 r (s' & E & C1 & I1) (C2 & a & d & -> & I2). inversion E; subst s'.
    rewrite connects_app. split; [lia|]. exists a, d. split; [reflexivity|].
    intros x Hx. rewrite upserted_app.
    destruct (I2 x Hx) as [H|H]; [|right; apply in_or_app; now right].
    destruct (I1 x H) as [H'|H']; [now left | right; apply in_or_app; now left].
  - intros e1 e (s & E & _). discriminate.
Qed.

End Up.

Section Down.

Hypothesis down : store_down Wd.

Lemma stream_down (d : doc) :
  does (fun evs r => r = Ok false /\ evs = [EvConnect])
       (stream (Wd := Wd) d false).
Proof using down.
  intro st. unfold stream, getCosmosContainer, bind, call, ret.
  pose proof (down (world st)) as D.
  destruct (cosmos_connect Wd (world st)) as [c w1]. cbn in D. subst c. cbn.
  exists [EvConnect]. auto.
Qed.

Lemma clean_page_down (sessionId : value) (fragments : list value) :
  forall clean,
    does (fun evs r => exists new, r = Ok (false, clean ++ new) /\ upserted evs = []
                                   /\ connects evs = length new)
         (clean_page P (Wd := Wd) env sessionId fragments false clean).
Proof using down.
  induction fragments as [|company rest IH]; intros clean; simpl.
  - apply does_ret. exists []. rewrite app_nil_r. auto.
  - eapply does_bind with
      (R1 := fun evs r => exists new, r = Ok (false, clean ++ new) /\ upserted evs = []
                                      /\ connects evs = length new)
      (R2 := fun a evs r => fst a = false ->
                            exists new, r = Ok (false, snd a ++ new) /\ upserted evs = []
                                        /\ connects evs = length new).
    + destruct (negb (is_object company)).
      { apply does_ret. exists []. rewrite app_nil_r. auto. }
      eapply does_try with
        (R1 := fun evs r =>
                 match r with
                 | Ok a => exists d, a = (false, clean ++ [d]) /\ upserted evs = []
                                     /\ connects evs = 1
                 | Throw _ => upserted evs = [] /\ connects evs = 0
                 end)
        (R2 := fun _ evs r => evs = [] /\ r = Ok (false, clean)).
      * eapply does_bind with
          (R1 := fun evs _ => upserted evs = [] /\ connects evs = 0)
          (R2 := fun d evs r => r = Ok (false, clean ++ [d]) /\ evs = [EvConnect]).
        -- apply normalize_no_store.
        -- intro d.
           eapply does_bind with
             (R2 := fun c evs r => evs = [] /\ r = Ok (c, clean ++ [d]));
             [ apply stream_down
             | intro c; apply does_ret; split; reflexivity
             | intros e1 c e2 r [E ->] [-> ->]; inversion E; subst c; auto
             | intros e1 e [E _]; discriminate ].
        -- intros e1 d e2 r [U1 C1] [-> ->]. exists d.
           rewrite upserted_app, connects_app, U1, C1. auto.
        -- intros e1 e H. exact H.
      * intro. apply does_ret. split; reflexivity.
      * intros e1 a (d & -> & U & C). exists [d]. auto.
      * intros e1 e e2 r [U C] [-> ->]. rewrite app_nil_r.
        exists []. rewrite app_nil_r, U, C. auto.
    + intros [c cl]. cbn [fst snd].
      destruct c; [apply does_weaken with (R := fun _ _ => True);
                   [intros; discriminate |]|].
      * intro st. destruct (@clean_page_emits P Wd env (fun _ => True)
                              (fun _ => I) I (fun _ => I) sessionId rest true cl st)
          as (evs & T & _). eauto.
      * eapply does_weaken; [|apply IH]. intros evs r H _. exact H.
    + intros e1 [c1 cl1] e2 r (new & E & U1 & C1) H2.
      inversion E; subst c1 cl1. destruct (H2 eq_refl) as (new2 & -> & U2 & C2).
      cbn [snd]. exists (new ++ new2).
      rewrite <- app_assoc, upserted_app, connects_app, U1, U2, C1, C2, length_app. auto.
    + intros e1 e (new & E & _). discriminate.
Qed.

Lemma page_body_store_down search sessionId bearer model timeout page all debug :
  does (fun evs r =>
          upserted evs = []
          /\ match r with
             | Ok s => (forall a d c, s = Next a d c -> c = false)
                          /\ length (step_list s) <= length all + connects evs
             | Throw _ => True
             end)
       (page_body P (Wd := Wd) env search sessionId bearer model timeout
                  page all debug false).
Proof using down.
  unfold page_body.
  eapply does_bind with
    (R1 := fun evs _ => evs = [])
    (R2 := fun _ evs r =>
             upserted evs = []
             /\ match r with
                | Ok s => (forall a d c, s = Next a d c -> c = false)
                             /\ length (step_list s) <= length all + connects evs
                | Throw _ => True
                end).
  - apply does_lift; auto.
  - intro prompt.
    eapply does_bind with
      (R1 := fun evs _ => upserted evs = [])
      (R2 := fun _ evs r =>
               upserted evs = []
               /\ match r with
                  | Ok s => (forall a d c, s = Next a d c -> c = false)
                               /\ length (step_list s) <= length all + connects evs
                  | Throw _ => True
                  end).
    + apply does_http; intros; reflexivity.
    + intro data.
      eapply does_bind with
        (R1 := fun evs _ => evs = [])
        (R2 := fun _ evs r =>
                 upserted evs = []
                 /\ match r with
                    | Ok s => (forall a d c, s = Next a d c -> c = false)
                                 /\ length (step_list s) <= length all + connects evs
                    | Throw _ => True
                    end).
      * apply does_lift; auto.
      * intro parsed.
        assert (B : forall note_,
                   does (Wd := Wd) (fun evs r =>
                           upserted evs = []
                           /\ match r with
                              | Ok s => (forall a d c, s = Next a d c -> c = false)
                                           /\ length (step_list s)
                                              <= length all + connects evs
                              | Throw _ => True
                              end)
                        (preview <- lift (to_string P
                                            (get (get (get0 (get data "choices")) "message")
                                                 "content" ||? VStr "")) ;;
                         ret (Break all (debug ++ [ {| dbg_page := page;
                                                       dbg_note := "no-companies-from-model";
                                                       dbg_parseNote := note_;
                                                       dbg_preview := take 140 preview |} ])))).
        { intro note_.
          eapply does_bind with
            (R1 := fun evs _ => evs = [])
            (R2 := fun _ evs r => evs = [] /\ exists d, r = Ok (Break all d)).
          - apply does_lift; auto.
          - intro. apply does_ret. split; [reflexivity|]. eauto.
          - intros e1 a e2 r -> [-> (d & ->)]. cbn. split; [reflexivity|].
            split; [intros; discriminate | lia].
          - intros e1 e ->. split; [reflexivity | exact I]. }
        destruct (companies parsed) as [[| | | | | [|f fs] |]|]; try apply B.
        eapply does_bind with
          (R2 := fun a evs r =>
                   evs = [] /\ exists s, r = Ok s
                                         /\ step_list s = all ++ novel all (snd a)
                                         /\ (forall a' d c, s = Next a' d c -> c = fst a)).
        -- apply clean_page_down.
        -- intros [c cl]. cbn [fst snd].
           destruct (novel all cl) eqn:N; apply does_ret; (split; [reflexivity|]);
             eexists; (split; [reflexivity|]); cbn [step_list];
             rewrite ?N; split; auto; intros a' d' c' E; inversion E; reflexivity.
        -- intros e1 [c cl] e2 r (new & E & U & C) [-> (s & -> & L & F)].
           inversion E; subst c cl. cbn [fst snd app] in *. rewrite app_nil_r.
           split; [exact U|]. split; [exact F|].
           rewrite L, length_app, C. pose proof (novel_length all new). lia.
        -- intros e1 e (new & E & _). discriminate.
      * intros e1 a e2 r -> H. exact H.
      * intros e1 e ->. split; [reflexivity | exact I].
    + intros e1 a e2 r U [U2 H]. rewrite upserted_app, U, U2. split; [reflexivity|].
      destruct r as [s|e]; [|exact I]. rewrite connects_app.
      destruct H as [H1 H2]. split; [exact H1 | lia].
    + intros e1 e U. split; [exact U | exact I].
  - intros e1 a e2 r -> H. exact H.
  - intros e1 e ->. split; [reflexivity | exact I].
Qed.

Lemma pages_store_down search maxImports sessionId bearer model timeout fuel :
  forall page all debug,
    does (fun evs r =>
            upserted evs = []
            /\ exists a d, r = Ok (a, d) /\ length a <= length all + connects evs)
         (pages P (Wd := Wd) env search maxImports sessionId bearer model timeout
                fuel page all debug false).
Proof using down.
  induction fuel as [|fuel IH]; intros page all debug; simpl;
    destruct ((page <=? maxImports) && (length all <? maxImports));
    try (apply does_ret; split; [reflexivity | exists all, debug; split; [reflexivity | lia]]).
  eapply does_bind with
    (R1 := fun evs r =>
             upserted evs = []
             /\ exists s, r = Ok s
                          /\ (forall a d c, s = Next a d c -> c = false)
                          /\ length (step_list s) <= length all + connects evs)
    (R2 := fun s evs r =>
             (forall a d c, s = Next a d c -> c = false) ->
             upserted evs = []
             /\ exists a d, r = Ok (a, d)
                            /\ length a <= length (step_list s) + connects evs).
  - eapply does_try with
      (R2 := fun _ evs r => evs = [] /\ r = Ok (Next all debug false)).
    + apply page_body_store_down.
    + intro. apply does_ret. split; reflexivity.
    + intros e1 s [U H]. split; [exact U|]. exists s. split; [reflexivity | exact H].
    + intros e1 e e2 r [U _] [-> ->]. rewrite app_nil_r. split; [exact U|].
      exists (Next all debug false). split; [reflexivity|].
      split; [intros a d c E; now inversion E | cbn; lia].
  - intros [a d|a d c]; cbn [step_list].
    + apply does_ret. intros _. split; [reflexivity|]. exists a, d.
      split; [reflexivity | lia].
    + destruct c.
      * apply does_weaken with (R := fun _ _ => True).
        { intros evs r _ H. specialize (H a d true eq_refl). discriminate. }
        intro st. destruct (@pages_emits P Wd env (fun _ => True) (fun _ => I) I
                              (fun _ => I) timeout (fun _ _ => I) search maxImports
                              sessionId bearer model fuel (S page) a d true st)
          as (evs & T & _). eauto.
      * eapply does_weaken; [|apply IH]. intros evs r H _. exact H.
  - intros e1 s e2 r [U1 (s' & E & F & L)] H2. inversion E; subst s'.
    destruct (H2 F) as (U2 & a & d & -> & L2).
    rewrite upserted_app, connects_app, U1, U2. split; [reflexivity|].
    exists a, d. split; [reflexivity | lia].
  - intros e1 e [_ (s & E & _)]. discriminate.
Qed.

End Down.

End Store.

(** With a store that hands out its container, [callXAI] connects at most
    once, however many pages and records there are, and an upsert has been
    sent for every record of the list it returns. *)
Theorem store_up_streams_all (P : Platform) (Wd : World) (env : environment)
        (search : value) (maxImports : nat) (timeoutMs sessionId : value)
        (st : state Wd) :
  store_up Wd ->
  exists evs,
    trace (snd (callXAI P env search maxImports timeoutMs sessionId st)) = trace st ++ evs
    /\ connects evs <= 1
    /\ forall all debug,
         fst (callXAI P env search maxImports timeoutMs sessionId st) = Ok (all, debug) ->
         incl all (upserted evs).
Proof.
  intro up. unfold callXAI.
  destruct (XAI_API_KEY env) as [key|];
    [|exists []; simpl; rewrite app_nil_r; repeat split; [lia | discriminate]].
  destruct (str_nonempty key);
    [|exists []; simpl; rewrite app_nil_r; repeat split; [lia | discriminate]].
  match goal with
  | |- context [pages P env search maxImports sessionId key ?m ?t maxImports 1 [] [] false st] =>
      destruct (@pages_up P Wd env up search maxImports sessionId key m t maxImports
                  1 [] [] false st) as (evs & T & C & a & d & E & I)
  end.
  exists evs. split; [exact T|]. split; [exact C|].
  intros all debug E'. rewrite E in E'. inversion E'; subst a d.
  intros x Hx. destruct (I x Hx) as [[]|H]. exact H.
Qed.

Lemma store_up_streams_all_witness :
  exists evs,
    trace (snd (callXAI acme_platform live_env (VObj []) 2 VUndef VNull
                        (silence [chat acme_text; chat acme_text])))
    = evs
    /\ connects evs = 1
    /\ length (upserted evs) = 2
    /\ forall all debug,
         fst (callXAI acme_platform live_env (VObj []) 2 VUndef VNull
                      (silence [chat acme_text; chat acme_text])) = Ok (all, debug) ->
         incl all (upserted evs).
Proof.
  destruct (@store_up_streams_all acme_platform silent_world live_env (VObj []) 2 VUndef
              VNull (silence [chat acme_text; chat acme_text]) (fun _ => eq_refl))
    as (evs & T & C & I).
  exists evs. split; [exact T|].
  assert (E : evs = trace (snd (callXAI acme_platform live_env (VObj []) 2 VUndef VNull
                                        (silence [chat acme_text; chat acme_text]))))
    by (symmetry; exact T).
  split; [rewrite E; vm_compute; reflexivity|].
  split; [rewrite E; vm_compute; reflexivity | exact I].
Defined.

(** With a store that hands out no container no upsert is sent, the
    import goes on all the same, and the connection is asked for again for
    every record: at least as often as there are records in the result. *)
Theorem store_down_streams_nothing (P : Platform) (Wd : World) (env : environment)
        (search : value) (maxImports : nat) (timeoutMs sessionId : value)
        (st : state Wd) :
  store_down Wd ->
  exists evs,
    trace (snd (callXAI P env search maxImports timeoutMs sessionId st)) = trace st ++ evs
    /\ upserted evs = []
    /\ forall all debug,
         fst (callXAI P env search maxImports timeoutMs sessionId st) = Ok (all, debug) ->
         length all <= connects evs.
Proof.
  intro down. unfold callXAI.
  destruct (XAI_API_KEY env) as [key|];
    [|exists []; simpl; rewrite app_nil_r; repeat split; discriminate].
  destruct (str_nonempty key);
    [|exists []; simpl; rewrite app_nil_r; repeat split; discriminate].
  match goal with
  | |- context [pages P env search maxImports sessionId key ?m ?t maxImports 1 [] [] false st] =>
      destruct (@pages_store_down P Wd env down search maxImports sessionId key m t
                  maxImports 1 [] [] st) as (evs & T & U & a & d & E & L)
  end.
  exists evs. split; [exact T|]. split; [exact U|].
  intros all debug E'. rewrite E in E'. inversion E'; subst a d. exact L.
Qed.

Lemma store_down_streams_nothing_witness :
  exists evs,
    trace (snd (callXAI twin_platform live_env (VObj []) 1 VUndef VNull
                        (storeless [chat twin_text])))
    = evs
    /\ upserted evs = []
    /\ connects evs = 2
    /\ forall all debug,
         fst (callXAI twin_platform live_env (VObj []) 1 VUndef VNull
                      (storeless [chat twin_text])) = Ok (all, debug) ->
         length all <= connects evs.
Proof.
  destruct (@store_down_streams_nothing twin_platform storeless_world live_env (VObj []) 1
              VUndef VNull (storeless [chat twin_text]) (fun _ => eq_refl))
    as (evs & T & U & L).
  exists evs. split; [exact T|]. split; [exact U|].
  assert (E : evs = trace (snd (callXAI twin_platform live_env (VObj []) 1 VUndef VNull
                                        (storeless [chat twin_text]))))
    by (symmetry; exact T).
  split; [rewrite E; vm_compute; reflexivity | exact L].
Defined.

(* ------------------------------------------------------------------ *)
(** ** Geocoding lookups *)

Lemma get_truthy_object (o : value) (k : string) :
  String.eqb k "length" = false -> truthy (get o k) = true -> truthy o = true.
Proof.
  intros K. destruct o as [| | b | n | s | items | props]; simpl; try discriminate;
    try rewrite K; try discriminate; auto.
Qed.

Section Lookups.

Variable P : Platform.
Variable Wd : World.
Variable env : environment.

Lemma geocodeLocation_lookup (location : value) :
  to_string P location <> None ->
  does (fun evs r =>
          evs = (if env_truthy (GOOGLE_GEOCODING_API_KEY env) && truthy location
                 then [EvGeocode location] else [])
          /\ exists p, r = Ok p /\ (truthy location = false -> p = origin00))
       (geocodeLocation P (Wd := Wd) env location).
Proof.
  intro Hconv. unfold geocodeLocation, env_truthy.
  destruct (GOOGLE_GEOCODING_API_KEY env) as [key|];
    [|apply does_ret; split; [reflexivity | eauto]].
  destruct (str_nonempty key); cbn [negb orb andb];
    [|apply does_ret; split; [reflexivity | eauto]].
  destruct (truthy location) eqn:L; cbn [negb];
    [|apply does_ret; split; [reflexivity | eauto]].
  destruct (to_string P location) as [text|]; [clear Hconv | contradiction].
  cbn [lift]. 
  eapply does_try with
    (R1 := fun evs r => evs = [EvGeocode location])
    (R2 := fun _ evs r => evs = [] /\ r = Ok origin00).
  - apply does_bind_ret.
    eapply does_bind with (R1 := fun evs r => evs = [EvGeocode location])
                          (R2 := fun _ evs r => evs = []).
    + apply does_http; reflexivity.
    + intro. apply does_ret. reflexivity.
    + intros e1 a e2 r -> ->. reflexivity.
    + intros e1 e ->. reflexivity.
  - intro. apply does_ret. split; reflexivity.
  - intros e1 a ->. split; [reflexivity|]. exists a. split; [reflexivity | discriminate].
  - intros e1 e e2 r -> [-> ->]. split; [reflexivity|]. exists origin00.
    split; [reflexivity | auto].
Qed.

Lemma geocode_all_lookup (locs : list value) :
  Forall (fun loc => to_string P loc <> None) locs ->
  does (fun evs r =>
          evs = (if env_truthy (GOOGLE_GEOCODING_API_KEY env)
                 then map EvGeocode (filter truthy locs) else [])
          /\ exists c, r = Ok c
                       /\ Forall2 (fun loc la => truthy loc = false -> la = zero) locs (fst c)
                       /\ Forall2 (fun loc lo => truthy loc = false -> lo = zero) locs (snd c))
       (geocode_all P (Wd := Wd) env locs).
Proof.
  induction 1 as [|loc rest Hloc Hrest IH]; simpl.
  - apply does_ret. split; [now destruct (env_truthy _)|].
    exists ([], []). repeat split; constructor.
  - eapply does_bind with
      (R2 := fun m evs r =>
               evs = (if env_truthy (GOOGLE_GEOCODING_API_KEY env)
                      then map EvGeocode (filter truthy rest) else [])
               /\ exists c, r = Ok (lat m :: fst c, lng m :: snd c)
                            /\ Forall2 (fun loc la => truthy loc = false -> la = zero)
                                       rest (fst c)
                            /\ Forall2 (fun loc lo => truthy loc = false -> lo = zero)
                                       rest (snd c)).
    + now apply geocodeLocation_lookup.
    + intro m.
      eapply does_bind with (R2 := fun c evs r => evs = [] /\ r = Ok (lat m :: fst c, lng m :: snd c)).
      * exact IH.
      * intro c. apply does_ret. split; reflexivity.
      * intros e1 c e2 r [-> (c' & E & F1 & F2)] [-> ->]. inversion E; subst c'.
        rewrite app_nil_r. split; [reflexivity|]. exists c. auto.
      * intros e1 e [_ (c & E & _)]. discriminate.
    + intros e1 m e2 r [-> (p & E & Z)] [-> (c & -> & F1 & F2)]. inversion E; subst p.
      split.
      * destruct (env_truthy _); [|reflexivity]. cbn [andb].
        destruct (truthy loc); reflexivity.
      * exists (lat m :: fst c, lng m :: snd c). cbn [fst snd]. split; [reflexivity|].
        split; constructor; auto; intro F; rewrite (Z F); reflexivity.
    + intros e1 e [_ (p & E & _)]. discriminate.
Qed.

End Lookups.

(** Normalising one fragment looks up the headquarters first and then
    every manufacturing location, in their order, once each; a location
    that is empty or missing is not looked up, and without a geocoding key
    nothing is.  Nothing else is called, and the lookups are made whether
    or not the record can be built afterwards.  The locations are taken to
    be values that [String] converts, as the parts of a parsed answer the
    prompt asks for are. *)
Theorem normalize_lookups (P : Platform) (Wd : World) (env : environment)
        (sessionId company : value) (st : state Wd) :
  Forall (fun loc => to_string P loc <> None) (hqLoc_of company :: manuList_of company) ->
  trace (snd (normalize P env sessionId company st))
  = trace st ++ (if env_truthy (GOOGLE_GEOCODING_API_KEY env)
                 then map EvGeocode (filter truthy (hqLoc_of company :: manuList_of company))
                 else []).
Proof.
  intro Hconv. inversion Hconv as [|loc0 locs0 Hhq Hmanu]; subst.
  assert (D : does (fun evs _ =>
                      evs = (if env_truthy (GOOGLE_GEOCODING_API_KEY env)
                             then map EvGeocode
                                      (filter truthy (hqLoc_of company :: manuList_of company))
                             else []))
                   (normalize P (Wd := Wd) env sessionId company)).
  { unfold normalize.
    eapply does_bind with
      (R2 := fun _ evs _ => evs = (if env_truthy (GOOGLE_GEOCODING_API_KEY env)
                                   then map EvGeocode (filter truthy (manuList_of company))
                                   else [])).
    - now apply geocodeLocation_lookup.
    - intro hq.
      eapply does_bind with (R2 := fun _ evs _ => evs = []).
      + now apply geocode_all_lookup.
      + intro coords.
        eapply does_bind with (R1 := fun evs _ => evs = []) (R2 := fun _ evs _ => evs = []);
          [ apply does_lift; auto | | intros; subst; reflexivity | intros; subst; reflexivity ].
        intro build.
        eapply does_bind with (R1 := fun evs _ => evs = []) (R2 := fun _ evs _ => evs = []);
          [ apply does_ask; auto | | intros; subst; reflexivity | intros; subst; reflexivity ].
        intro new_id.
        eapply does_bind with (R1 := fun evs _ => evs = []) (R2 := fun _ evs _ => evs = []);
          [ apply does_ask; auto | | intros; subst; reflexivity | intros; subst; reflexivity ].
        intro now. apply does_ret. reflexivity.
      + intros e1 a e2 r [-> _] ->. now rewrite app_nil_r.
      + intros e1 e [_ (c & E & _)]. discriminate.
    - intros e1 a e2 r [-> _] ->. cbn [filter].
      destruct (env_truthy _); [|reflexivity]. cbn [andb].
      destruct (truthy (hqLoc_of company)); reflexivity.
    - intros e1 e [_ (p & E & _)]. discriminate. }
  destruct (D st) as (evs & T & E). now rewrite T, E.
Qed.

Lemma normalize_lookups_witness :
  trace (snd (normalize forge_platform live_env VNull forge_fragment (silence [])))
  = [EvGeocode (VStr "Austin, TX"); EvGeocode (VStr "Reno, NV")].
Proof.
  apply (@normalize_lookups forge_platform silent_world live_env VNull forge_fragment
           (silence [])).
  repeat constructor; discriminate.
Defined.

(** The older copy of [geocodeLocation] kept in the repository answers as
    the current one, with the same lookup, for every location that is not
    empty and that [String] converts.  A location that is not empty and
    that [String] cannot convert makes neither of them send a request: the
    current one answers (0, 0) and the older one, with a key configured,
    raises out of its [catch] block.  An empty or missing location the
    older one sends to the provider, where the current one answers (0, 0)
    at once. *)
Theorem geocodeLocation_legacy_agrees (P : Platform) (Wd : World) (env : environment)
        (location : value) (st : state Wd) :
  (truthy location = true -> to_string P location <> None ->
   geocodeLocation_legacy P env location st = geocodeLocation P env location st)
  /\ (truthy location = true -> to_string P location = None ->
      geocodeLocation P env location st = (Ok origin00, st)
      /\ geocodeLocation_legacy P env location st
         = if env_truthy (GOOGLE_GEOCODING_API_KEY env)
           then (Throw TypeError, st) else (Ok origin00, st))
  /\ (truthy location = false ->
      geocodeLocation P env location st = (Ok origin00, st)
      /\ trace (snd (geocodeLocation_legacy P env location st))
         = trace st ++ (if env_truthy (GOOGLE_GEOCODING_API_KEY env)
                        then [EvGeocode location] else [])).
Proof.
  unfold geocodeLocation_legacy, geocodeLocation, env_truthy.
  destruct (GOOGLE_GEOCODING_API_KEY env) as [key|].
  2:{ split; [reflexivity|]. split; intros; (split; [reflexivity|]);
        [reflexivity | simpl; now rewrite app_nil_r]. }
  destruct (str_nonempty key); cbn [negb orb].
  2:{ split; [reflexivity|]. split; intros; (split; [reflexivity|]);
        [reflexivity | simpl; now rewrite app_nil_r]. }
  split; [|split].
  - intros L Hconv. rewrite L. cbn [negb].
    destruct (to_string P location) as [text|]; [clear Hconv | contradiction].
    cbn [lift]. unfold try_catch, http, bind, call, ret, throw.
    destruct (geocode_get Wd location key (world st)) as [[|data] w']; [reflexivity|].
    destruct (nullish data || nullish (get data "results")) eqn:N.
    + assert (G : get0 (get data "results") = VUndef).
      { apply orb_true_iff in N. destruct N as [N|N].
        - destruct data; try discriminate; reflexivity.
        - destruct (get data "results"); try discriminate; reflexivity. }
      rewrite G. reflexivity.
    + set (result := get0 (get data "results")).
      destruct (truthy (get (get result "geometry") "location")) eqn:T3.
      * pose proof (get_truthy_object _ "location" eq_refl T3) as T2.
        pose proof (get_truthy_object _ "geometry" eq_refl T2) as T1.
        rewrite T1, T2. reflexivity.
      * rewrite andb_false_r. reflexivity.
  - intros L Hconv. rewrite L, Hconv. cbn [negb]. split; reflexivity.
  - intros L. rewrite L. cbn [negb]. split; [reflexivity|].
    assert (C : exists text, to_string P location = Some text).
    { destruct location as [| | b | n | s | items | props]; try discriminate;
        cbn [to_string]; eauto. }
    destruct C as (text & ->). cbn [lift].
    unfold try_catch, http, bind, call, ret, throw.
    destruct (geocode_get Wd location key (world st)) as [[|data] w']; [reflexivity|].
    destruct (nullish data || nullish (get data "results")); [reflexivity|].
    destruct (truthy _ && truthy _ && truthy _); reflexivity.
Qed.

(* ------------------------------------------------------------------ *)
(** ** The live answer *)

Lemma z_maxImports_integer (v : value) (n : num) :
  z_maxImports v = Some n ->
  exists q, n = Fin q /\ (q == inject_Z (num_to_Z n))%Q /\ (1 <= num_to_Z n <= 50)%Z.
Proof.
  intro H. pose proof (z_maxImports_range _ H) as R. revert H.
  unfold z_maxImports, z_int, z_number.
  destruct v as [| | | m | | |]; try discriminate.
  destruct m as [| | |q]; try discriminate.
  cbn [Number_isInteger].
  destruct (Pos.eqb (Qden (Qred q)) 1) eqn:D; [|discriminate].
  destruct (num_leb (num_of_Z 1) (Fin q) && num_leb (Fin q) (num_of_Z 50)); [|discriminate].
  intro H. inversion H; subst n. exists q. split; [reflexivity|]. split; [|exact R].
  cbn [num_to_Z]. apply Pos.eqb_eq in D.
  rewrite <- (Qred_correct q) at 1.
  destruct (Qred q) as [a d]. cbn [Qden Qnum] in *. subst d. reflexivity.
Qed.

Lemma validate_integer (P : Platform) (env : environment) (body : value)
      (maxImports : num) (search : value) (timeoutMs : num) :
  validate P env body = Some (maxImports, search, timeoutMs) ->
  exists q, maxImports = Fin q /\ (q == inject_Z (num_to_Z maxImports))%Q
            /\ (1 <= num_to_Z maxImports <= 50)%Z.
Proof.
  unfold validate. destruct (requestSchema body) as [args|] eqn:R; [|discriminate].
  intro H. inversion H; subst. clear H.
  unfold requestSchema in R. destruct body; try discriminate.
  destruct (z_optional z_maxImports _) as [mi|] eqn:M; [|discriminate].
  destruct (z_optional z_int _); [|discriminate].
  destruct (z_optional z_int _); [|discriminate].
  destruct (z_optional z_search _); [|discriminate].
  inversion R; subst args. clear R. cbn [r_maxImports].
  destruct mi as [n|].
  - unfold z_optional in M.
    destruct (get (VObj props) "maxImports") eqn:G; try discriminate;
      destruct (z_maxImports _) as [n'|] eqn:Z; try discriminate;
      inversion M; subst n'; exact (z_maxImports_integer _ Z).
  - exists (inject_Z 1). split; [reflexivity|]. split; [reflexivity | vm_compute; split; discriminate].
Qed.

Lemma companySchema_keeps (P : Platform) (sessionId : value) (d : doc) (c : company) :
  aligned d -> tidy P sessionId d -> companySchema d = Some c ->
  aligned_company c /\ c_company_name c <> "" /\ c_headquarters_location c <> "".
Proof.
  intros [A1 A2] T. unfold companySchema.
  destruct (z_string (company_name d)) as [name|] eqn:N; [|discriminate].
  destruct (z_optional z_string (company_tagline d)); [|discriminate].
  destruct (z_string (headquarters_location d)) as [hq|] eqn:H; [|discriminate].
  destruct (map_opt z_string (manufacturing_locations d)) as [manu|] eqn:M; [|discriminate].
  destruct (z_string (amazon_url d)); [|discriminate].
  destruct (z_optional z_number (doc_lat d)); [|discriminate].
  destruct (z_optional z_number (doc_long d)); [|discriminate].
  destruct (map_opt z_number (manu_lats d)) as [lats|] eqn:L1; [|discriminate].
  destruct (map_opt z_number (manu_lngs d)) as [lngs|] eqn:L2; [|discriminate].
  intro E. inversion E; subst c. clear E.
  unfold aligned_company. cbn.
  rewrite (map_opt_length _ _ M), (map_opt_length _ _ L1), (map_opt_length _ _ L2).
  split; [auto|]. split.
  - pose proof (tidy_name T) as Hn. destruct (company_name d); try discriminate.
    inversion N; subst. intro Z. subst. discriminate.
  - pose proof (tidy_hq T) as Hh. destruct (headquarters_location d); try discriminate.
    inversion H; subst. intro Z. subst. discriminate.
Qed.

Lemma schema_keeps (P : Platform) (sessionId : value) (all : list doc) :
  Forall aligned all -> Forall (tidy P sessionId) all ->
  forall validated,
    schema all = Some validated ->
    length validated = length all
    /\ Forall (fun c => aligned_company c /\ c_company_name c <> ""
                        /\ c_headquarters_location c <> "") validated.
Proof.
  unfold schema. induction all as [|d all IH]; intros A T validated H; simpl in H.
  - inversion H. split; [reflexivity | constructor].
  - destruct (companySchema d) as [c|] eqn:C; [|discriminate].
    destruct (map_opt companySchema all) as [cs|] eqn:R; [|discriminate].
    inversion H; subst validated. inversion A; subst. inversion T; subst.
    destruct (IH ltac:(assumption) ltac:(assumption) cs eq_refl) as [L F].
    split; [simpl; now rewrite L|]. constructor; [|exact F].
    eapply companySchema_keeps; eauto.
Qed.

Lemma callXAI_aligned (P : Platform) (Wd : World) (env : environment)
      (search : value) (maxImports : nat) (timeoutMs sessionId : value) :
  yields (fun r => Forall aligned (fst r))
         (callXAI P (Wd := Wd) env search maxImports timeoutMs sessionId).
Proof.
  eapply yields_weaken;
    [|apply callXAI_invariant with (Inv := Forall (coordinates_ok Wd))
                                   (Frag := fun _ => True)
                                   (Clean := Forall (coordinates_ok Wd))].
  - intros r F. eapply Forall_impl; [|exact F]. now intros d [A _].
  - intros; exact I.
  - intros. apply clean_page_coordinates. constructor.
  - intros a c Ha Hc. apply Forall_app. split; [assumption|].
    apply Forall_forall. intros x Hx. apply novel_incl in Hx.
    revert x Hx. now apply Forall_forall.
  - constructor.
Qed.

Lemma callXAI_tidy (P : Platform) (Wd : World) (env : environment)
      (search : value) (maxImports : nat) (timeoutMs sessionId : value) :
  yields (fun r => Forall (tidy P sessionId) (fst r))
         (callXAI P (Wd := Wd) env search maxImports timeoutMs sessionId).
Proof.
  unfold callXAI.
  destruct (XAI_API_KEY env) as [k|]; [|apply yields_throw].
  destruct (str_nonempty k); [|apply yields_throw].
  apply pages_tidy. constructor.
Qed.

Lemma status_of_count (q : Q) (z : Z) (n : nat) :
  (q == inject_Z z)%Q -> (1 <= z)%Z ->
  truthy (VNum (Fin q)) = true
  /\ (num_ltb (num_of_nat n) (Fin q) = true <-> n < Z.to_nat z).
Proof.
  intros E Hz. split.
  - cbn [truthy]. apply negb_true_iff. destruct (Qeq_bool q 0) eqn:B; [|reflexivity].
    apply Qeq_bool_iff in B. rewrite E in B. unfold Qeq in B. cbn in B. lia.
  - cbn [num_ltb num_of_nat]. split.
    + intro H. apply Qltb_true in H. rewrite E in H. rewrite <- Zlt_Qlt in H. lia.
    + intro H. apply Qltb_intro. rewrite E. rewrite <- Zlt_Qlt. lia.
Qed.

(** A live 200 answer, whatever the request and the services: the limit it
    reports is an integer from 1 to 50; every company in it has a name and
    a headquarters text that are not empty and coordinate lists parallel to
    its manufacturing locations; and its status is the word for complete
    exactly when it holds at least as many companies as the limit, the
    exhaustive notice otherwise. *)
Theorem live_answer (P : Platform) (Wd : World) (env : environment)
        (req : request) (st st' : state Wd) (resp : response)
        (validated : list company) (status_ : string) (maxImports : num)
        (search sessionId : value) :
  run P env req st = (Ok resp, st') ->
  body resp = LiveBody validated status_ maxImports search sessionId ->
  status resp = 200
  /\ 1 <= Z.to_nat (num_to_Z maxImports) <= 50
  /\ Forall (fun c => aligned_company c /\ c_company_name c <> ""
                      /\ c_headquarters_location c <> "") validated
  /\ (status_ = STATUS_COMPLETE <-> Z.to_nat (num_to_Z maxImports) <= length validated)
  /\ (status_ = STATUS_EXHAUSTIVE <-> length validated < Z.to_nat (num_to_Z maxImports)).
Proof.
  unfold run, run_body, try_catch.
  destruct (strict_eq (method req) (VStr "OPTIONS"));
    [intros E B; inversion E; subst resp; discriminate|].
  destruct (strict_eq (method req) (VStr "POST")); cbn [negb];
    [|intros E B; inversion E; subst resp; discriminate].
  unfold bind at 1, lift.
  destruct (derive_sessionId req (read_body P req)) as [sid|];
    [|intros E B; inversion E; subst resp; discriminate].
  cbn [ret]. unfold bind at 1.
  destruct (backcompat P (read_body P req)) as [body'|];
    [|intros E B; inversion E; subst resp; discriminate].
  cbn [ret].
  destruct (validate P env body') as [[[mi se] t]|] eqn:V;
    [|intros E B; inversion E; subst resp; discriminate].
  destruct (validate_integer _ _ _ V) as (q & Eq & Hq & Hz).
  unfold respond. destruct (on (XAI_STUB env));
    [intros E B; inversion E; subst resp; discriminate|].
  unfold bind.
  destruct (callXAI P env se (Z.to_nat (num_to_Z mi)) (VNum t) sid st)
    as [[r|e] st1] eqn:C; [|intros E B; inversion E; subst resp; discriminate].
  pose proof (@yields_run _ _ _ _ _ _ _
                (callXAI_aligned P env se (Z.to_nat (num_to_Z mi)) (VNum t) sid) C) as HA.
  pose proof (@yields_run _ _ _ _ _ _ _
                (callXAI_tidy P env se (Z.to_nat (num_to_Z mi)) (VNum t) sid) C) as HT.
  destruct (schema (fst r)) as [vs|] eqn:S; cbn [ret throw];
    [|intros E B; inversion E; subst resp; discriminate].
  intros E B. inversion E; subst resp st'. cbn [body status] in *.
  inversion B; subst validated status_ maxImports search sessionId. clear B E.
  destruct (schema_keeps HA HT S) as [L F].
  split; [reflexivity|]. split; [lia|]. split; [exact F|].
  destruct (status_of_count (length vs) Hq (proj1 Hz)) as [Tr Lt].
  cbn [truthy] in Tr. cbn [num_ltb num_of_nat] in Lt.
  try rewrite Eq. cbn [truthy num_ltb num_of_nat]. rewrite Tr. cbv iota.
  rewrite <- Eq.
  destruct (Qltb (inject_Z (Z.of_nat (length vs))) q) eqn:N.
  - pose proof (proj1 Lt eq_refl).
    split; split; intro X; try discriminate; try reflexivity; lia.
  - assert (~ length vs < Z.to_nat (num_to_Z mi)).
    { intro X. apply Lt in X. discriminate. }
    split; split; intro X; try discriminate; try reflexivity; lia.
Qed.

Lemma live_answer_witness :
  exists resp st' validated status_,
    run acme_platform live_env (post (VObj [])) (silence [chat acme_text]) = (Ok resp, st')
    /\ body resp = LiveBody validated status_ (num_of_Z 1) (VObj []) VNull
    /\ length validated = 1
    /\ status_ = STATUS_COMPLETE
    /\ Forall (fun c => aligned_company c /\ c_company_name c <> ""
                        /\ c_headquarters_location c <> "") validated.
Proof.
  destruct (run acme_platform live_env (post (VObj [])) (silence [chat acme_text]))
    as [[resp|e] st'] eqn:E; [|vm_compute in E; discriminate].
  destruct (body resp) as [| | |validated status_ mi se sid] eqn:B;
    try (vm_compute in E; inversion E; subst resp; discriminate).
  pose proof (@live_answer acme_platform silent_world live_env _ _ _ _ _ _ _ _ _ E B)
    as (_ & _ & F & _ & _).
  exists resp, st', validated, status_. split; [reflexivity|].
  vm_compute in E. inversion E; subst resp. cbn in B. inversion B; subst.
  repeat split; try reflexivity. exact F.
Defined.

(* ------------------------------------------------------------------ *)
(** ** The search object *)

Lemma existsb_eqb_In (k : string) (keys : list string) :
  existsb (String.eqb k) keys = true <-> In k keys.
Proof.
  rewrite existsb_exists. split.
  - intros (x & Hx & E). apply String.eqb_eq in E. now subst.
  - intro H. exists k. split; [exact H | apply String.eqb_refl].
Qed.

Lemma z_search_fields_lookup (keys : list string) (props : list (string * value)) :
  NoDup keys ->
  forall out,
    z_search_fields keys props = Some out ->
    forall k, lookup k out
              = if existsb (String.eqb k) keys
                then match lookup k props with
                     | Some (VStr s) => Some (VStr s)
                     | _ => None
                     end
                else None.
Proof.
  induction 1 as [|k0 keys Hn Hd IH]; intros out H k; simpl in H.
  - inversion H. reflexivity.
  - cbn [existsb].
    assert (Skip : z_search_fields keys props = Some out ->
                   match lookup k0 props with Some (VStr _) => False | _ => True end ->
                   lookup k out
                   = if String.eqb k k0 || existsb (String.eqb k) keys
                     then match lookup k props with
                          | Some (VStr s) => Some (VStr s)
                          | _ => None
                          end
                     else None).
    { intros Hr Hk. rewrite (IH _ Hr k).
      destruct (String.eqb k k0) eqn:E; [|reflexivity]. cbn [orb].
      apply String.eqb_eq in E. subst k.
      destruct (existsb (String.eqb k0) keys) eqn:E.
      - apply existsb_eqb_In in E. contradiction.
      - destruct (lookup k0 props) as [[| | | | s | |]|]; try reflexivity. contradiction. }
    destruct (lookup k0 props) as [v|] eqn:L0; [|now apply Skip].
    destruct v as [| | | | s | |]; try discriminate; [now apply Skip|].
    destruct (z_search_fields keys props) as [out'|] eqn:R; [|discriminate].
    inversion H; subst out. clear Skip H. cbn [lookup].
    destruct (String.eqb k k0) eqn:E; cbn [orb].
    + apply String.eqb_eq in E. subst k. now rewrite L0.
    + apply (IH _ eq_refl).
Qed.

Lemma z_search_fields_accepts (keys : list string) (props : list (string * value)) :
  z_search_fields keys props <> None
  <-> forall k, In k keys ->
                get (VObj props) k = VUndef \/ is_string (get (VObj props) k) = true.
Proof.
  induction keys as [|k0 keys IH]; cbn [z_search_fields].
  - split; [intros _ k [] | discriminate].
  - split.
    + intros H k [<-|Hk].
      * rewrite get_lookup.
        destruct (lookup k0 props) as [[| | | | s | |]|]; auto; now contradiction H.
      * apply IH; [|exact Hk].
        destruct (lookup k0 props) as [[| | | | s | |]|]; auto;
          try now contradiction H.
        destruct (z_search_fields keys props); [discriminate | now contradiction H].
    + intro H. pose proof (H k0 (or_introl eq_refl)) as H0. rewrite get_lookup in H0.
      assert (R : z_search_fields keys props <> None)
        by (apply IH; intros k Hk; apply H; now right).
      destruct (lookup k0 props) as [[| | | | s | |]|]; auto;
        try (destruct H0; discriminate).
      destruct (z_search_fields keys props); [discriminate | contradiction].
Qed.

Lemma search_keys_NoDup : NoDup search_keys.
Proof. unfold search_keys. repeat constructor; simpl; intuition discriminate. Qed.

(** The schema of [search] strips, where the schema of the body passes
    through: a search value is accepted exactly when it is an object whose
    declared keys are absent, undefined or texts, whatever else it holds;
    the accepted object keeps the declared keys as they were and has no
    other key. *)
Theorem z_search_strips (v : value) :
  (z_search v <> None
   <-> exists props, v = VObj props
                     /\ forall k, In k search_keys ->
                                  get v k = VUndef \/ is_string (get v k) = true)
  /\ (forall out, z_search v = Some out ->
        (exists props, out = VObj props)
        /\ forall k, get out k = if existsb (String.eqb k) search_keys
                                 then get v k else VUndef).
Proof.
  split.
  - destruct v as [| | | | | |props]; unfold z_search;
      try (split; [congruence | intros (p & E & _); discriminate]).
    split.
    + intro H. exists props. split; [reflexivity|].
      apply (proj1 (z_search_fields_accepts _ _)).
      destruct (z_search_fields search_keys props); [discriminate | now contradiction H].
    + intros (p & E & H). inversion E; subst p.
      apply (proj2 (z_search_fields_accepts _ _)) in H.
      destruct (z_search_fields search_keys props); [discriminate | contradiction].
  - intros out H. destruct v as [| | | | | |props]; try discriminate. unfold z_search in H.
    destruct (z_search_fields search_keys props) as [o|] eqn:Z; [|discriminate].
    inversion H; subst out. split; [eauto|]. intro k.
    rewrite !get_lookup, (@z_search_fields_lookup _ _ search_keys_NoDup _ Z k).
    destruct (existsb (String.eqb k) search_keys) eqn:E; [|reflexivity].
    destruct (lookup k props) as [[| | | | s | |]|] eqn:L; try reflexivity;
      (exfalso;
       assert (A : z_search_fields search_keys props <> None) by congruence;
       apply (proj1 (z_search_fields_accepts _ _)) with (k := k) in A;
       [ destruct A as [G|G]; rewrite get_lookup, L in G; discriminate
       | now apply existsb_eqb_In ]).
Qed.

Lemma prompt_part_text (P : Platform) (search : value) (field label : string) :
  get search field = VUndef \/ is_string (get search field) = true ->
  prompt_part P search field label <> None.
Proof.
  unfold prompt_part. intros [H|H].
  - rewrite H. discriminate.
  - destruct (get search field); try discriminate.
    destruct (truthy _); discriminate.
Qed.

(** The prompt of a validated request can always be built: its search
    object holds nothing but texts under the declared keys, so no
    conversion to a string can raise, and every iteration of the page loop
    sends its request. *)
Theorem validated_search_prompts (P : Platform) (env : environment) (body : value)
        (maxImports : num) (search : value) (timeoutMs : num) :
  validate P env body = Some (maxImports, search, timeoutMs) ->
  (exists props, search = VObj props)
  /\ (forall k, get search k = VUndef \/ is_string (get search k) = true)
  /\ exists prompt, buildPrompt P search [] = Some prompt.
Proof.
  unfold validate. destruct (requestSchema body) as [args|] eqn:R; [|discriminate].
  intro H. inversion H; subst. clear H.
  unfold requestSchema in R. destruct body; try discriminate.
  destruct (z_optional z_maxImports _); [|discriminate].
  destruct (z_optional z_int _); [|discriminate].
  destruct (z_optional z_int _); [|discriminate].
  destruct (z_optional z_search (get (VObj props) "search")) as [se|] eqn:S; [|discriminate].
  inversion R; subst args. clear R. cbn [r_search].
  assert (K : exists sprops,
             match se with Some s => s ||? VObj [] | None => VObj [] end = VObj sprops
             /\ forall k, get (VObj sprops) k = VUndef
                          \/ is_string (get (VObj sprops) k) = true).
  { destruct se as [s|]; [|exists []; split; [reflexivity | now left]].
    unfold z_optional in S.
    assert (Z : z_search (get (VObj props) "search") = Some s).
    { destruct (get (VObj props) "search"); try discriminate;
        destruct (z_search _); inversion S; reflexivity. }
    unfold z_search in Z.
    destruct (get (VObj props) "search") as [| | | | | |sp]; try discriminate.
    destruct (z_search_fields search_keys sp) as [outp|] eqn:F; [|discriminate].
    inversion Z; subst s. exists outp. split; [reflexivity|]. intro k.
    rewrite get_lookup, (@z_search_fields_lookup _ _ search_keys_NoDup _ F k).
    destruct (existsb (String.eqb k) search_keys); [|now left].
    destruct (lookup k sp) as [[| | | | s | |]|]; auto. }
  destruct K as (sprops & -> & Hk).
  split; [eauto|]. split; [exact Hk|].
  unfold buildPrompt, prompt_parts.
  assert (M : map_opt (fun fl => prompt_part P (VObj sprops) (fst fl) (snd fl))
                [ ("company_name", "company_name containing");
                  ("product_keywords", "product_keywords containing");
                  ("industries", "industries including");
                  ("headquarters_location", "headquarters_location in");
                  ("manufacturing_locations", "manufacturing_locations including");
                  ("email_address", "email_address matching");
                  ("url", "url matching");
                  ("amazon_url", "amazon_url matching") ] <> None).
  { cbn [map_opt fst snd].
    repeat match goal with
           | |- context [prompt_part P (VObj sprops) ?f ?l] =>
               let E := fresh "E" in
               pose proof (@prompt_part_text P (VObj sprops) f l (Hk f)) as E;
               destruct (prompt_part P (VObj sprops) f l); [clear E | contradiction]
           end.
    discriminate. }
  destruct (map_opt _ _) as [parts|]; [|contradiction]. cbn [option_map]. eauto.
Qed.

Lemma validated_search_prompts_witness :
  validate empty_platform no_env chatty_search
  = Some (num_of_Z 2, VObj [("industries", VStr "tools")], num_of_Z 600000)
  /\ exists prompt,
       buildPrompt empty_platform (VObj [("industries", VStr "tools")]) [] = Some prompt.
Proof.
  split; [reflexivity|].
  exact (proj2 (proj2 (@validated_search_prompts empty_platform no_env chatty_search
                         (num_of_Z 2) (VObj [("industries", VStr "tools")])
                         (num_of_Z 600000) eq_refl))).
Defined.

(* ------------------------------------------------------------------ *)
(** ** The back-compat mapping of the query pair *)

(** A request that carries [queryType] and [query], with a query type the
    mapping knows (in any letter case): the query is written into [search]
    under the mapped key, over what was there, and the other entries of
    [search] stay; a missing [search] starts empty.  When [search] is a
    primitive that is not empty the write raises, which [run] answers with
    500. *)
Theorem legacy_query_mapped (P : Platform) (props : list (string * value))
        (qt key : string) :
  truthy (get (VObj props) "queryType") = true ->
  truthy (get (VObj props) "query") = true ->
  to_string P (get (VObj props) "queryType") = Some qt ->
  queryType_key (toLowerCase qt) = Some key ->
  match get (VObj props) "search" ||? VObj [] with
  | VObj sprops =>
      exists body',
        backcompat P (VObj props) = Some body'
        /\ get (get body' "search") key = get (VObj props) "query"
        /\ forall k, k <> key -> get (get body' "search") k = get (VObj sprops) k
  | VArr items =>
      exists body',
        backcompat P (VObj props) = Some body'
        /\ get body' "search" = VArr items
  | _ => backcompat P (VObj props) = None
  end.
Proof.
  intros T1 T2 S K. unfold backcompat. rewrite T1, T2, S, K. cbn [andb].
  destruct (get (VObj props) "search" ||? VObj []) as [| | | | | items | sprops] eqn:E;
    try reflexivity.
  - eexists. split; [reflexivity|]. apply get_set_own_same.
  - eexists. split; [reflexivity|]. rewrite get_set_own_same. split.
    + apply get_set_own_same.
    + intros k Hk. now apply get_set_own_other.
Qed.

Lemma legacy_query_mapped_witness :
  exists body',
    backcompat empty_platform (VObj legacy_query) = Some body'
    /\ get (get body' "search") "product_keywords" = VStr "drills"
    /\ get (get body' "search") "url" = VStr "acme.com".
Proof.
  pose proof (@legacy_query_mapped empty_platform legacy_query "Product_Keyword"
                "product_keywords" eq_refl eq_refl eq_refl eq_refl) as H.
  cbn [legacy_query get lookup String.eqb Ascii.eqb Bool.eqb or_else truthy str_nonempty] in H.
  destruct H as (body' & B & Q & R).
  exists body'. split; [exact B|]. split; [exact Q|].
  exact (R "url" ltac:(discriminate)).
Defined.

(* ------------------------------------------------------------------ *)
(** ** The debug list *)

Section Debug.

Variable P : Platform.
Variable Wd : World.
Variable env : environment.

Lemma page_body_debug search sessionId bearer model timeout page all debug connected :
  yields (fun s => match s with
                   | Next _ d _ => d = debug
                   | Break _ d =>
                       d = debug
                       \/ exists e, d = debug ++ [e]
                                    /\ dbg_note e = "no-companies-from-model"
                                    /\ dbg_page e = page
                                    /\ String.length (dbg_preview e) <= 140
                   end)
         (page_body P (Wd := Wd) env search sessionId bearer model timeout
                    page all debug connected).
Proof.
  unfold page_body.
  eapply yields_bind; [apply yields_lift; intros ? _; exact I | intros prompt _].
  eapply yields_bind with (Mid := fun _ => True);
    [intro st; destruct (fst _); exact I | intros data _].
  eapply yields_bind; [apply yields_lift; intros ? _; exact I | intros parsed _].
  destruct (companies parsed) as [[| | | | | [|f fs] |]|];
    try (eapply yields_bind; [apply yields_lift; intros ? _; exact I |];
         intros preview _; apply yields_ret; right; eexists; split; [reflexivity|];
         cbn [dbg_note dbg_page dbg_preview]; repeat split;
         rewrite length_take; apply Nat.le_min_l).
  eapply yields_bind with (Mid := fun _ => True);
    [intro st; destruct (fst _); exact I | intros r _].
  destruct (novel all (snd r)); apply yields_ret; [now left | reflexivity].
Qed.

Lemma pages_debug search maxImports sessionId bearer model timeout fuel :
  forall page all connected,
    1 <= page ->
    yields (fun r => debug_ok maxImports (snd r))
           (pages P (Wd := Wd) env search maxImports sessionId bearer model timeout
                  fuel page all [] connected).
Proof.
  induction fuel as [|fuel IH]; intros page all connected Hp; simpl;
    destruct ((page <=? maxImports) && (length all <? maxImports)) eqn:G;
    try (apply yields_ret; now left).
  apply andb_true_iff in G. destruct G as [G _]. apply Nat.leb_le in G.
  eapply yields_bind with
    (Mid := fun s => match s with
                     | Next _ d _ => d = []
                     | Break _ d => debug_ok maxImports d
                     end).
  - apply yields_try; [|intro; now apply yields_ret].
    eapply yields_weaken; [|apply page_body_debug].
    intros [a d|a d c]; [|auto].
    intros [->|(e & -> & N & Pg & L)]; [now left|].
    right. exists e. repeat split; auto; lia.
  - intros [a d|a d c] H; [now apply yields_ret|]. subst d. apply IH. lia.
Qed.

End Debug.

(** The debug list [callXAI] returns is empty or holds one entry: that of
    the answer without companies that ended the loop, with the note of the
    source, the number of its page, between 1 and [maxImports], and a
    preview of at most 140 characters. *)
Theorem callXAI_debug (P : Platform) (Wd : World) (env : environment)
        (search : value) (maxImports : nat) (timeoutMs sessionId : value)
        (st st' : state Wd) (all : list doc) (debug : list debug_entry) :
  callXAI P env search maxImports timeoutMs sessionId st = (Ok (all, debug), st') ->
  debug_ok maxImports debug.
Proof.
  intro Hrun.
  assert (Y : yields (fun r => debug_ok maxImports (snd r))
                     (callXAI P (Wd := Wd) env search maxImports timeoutMs sessionId)).
  { unfold callXAI.
    destruct (XAI_API_KEY env) as [k|]; [|apply yields_throw].
    destruct (str_nonempty k); [|apply yields_throw].
    apply pages_debug. lia. }
  exact (@yields_run _ _ _ _ _ _ _ Y Hrun).
Qed.

Lemma callXAI_debug_witness :
  exists all debug st',
    callXAI acme_platform live_env (VObj []) 3 VUndef VNull
            (silence [chat acme_text; chat "no companies today"])
    = (Ok (all, debug), st')
    /\ length all = 1
    /\ map dbg_page debug = [2]
    /\ map dbg_parseNote debug = ["unparseable"]
    /\ debug_ok 3 debug.
Proof.
  destruct (callXAI acme_platform live_env (VObj []) 3 VUndef VNull
                    (silence [chat acme_text; chat "no companies today"]))
    as [[[all dbg]|e] st'] eqn:E; [|vm_compute in E; discriminate].
  exists all, dbg, st'. split; [reflexivity|].
  pose proof (@callXAI_debug acme_platform silent_world live_env _ _ _ _ _ _ _ _ E) as H.
  vm_compute in E. inversion E; subst all dbg.
  split; [reflexivity|]. split; [reflexivity|]. split; [reflexivity | exact H].
Defined.

(* ------------------------------------------------------------------ *)
(** ** The final validation *)

Lemma map_opt_rejects {A B : Type} (f : A -> option B) (l : list A) (x : A) :
  In x l -> f x = None -> map_opt f l = None.
Proof.
  induction l as [|y l IH]; intros H E; [destruct H|].
  destruct H as [->|H]; simpl.
  - now rewrite E.
  - rewrite (IH H E). now destruct (f y).
Qed.

(** The final validation is all or nothing, and it comes after the
    streaming: when one record of the list [callXAI] returns fails
    [companySchema], for instance for a name that is not a text, the whole
    live request is answered 500, and whatever was sent to the services on
    the way stays sent. *)
Theorem invalid_record_fails_import (P : Platform) (Wd : World) (env : environment)
        (req : request) (st st1 : state Wd) (sessionId body' : value)
        (maxImports : num) (search : value) (timeoutMs : num)
        (all : list doc) (debug : list debug_entry) (d : doc) :
  method req = VStr "POST" ->
  derive_sessionId req (read_body P req) = Some sessionId ->
  backcompat P (read_body P req) = Some body' ->
  validate P env body' = Some (maxImports, search, timeoutMs) ->
  on (XAI_STUB env) = false ->
  callXAI P env search (Z.to_nat (num_to_Z maxImports)) (VNum timeoutMs) sessionId st
  = (Ok (all, debug), st1) ->
  In d all ->
  companySchema d = None ->
  run P env req st
  = (Ok {| status := 500; body := ErrorBody "Server error: " (Some ZodError) |}, st1).
Proof.
  intros Hm Hs Hb Hv Hstub Hrun Hd Hc.
  rewrite (@run_valid P Wd env req st sessionId body' maxImports search timeoutMs Hm Hs Hb Hv).
  unfold try_catch, respond. rewrite Hstub. unfold bind. rewrite Hrun. cbn [fst].
  unfold schema. now rewrite (map_opt_rejects companySchema all d Hd Hc).
Qed.

Lemma invalid_record_fails_import_witness :
  exists st1,
    run numbered_platform live_env (post (VObj [])) (silence [chat numbered_text])
    = (Ok {| status := 500; body := ErrorBody "Server error: " (Some ZodError) |}, st1)
    /\ length (upserted (trace st1)) = 1.
Proof.
  destruct (callXAI numbered_platform live_env (VObj []) 1 (VNum (num_of_Z 600000)) VNull
                    (silence [chat numbered_text])) as [[[all dbg]|e] st1] eqn:E;
    [|vm_compute in E; discriminate].
  exists st1.
  assert (A : exists d, all = [d] /\ companySchema d = None
                        /\ length (upserted (trace st1)) = 1).
  { vm_compute in E. inversion E; subst all st1. eexists. repeat split. }
  destruct A as (d & -> & C & U). split; [|exact U].
  exact (@invalid_record_fails_import numbered_platform silent_world live_env
           (post (VObj [])) (silence [chat numbered_text]) st1 VNull (VObj [])
           (num_of_Z 1) (VObj []) (num_of_Z 600000) [d] dbg d
           eq_refl eq_refl eq_refl eq_refl eq_refl E (or_introl eq_refl) C).
Defined.
